(** * Reactive engine of reactive-ai: a shallow embedding

    The development models the TypeScript sources of [packages/core/src]:
      - [utils.ts]  ([debounce], [throttle]),
      - [engine.ts] (the class [CoreReactiveEngine]),
      - [types.ts]  (the records),
    over an explicit model of the JavaScript host: a clock, the queue of
    pending [setTimeout] callbacks, the private variables captured by the
    closures that [debounce] and [throttle] return, and the suspended
    [processAction] continuations (one per [await]).

    Conventions.
      - Times and delays are integer milliseconds ([Z]); JavaScript numbers
        are integers (no NaN, no fractions).
      - A user callback is a Rocq function; its possible JavaScript outcomes
        (return, throw, return a promise that later fulfils or rejects) are
        data.  User callbacks do not call back into the engine.
      - [console.log] output of the engine's [log] method is not modelled.
      - Timers fire exactly when due: an event that happens at time [t] sees
        every timer with due time [<= t] already fired, earliest first. *)

From Stdlib Require Import ZArith List Bool Lia.
From stdpp Require Import base gmap sets list strings pretty.

(** ** JavaScript values *)

(** The watched state [T] is opaque to the engine, except that
    [processAction] tests it for truthiness.  Objects and arrays are
    represented by their reference. *)
Inductive JSValue : Type :=
| JUndefined
| JNull
| JBool (b : bool)
| JNum (n : Z)
| JStr (s : string)
| JObj (ref : nat).

#[global] Instance JSValue_eq_dec : EqDecision JSValue.
Proof. solve_decision. Defined.

(** [!!v] *)
Definition truthy (v : JSValue) : bool :=
  match v with
  | JUndefined | JNull => false
  | JBool b => b
  | JNum n => negb (n =? 0)%Z
  | JStr s => negb (String.eqb s "")
  | JObj _ => true
  end.

(** [a !== b] *)
Definition strict_neq (a b : JSValue) : bool := negb (bool_decide (a = b)).

Definition Error : Type := string.

(** Outcome of evaluating a callback that returns an [A]. *)
Inductive Completion (A : Type) : Type :=
| Normal (a : A)
| Throw (e : Error).
Arguments Normal {A} a.
Arguments Throw {A} e.

(** Outcome of calling a function whose result is awaited or dropped:
    it throws, returns a plain value, or returns a promise that will settle
    with [fate]. *)
Inductive CallResult : Type :=
| Threw (e : Error)
| Returned
| ReturnedPromise (fate : Completion unit).

(** ** The host: clock, timers, closures (utils.ts) *)

(** The largest delay a timer honours: [2^31 - 1] milliseconds. *)
Definition TIMEOUT_MAX : Z := 2147483647.

(** The time a timer set with [delay] waits.  The host keeps the delay as a
    32-bit integer of at least 1: Node.js replaces a delay below 1 or above
    [TIMEOUT_MAX] by 1 millisecond. *)
Definition timer_delay (delay : Z) : Z :=
  if ((1 <=? delay) && (delay <=? TIMEOUT_MAX))%Z then delay else 1%Z.

Section HostModel.
Context {A : Type}.

(** Function values.  [FDebounce c f d] is the closure returned by
    [debounce(f, d)], whose captured variable [timeoutId] lives in cell
    [c]; [FThrottle c f l] the one returned by [throttle(f, l)], with
    captured variable [inThrottle] in cell [c]. *)
Inductive Fn : Type :=
| FUser (f : A -> CallResult)
| FDebounce (cell : nat) (func : Fn) (delay : Z)
| FThrottle (cell : nat) (func : Fn) (limit : Z).

(** The two arrow functions handed to [setTimeout]. *)
Inductive TimerCallback : Type :=
| DebounceFire (func : Fn) (args : A)     (* () => func(...args) *)
| ThrottleRelease (cell : nat).           (* () => inThrottle = false *)

Record Timer : Type := {
  tm_id : nat;
  tm_due : Z;
  tm_callback : TimerCallback
}.

Record Host : Type := {
  now : Z;                        (* Date.now() *)
  timers : list Timer;            (* pending timeouts, in creation order *)
  nextTimer : nat;
  timeoutId : gmap nat nat;       (* debounce cells; absent = undefined *)
  inThrottle : gmap nat bool;     (* throttle cells; absent = undefined *)
  nextCell : nat;
  calls : list (A * CallResult)   (* user function bodies run so far *)
}.

Definition host0 (t0 : Z) : Host :=
  {| now := t0; timers := []; nextTimer := 0; timeoutId := ∅;
     inThrottle := ∅; nextCell := 0; calls := [] |}.

(** [setTimeout(cb, delay)]: the timer is due [timer_delay delay]
    milliseconds from now.  Returns the timer id. *)
Definition setTimeout (cb : TimerCallback) (delay : Z) (h : Host) : nat * Host :=
  (nextTimer h,
   {| now := now h;
      timers := timers h ++ [ {| tm_id := nextTimer h;
                                 tm_due := (now h + timer_delay delay)%Z;
                                 tm_callback := cb |} ];
      nextTimer := S (nextTimer h);
      timeoutId := timeoutId h;
      inThrottle := inThrottle h;
      nextCell := nextCell h;
      calls := calls h |}).

Definition drop_timer (i : nat) (l : list Timer) : list Timer :=
  List.filter (fun tm => negb (tm_id tm =? i)) l.

(** [clearTimeout(id)]; [clearTimeout(undefined)] does nothing. *)
Definition clearTimeout (oid : option nat) (h : Host) : Host :=
  match oid with
  | None => h
  | Some i =>
      {| now := now h; timers := drop_timer i (timers h);
         nextTimer := nextTimer h; timeoutId := timeoutId h;
         inThrottle := inThrottle h; nextCell := nextCell h;
         calls := calls h |}
  end.

Definition set_timeoutId (c i : nat) (h : Host) : Host :=
  {| now := now h; timers := timers h; nextTimer := nextTimer h;
     timeoutId := <[c := i]> (timeoutId h);
     inThrottle := inThrottle h; nextCell := nextCell h; calls := calls h |}.

Definition set_inThrottle (c : nat) (b : bool) (h : Host) : Host :=
  {| now := now h; timers := timers h; nextTimer := nextTimer h;
     timeoutId := timeoutId h;
     inThrottle := <[c := b]> (inThrottle h);
     nextCell := nextCell h; calls := calls h |}.

Definition record_call (a : A) (r : CallResult) (h : Host) : Host :=
  {| now := now h; timers := timers h; nextTimer := nextTimer h;
     timeoutId := timeoutId h; inThrottle := inThrottle h;
     nextCell := nextCell h; calls := calls h ++ [(a, r)] |}.

Definition alloc_cell (h : Host) : nat * Host :=
  (nextCell h,
   {| now := now h; timers := timers h; nextTimer := nextTimer h;
      timeoutId := timeoutId h; inThrottle := inThrottle h;
      nextCell := S (nextCell h); calls := calls h |}).

(** [!inThrottle] is true while the variable is undefined or false. *)
Definition in_throttle (c : nat) (h : Host) : bool :=
  match inThrottle h !! c with Some b => b | None => false end.

(** utils.ts, [debounce(func, delay)]: allocates the closure. *)
Definition debounce (func : Fn) (delay : Z) (h : Host) : Fn * Host :=
  let '(c, h') := alloc_cell h in (FDebounce c func delay, h').

(** utils.ts, [throttle(func, limit)]: allocates the closure. *)
Definition throttle (func : Fn) (limit : Z) (h : Host) : Fn * Host :=
  let '(c, h') := alloc_cell h in (FThrottle c func limit, h').

(** Calling a function value with [args].
    - user function: its body runs;
    - debounce closure: [clearTimeout(timeoutId);
      timeoutId = setTimeout(() => func(...args), delay)], returns
      undefined;
    - throttle closure: [if (!inThrottle) { func(...args);
      inThrottle = true; setTimeout(() => inThrottle = false, limit) }],
      returns undefined; a throw of [func] leaves the block at once. *)
Fixpoint call (f : Fn) (args : A) (h : Host) : CallResult * Host :=
  match f with
  | FUser body => let r := body args in (r, record_call args r h)
  | FDebounce c func delay =>
      let h1 := clearTimeout (timeoutId h !! c) h in
      let '(i, h2) := setTimeout (DebounceFire func args) delay h1 in
      (Returned, set_timeoutId c i h2)
  | FThrottle c func limit =>
      if in_throttle c h then (Returned, h)
      else
        match call func args h with
        | (Threw e, h1) => (Threw e, h1)
        | (_, h1) =>
            let h2 := set_inThrottle c true h1 in
            (Returned, snd (setTimeout (ThrottleRelease c) limit h2))
        end
  end.

(** *** The timer phase of the event loop *)

(** Earliest due time first; among equal due times, creation order. *)
Fixpoint earliest (l : list Timer) : option Timer :=
  match l with
  | [] => None
  | tm :: l' =>
      match earliest l' with
      | None => Some tm
      | Some tm' => if (tm_due tm <=? tm_due tm')%Z then Some tm else Some tm'
      end
  end.

Definition next_due (T : Z) (h : Host) : option Timer :=
  match earliest (timers h) with
  | Some tm => if (tm_due tm <=? T)%Z then Some tm else None
  | None => None
  end.

(** Run one timer: it leaves the queue, the clock reaches its due time,
    its callback runs.  An exception of the callback is uncaught. *)
Definition fire (tm : Timer) (h : Host) : Host :=
  let h1 := {| now := Z.max (now h) (tm_due tm);
               timers := drop_timer (tm_id tm) (timers h);
               nextTimer := nextTimer h; timeoutId := timeoutId h;
               inThrottle := inThrottle h; nextCell := nextCell h;
               calls := calls h |} in
  match tm_callback tm with
  | DebounceFire func args => snd (call func args h1)
  | ThrottleRelease c => set_inThrottle c false h1
  end.

Fixpoint advance_fuel (n : nat) (T : Z) (h : Host) : Host :=
  match n with
  | O => h
  | S n' =>
      match next_due T h with
      | None => h
      | Some tm => advance_fuel n' T (fire tm h)
      end
  end.

(** Timers that calling [f] can create, counted with the timers their
    callbacks can create in turn. *)
Fixpoint fn_cost (f : Fn) : nat :=
  match f with
  | FUser _ => 0
  | FDebounce _ func _ => S (fn_cost func)
  | FThrottle _ func _ => S (fn_cost func)
  end.

Definition timer_cost (tm : Timer) : nat :=
  match tm_callback tm with
  | DebounceFire func _ => S (fn_cost func)
  | ThrottleRelease _ => 1
  end.

Definition budget (l : list Timer) : nat :=
  fold_right (fun tm n => timer_cost tm + n) 0 l.

Definition set_now (t : Z) (h : Host) : Host :=
  {| now := t; timers := timers h; nextTimer := nextTimer h;
     timeoutId := timeoutId h; inThrottle := inThrottle h;
     nextCell := nextCell h; calls := calls h |}.

(** Let the clock reach [T], running every timer that becomes due. *)
Definition advance (T : Z) (h : Host) : Host :=
  let h' := advance_fuel (budget (timers h)) T h in
  set_now (Z.max (now h') T) h'.

(** A schedule of calls [(t, args)] to one function value.  Calls at the
    same instant belong to one synchronous block: a timer waits at least 1
    millisecond, so none set in the block runs between them.  A call at a
    later instant comes from a later task of the event loop: the timers due
    by then have run. *)
Definition play (f : Fn) (sched : list (Z * A)) (h : Host) : Host :=
  fold_left (fun h ta => snd (call f (snd ta) (advance (fst ta) h))) sched h.

Definition args_run (h : Host) : list A := map fst (calls h).

End HostModel.

Arguments Fn : clear implicits.
Arguments TimerCallback : clear implicits.
Arguments Timer : clear implicits.
Arguments Host : clear implicits.

(** ** Data model (types.ts) *)

(** [AIProvider]: the engine stores providers and hands them to callbacks;
    it never calls [stream] or [complete], so only the name is kept. *)
Record AIProvider : Type := { name : string }.

Record Metadata : Type := {
  md_trigger : string;            (* metadata.trigger *)
  md_timestamp : Z;               (* metadata.timestamp *)
  md_previousState : JSValue      (* metadata.previousState *)
}.

Record ActionContext : Type := {
  ctx_state : JSValue;
  ctx_providers : gmap string AIProvider;
  ctx_metadata : Metadata
}.

(** [ReactiveAction]; optional fields are options. *)
Record ReactiveAction : Type := {
  act_id : option string;
  act_trigger : JSValue -> JSValue -> Z -> Completion bool;
  act_execute : Fn ActionContext;
  act_preventDefault : option bool;
  act_debounce : option Z;
  act_throttle : option Z;
  act_conditions : option (list (ActionContext -> Completion bool))
}.

Record ReactiveConfig : Type := {
  cfg_state : JSValue;
  cfg_providers : gmap string AIProvider;
  cfg_actions : list ReactiveAction;
  cfg_onError : option (Error -> ActionContext -> Completion unit);
  cfg_debug : option bool
}.

(** ** The engine object (engine.ts) *)

(** The private fields of [CoreReactiveEngine].  [actions] is a JavaScript
    [Map]: keys are unique and iteration follows insertion order, so it is an
    association list. *)
Record Engine : Type := {
  config : option ReactiveConfig;
  currentState : JSValue;
  previousState : JSValue;
  actions : list (string * ReactiveAction);
  executingActions : gset string;
  isDestroyed : bool
}.

(** [new CoreReactiveEngine()] *)
Definition engine0 : Engine :=
  {| config := None; currentState := JNull; previousState := JNull;
     actions := []; executingActions := ∅; isDestroyed := false |}.

(** [Map.prototype.set]: an existing key keeps its position. *)
Fixpoint map_set {V : Type} (k : string) (v : V) (m : list (string * V))
  : list (string * V) :=
  match m with
  | [] => [(k, v)]
  | (k', v') :: m' =>
      if String.eqb k k' then (k, v) :: m' else (k', v') :: map_set k v m'
  end.

(** [Map.prototype.delete] *)
Definition map_delete {V : Type} (k : string) (m : list (string * V))
  : list (string * V) :=
  List.filter (fun kv => negb (String.eqb k (fst kv))) m.

Fixpoint map_get {V : Type} (k : string) (m : list (string * V)) : option V :=
  match m with
  | [] => None
  | (k', v) :: m' => if String.eqb k k' then Some v else map_get k m'
  end.

(** What the engine lets its environment observe: every callback it invokes,
    with the outcome. *)
Inductive Obs : Type :=
| ObsTrigger (id : string) (old new : JSValue) (ts : Z) (r : Completion bool)
| ObsCondition (id : string) (ctx : ActionContext) (r : Completion bool)
| ObsExecute (id : string) (ctx : ActionContext) (r : CallResult)
| ObsSettled (task : nat) (id : string) (r : Completion unit)
| ObsOnError (e : Error) (ctx : ActionContext) (r : Completion unit).

(** One call of the async method [processAction]: either suspended at
    [await action.execute(context)] on something that will settle with
    [fate], or finished, its promise fulfilled ([Normal]) or rejected. *)
Inductive TaskState : Type :=
| Awaiting (fate : Completion unit)
| Finished (r : Completion unit).

Record Task : Type := {
  tk_id : nat;
  tk_update : nat;       (* the updateState call it belongs to *)
  tk_action : string;
  tk_old : JSValue;
  tk_new : JSValue;
  tk_ts : Z;
  tk_state : TaskState
}.

Record World : Type := {
  engine : Engine;
  host : Host ActionContext;
  tasks : list Task;
  nextTask : nat;
  nextUpdate : nat;
  trace : list Obs;
  entropy : nat -> string;   (* successive results of Math.random()... *)
  draws : nat
}.

Definition world0 (ent : nat -> string) (t0 : Z) : World :=
  {| engine := engine0; host := host0 t0; tasks := []; nextTask := 0;
     nextUpdate := 0; trace := []; entropy := ent; draws := 0 |}.

Definition set_engine (e : Engine) (w : World) : World :=
  {| engine := e; host := host w; tasks := tasks w; nextTask := nextTask w;
     nextUpdate := nextUpdate w; trace := trace w; entropy := entropy w;
     draws := draws w |}.

Definition set_host (h : Host ActionContext) (w : World) : World :=
  {| engine := engine w; host := h; tasks := tasks w; nextTask := nextTask w;
     nextUpdate := nextUpdate w; trace := trace w; entropy := entropy w;
     draws := draws w |}.

Definition observe (tr : list Obs) (w : World) : World :=
  {| engine := engine w; host := host w; tasks := tasks w;
     nextTask := nextTask w; nextUpdate := nextUpdate w;
     trace := trace w ++ tr; entropy := entropy w; draws := draws w |}.

Definition set_tasks (l : list Task) (w : World) : World :=
  {| engine := engine w; host := host w; tasks := l; nextTask := nextTask w;
     nextUpdate := nextUpdate w; trace := trace w; entropy := entropy w;
     draws := draws w |}.

Definition spawn (uid : nat) (id : string) (old new : JSValue) (ts : Z)
    (st : TaskState) (w : World) : World :=
  {| engine := engine w; host := host w;
     tasks := tasks w ++ [ {| tk_id := nextTask w; tk_update := uid;
                              tk_action := id; tk_old := old; tk_new := new;
                              tk_ts := ts; tk_state := st |} ];
     nextTask := S (nextTask w); nextUpdate := nextUpdate w;
     trace := trace w; entropy := entropy w; draws := draws w |}.

Definition set_executing (s : gset string) (e : Engine) : Engine :=
  {| config := config e; currentState := currentState e;
     previousState := previousState e; actions := actions e;
     executingActions := s; isDestroyed := isDestroyed e |}.

Definition set_actions (m : list (string * ReactiveAction)) (e : Engine) : Engine :=
  {| config := config e; currentState := currentState e;
     previousState := previousState e; actions := m;
     executingActions := executingActions e; isDestroyed := isDestroyed e |}.

(** [this.executingActions.add(actionId)] *)
Definition track (id : string) (w : World) : World :=
  set_engine (set_executing ({[id]} ∪ executingActions (engine w)) (engine w)) w.

(** [this.executingActions.delete(actionId)], the [finally] block. *)
Definition untrack (id : string) (w : World) : World :=
  set_engine (set_executing (executingActions (engine w) ∖ {[id]}) (engine w)) w.

(** [this.executingActions.has(actionId)] *)
Definition is_executing (id : string) (w : World) : bool :=
  bool_decide (id ∈ executingActions (engine w)).

Definition mkContext (cfg : ReactiveConfig) (id : string) (old new : JSValue)
    (ts : Z) : ActionContext :=
  {| ctx_state := new;
     ctx_providers := cfg_providers cfg;
     ctx_metadata := {| md_trigger := id; md_timestamp := ts;
                        md_previousState := old |} |}.

(** [generateActionId]: [`action_${Date.now()}_${Math.random()...}`]. *)
Definition generateActionId (w : World) : string * World :=
  ("action_" +:+ pretty (now (host w)) +:+ "_" +:+ entropy w (draws w),
   {| engine := engine w; host := host w; tasks := tasks w;
      nextTask := nextTask w; nextUpdate := nextUpdate w; trace := trace w;
      entropy := entropy w; draws := S (draws w) |}).

Definition with_execute (f : Fn ActionContext) (a : ReactiveAction) : ReactiveAction :=
  {| act_id := act_id a; act_trigger := act_trigger a; act_execute := f;
     act_preventDefault := act_preventDefault a;
     act_debounce := act_debounce a; act_throttle := act_throttle a;
     act_conditions := act_conditions a |}.

Definition with_id (i : string) (a : ReactiveAction) : ReactiveAction :=
  {| act_id := Some i; act_trigger := act_trigger a;
     act_execute := act_execute a;
     act_preventDefault := act_preventDefault a;
     act_debounce := act_debounce a; act_throttle := act_throttle a;
     act_conditions := act_conditions a |}.

(** [x && x > 0] on an optional number. *)
Definition positive_ms (o : option Z) : option Z :=
  match o with
  | Some d => if (0 <? d)%Z then Some d else None
  | None => None
  end.

(** [wrapActionWithControls]: debounce is applied first, then throttle is
    applied to the result. *)
Definition wrapActionWithControls (action : ReactiveAction) (h : Host ActionContext)
  : ReactiveAction * Host ActionContext :=
  let execute := act_execute action in
  let '(execute, h) :=
    match positive_ms (act_debounce action) with
    | Some d => debounce execute d h
    | None => (execute, h)
    end in
  let '(execute, h) :=
    match positive_ms (act_throttle action) with
    | Some l => throttle execute l h
    | None => (execute, h)
    end in
  (with_execute execute action, h).

(** [action.id || this.generateActionId()]: the empty string is falsy. *)
Definition usable_id (o : option string) : option string :=
  match o with
  | Some s => if String.eqb s "" then None else Some s
  | None => None
  end.

Definition addAction (action : ReactiveAction) (w : World) : Completion unit * World :=
  let '(actionId, w1) :=
    match usable_id (act_id action) with
    | Some s => (s, w)
    | None => generateActionId w
    end in
  let '(wrappedAction, h) := wrapActionWithControls action (host w1) in
  let w2 := set_host h w1 in
  (Normal tt,
   set_engine (set_actions (map_set actionId (with_id actionId wrappedAction)
                                    (actions (engine w2))) (engine w2)) w2).

Definition removeAction (actionId : string) (w : World) : Completion unit * World :=
  (Normal tt,
   set_engine (set_actions (map_delete actionId (actions (engine w))) (engine w)) w).

Definition destroy (w : World) : Completion unit * World :=
  (Normal tt,
   set_engine {| config := None; currentState := JNull; previousState := JNull;
                 actions := []; executingActions := ∅; isDestroyed := true |} w).

(** [Array.prototype.forEach] with a callback that may throw. *)
Fixpoint forEach {X : Type} (f : X -> World -> Completion unit * World)
    (l : list X) (w : World) : Completion unit * World :=
  match l with
  | [] => (Normal tt, w)
  | x :: l' =>
      match f x w with
      | (Normal _, w') => forEach f l' w'
      | (Throw e, w') => (Throw e, w')
      end
  end.

(** [this.config = config; this.currentState = config.state] *)
Definition install_config (cfg : ReactiveConfig) (w : World) : World :=
  let e := engine w in
  set_engine {| config := Some cfg; currentState := cfg_state cfg;
                previousState := previousState e;
                actions := actions e;
                executingActions := executingActions e;
                isDestroyed := isDestroyed e |} w.

Definition configure (cfg : ReactiveConfig) (w : World) : Completion unit * World :=
  if isDestroyed (engine w)
  then (Throw "Cannot configure destroyed reactive engine", w)
  else forEach addAction (cfg_actions cfg) (install_config cfg w).

(** [conditions.every(condition => condition(context))]: stops at the first
    condition that is false or throws. *)
Fixpoint every (id : string) (conds : list (ActionContext -> Completion bool))
    (ctx : ActionContext) : Completion bool * list Obs :=
  match conds with
  | [] => (Normal true, [])
  | c :: cs =>
      match c ctx with
      | Normal true =>
          let '(r, tr) := every id cs ctx in
          (r, ObsCondition id ctx (Normal true) :: tr)
      | r => (r, [ObsCondition id ctx r])
      end
  end.

(** How control leaves the [try] block of [processAction]. *)
Inductive TryExit : Type :=
| ExitReturn                        (* one of the three [return]s *)
| ExitThrow (e : Error)             (* something threw synchronously *)
| ExitAwait (fate : Completion unit).  (* suspended at the [await] *)

Definition is_true (o : option bool) : bool :=
  match o with Some b => b | None => false end.

(** The [try] block up to and including the call [action.execute(context)]. *)
Definition try_block (cfg : ReactiveConfig) (action : ReactiveAction)
    (actionId : string) (oldState newState : JSValue) (timestamp : Z)
    (w : World) : TryExit * World :=
  let shouldTrigger := act_trigger action oldState newState timestamp in
  let w1 := observe [ObsTrigger actionId oldState newState timestamp shouldTrigger] w in
  match shouldTrigger with
  | Throw e => (ExitThrow e, w1)
  | Normal false => (ExitReturn, w1)
  | Normal true =>
      let context := mkContext cfg actionId oldState newState timestamp in
      let '(ok, tr) :=
        match act_conditions action with
        | Some conds => every actionId conds context
        | None => (Normal true, [])
        end in
      let w2 := observe tr w1 in
      match ok with
      | Throw e => (ExitThrow e, w2)
      | Normal false => (ExitReturn, w2)
      | Normal true =>
          if is_true (act_preventDefault action) && is_executing actionId w2
          then (ExitReturn, w2)
          else
            let w3 := track actionId w2 in
            let '(res, h) := call (act_execute action) context (host w3) in
            let w4 := observe [ObsExecute actionId context res] (set_host h w3) in
            match res with
            | Threw e => (ExitThrow e, w4)
            | Returned => (ExitAwait (Normal tt), w4)
            | ReturnedPromise fate => (ExitAwait fate, w4)
            end
      end
  end.

(** The [catch] block.  It reads [this.config] when it runs; on a null
    config the property access throws a [TypeError]. *)
Definition catch_block (actionId : string) (e : Error)
    (oldState newState : JSValue) (timestamp : Z) (w : World)
  : Completion unit * World :=
  match config (engine w) with
  | None => (Throw "TypeError: Cannot read properties of null (reading 'onError')", w)
  | Some cfg =>
      match cfg_onError cfg with
      | Some onError =>
          let context := mkContext cfg actionId oldState newState timestamp in
          let r := onError e context in
          (r, observe [ObsOnError e context r] w)
      | None => (Normal tt, w)
      end
  end.

Definition id_of (action : ReactiveAction) : string :=
  match act_id action with Some s => s | None => "" end.

(** [processAction], from its call to the point where the async function
    either finishes or suspends.  [uid] names the [updateState] call. *)
Definition processAction (uid : nat) (action : ReactiveAction)
    (oldState newState : JSValue) (timestamp : Z) (w : World) : World :=
  let actionId := id_of action in   (* action.id! *)
  match config (engine w) with
  | None => spawn uid actionId oldState newState timestamp (Finished (Normal tt)) w
  | Some cfg =>
      if negb (truthy oldState)
      then spawn uid actionId oldState newState timestamp (Finished (Normal tt)) w
      else
        match try_block cfg action actionId oldState newState timestamp w with
        | (ExitReturn, w1) =>
            spawn uid actionId oldState newState timestamp (Finished (Normal tt))
                  (untrack actionId w1)
        | (ExitThrow e, w1) =>
            let '(r, w2) := catch_block actionId e oldState newState timestamp w1 in
            spawn uid actionId oldState newState timestamp (Finished r)
                  (untrack actionId w2)
        | (ExitAwait fate, w1) =>
            spawn uid actionId oldState newState timestamp (Awaiting fate) w1
        end
  end.

(** The rest of [processAction] after the [await]: what was awaited settles
    and the suspended call runs to its end ([catch] on rejection, then
    [finally]). *)
Definition finish_task (tk : Task) (r : Completion unit) : Task :=
  {| tk_id := tk_id tk; tk_update := tk_update tk; tk_action := tk_action tk;
     tk_old := tk_old tk; tk_new := tk_new tk; tk_ts := tk_ts tk;
     tk_state := Finished r |}.

Definition replace_task (tk : Task) (l : list Task) : list Task :=
  map (fun t => if tk_id t =? tk_id tk then tk else t) l.

Definition find_task (tid : nat) (l : list Task) : option Task :=
  List.find (fun t => tk_id t =? tid) l.

Definition settle (tid : nat) (w : World) : World :=
  match find_task tid (tasks w) with
  | None => w
  | Some tk =>
      match tk_state tk with
      | Finished _ => w
      | Awaiting fate =>
          let w1 := observe [ObsSettled tid (tk_action tk) fate] w in
          let '(r, w2) :=
            match fate with
            | Normal _ => (Normal tt, w1)
            | Throw e =>
                catch_block (tk_action tk) e (tk_old tk) (tk_new tk) (tk_ts tk) w1
            end in
          let w3 := untrack (tk_action tk) w2 in
          set_tasks (replace_task (finish_task tk r) (tasks w3)) w3
      end
  end.

(** The promise an [updateState] call returns. *)
Inductive UpdatePromise : Type :=
| Resolved                 (* the early [return] *)
| AllSettled (uid : nat).  (* after [await Promise.allSettled(...)] *)

Definition updateState (newState : JSValue) (w : World) : UpdatePromise * World :=
  match isDestroyed (engine w), config (engine w) with
  | false, Some _ =>
      let e := engine w in
      let oldState := currentState e in
      let uid := nextUpdate w in
      let w1 :=
        {| engine := {| config := config e; currentState := newState;
                        previousState := oldState; actions := actions e;
                        executingActions := executingActions e;
                        isDestroyed := isDestroyed e |};
           host := host w; tasks := tasks w; nextTask := nextTask w;
           nextUpdate := S uid; trace := trace w; entropy := entropy w;
           draws := draws w |} in
      let timestamp := now (host w) in
      (AllSettled uid,
       fold_left (fun w ka => processAction uid (snd ka) oldState newState timestamp w)
                 (actions e) w1)
  | _, _ => (Resolved, w)
  end.

Inductive PromiseState : Type :=
| Pending
| Fulfilled
| Rejected (e : Error).

Definition task_done (tk : Task) : bool :=
  match tk_state tk with Finished _ => true | Awaiting _ => false end.

(** The promise that one [processAction] call returned. *)
Definition task_promise (tk : Task) : PromiseState :=
  match tk_state tk with
  | Awaiting _ => Pending
  | Finished (Normal _) => Fulfilled
  | Finished (Throw e) => Rejected e
  end.

Definition is_pending (p : PromiseState) : bool :=
  match p with Pending => true | _ => false end.

(** [Promise.allSettled(promises)]: pending until every input promise has
    settled, then fulfilled, whatever their outcomes. *)
Definition allSettled (promises : list PromiseState) : PromiseState :=
  if existsb is_pending promises then Pending else Fulfilled.

(** The promise of an async function whose body ends with [await p]: it
    settles as [p] does, a rejection of [p] being thrown at the [await]. *)
Definition awaited (p : PromiseState) : PromiseState :=
  match p with
  | Pending => Pending
  | Fulfilled => Fulfilled
  | Rejected e => Rejected e
  end.

(** [actionPromises], the promises of the [processAction] calls of the
    update [uid]. *)
Definition actionPromises (uid : nat) (w : World) : list PromiseState :=
  map task_promise (List.filter (fun tk => tk_update tk =? uid) (tasks w)).

(** The promise that an [updateState] call returned. *)
Definition promise_state (p : UpdatePromise) (w : World) : PromiseState :=
  match p with
  | Resolved => Fulfilled
  | AllSettled uid => awaited (allSettled (actionPromises uid w))
  end.

(** ** Runs *)

Inductive Event : Type :=
| EConfigure (cfg : ReactiveConfig)
| EUpdate (s : JSValue)
| EAddAction (a : ReactiveAction)
| ERemoveAction (id : string)
| EDestroy
| ESettle (tid : nat)       (* what task [tid] awaits settles *)
| EAdvance (T : Z).         (* the clock reaches [T] *)

Definition step (w : World) (ev : Event) : World :=
  match ev with
  | EConfigure cfg => snd (configure cfg w)
  | EUpdate s => snd (updateState s w)
  | EAddAction a => snd (addAction a w)
  | ERemoveAction id => snd (removeAction id w)
  | EDestroy => snd (destroy w)
  | ESettle tid => settle tid w
  | EAdvance T => set_host (advance T (host w)) w
  end.

Definition run (evs : list Event) (w : World) : World := fold_left step evs w.

(** Projections used in the statements. *)
Definition executions (id : string) (w : World) : list ActionContext :=
  omap (fun o => match o with
                 | ObsExecute i ctx _ => if String.eqb i id then Some ctx else None
                 | _ => None
                 end) (trace w).

Definition awaiting (id : string) (w : World) : list Task :=
  List.filter (fun tk => String.eqb (tk_action tk) id && negb (task_done tk)) (tasks w).

Definition is_onError (o : Obs) : bool :=
  match o with ObsOnError _ _ _ => true | _ => false end.

(** An observation in which a callback invoked by [processAction] failed:
    a trigger or a condition threw, the stored [execute] threw, or what it
    returned rejected. *)
Definition is_failure (o : Obs) : bool :=
  match o with
  | ObsTrigger _ _ _ _ (Throw _) => true
  | ObsCondition _ _ (Throw _) => true
  | ObsExecute _ _ (Threw _) => true
  | ObsSettled _ _ (Throw _) => true
  | _ => false
  end.

Definition count (p : Obs -> bool) (tr : list Obs) : nat :=
  length (List.filter p tr).

(** The log of an [execute] that appends the state it is given. *)
Definition state_log (w : World) : list JSValue :=
  map (fun c => ctx_state (fst c)) (calls (host w)).

(** ** Schedules and the spec-side readings of debounce and throttle *)

Section RateLimitSpecs.
Context {A : Type}.

(** Call times never decrease, starting from [t]. *)
Fixpoint chrono (t : Z) (sched : list (Z * A)) : Prop :=
  match sched with
  | [] => True
  | ta :: rest => (t <= fst ta)%Z /\ chrono (fst ta) rest
  end.

Definition ends_by (T : Z) (sched : list (Z * A)) : Prop :=
  Forall (fun ta => (fst ta <= T)%Z) sched.

(** Written from the spec's words for debounce: the body runs for a call
    exactly when no further invocation occurs for [D] milliseconds after
    it (observed up to time [T]), with that call's arguments. *)
Fixpoint quiet_calls (D : Z) (sched : list (Z * A)) (T : Z) : list A :=
  match sched with
  | [] => []
  | ta :: rest =>
      let next := match rest with [] => T | ta' :: _ => fst ta' end in
      if (fst ta + D <=? next)%Z
      then snd ta :: quiet_calls D rest T
      else quiet_calls D rest T
  end.

(** Written from the spec's words for throttle: a call runs the body and
    starts a cooldown of [L] milliseconds unless it arrives during a
    cooldown, in which case it is dropped.  [cool] is the end of the
    running cooldown, if any. *)
Fixpoint throttle_accepts (L : Z) (cool : option Z) (sched : list (Z * A))
  : list A :=
  match sched with
  | [] => []
  | ta :: rest =>
      if match cool with Some c => (fst ta <? c)%Z | None => false end
      then throttle_accepts L cool rest
      else snd ta :: throttle_accepts L (Some (fst ta + L)%Z) rest
  end.
End RateLimitSpecs.

(** ** States of the rate-limiting closures, used in the proofs *)

Section ClosureStates.
Context {A : Type} (fn : A -> CallResult) (c : nat).

Definition debounce_timer (k : nat) (due : Z) (a : A) : Timer A :=
  {| tm_id := k; tm_due := due; tm_callback := DebounceFire (FUser fn) a |}.

(** The debounce closure's only timer is pending and [timeoutId] holds its
    id. *)
Definition pending_debounce (k : nat) (due : Z) (a : A) (h : Host A) : Prop :=
  timers h = [debounce_timer k due a] /\ timeoutId h !! c = Some k.

Definition quiet_or_pending (h : Host A) : Prop :=
  timers h = [] \/ exists k due a, pending_debounce k due a h.

Definition release_timer (k : nat) (due : Z) : Timer A :=
  {| tm_id := k; tm_due := due; tm_callback := ThrottleRelease c |}.

(** State of the throttle closure: idle, or cooling down until [ce]. *)
Definition throttle_state (cool : option Z) (h : Host A) : Prop :=
  match cool with
  | None => timers h = [] /\ in_throttle c h = false
  | Some ce => (exists k, timers h = [release_timer k ce]) /\ in_throttle c h = true
  end.
End ClosureStates.

(** ** Views of the engine object, used in the proofs *)

(** Everything of the engine object but the execution tracker. *)
Definition static (e : Engine) : Engine := set_executing ∅ e.

(** Everything of the engine object but the action map. *)
Definition sans_actions (e : Engine) : Engine := set_actions [] e.

(** The id under which [addAction] stores the action. *)
Definition stored_id (a : ReactiveAction) (w : World) : string :=
  match usable_id (act_id a) with
  | Some s => s
  | None => fst (generateActionId w)
  end.

(** The value [addAction] stores: [{ ...wrappedAction, id: actionId }]. *)
Definition stored_action (a : ReactiveAction) (w : World) : ReactiveAction :=
  with_id (stored_id a w) (fst (wrapActionWithControls a (host w))).
(** ** Sample inputs *)

Definition sample_entropy (n : nat) : string := pretty n.

Definition no_providers : gmap string AIProvider := ∅.

(** An action with an id, a trigger and a plain [execute]; nothing else set. *)
Definition plain_action (id : string)
    (trig : JSValue -> JSValue -> Z -> Completion bool)
    (body : ActionContext -> CallResult) : ReactiveAction :=
  {| act_id := Some id; act_trigger := trig; act_execute := FUser body;
     act_preventDefault := None; act_debounce := None; act_throttle := None;
     act_conditions := None |}.

Definition sample_config (s : JSValue) (acts : list ReactiveAction)
    (onErr : option (Error -> ActionContext -> Completion unit)) : ReactiveConfig :=
  {| cfg_state := s; cfg_providers := no_providers; cfg_actions := acts;
     cfg_onError := onErr; cfg_debug := None |}.

Definition always : JSValue -> JSValue -> Z -> Completion bool :=
  fun _ _ _ => Normal true.

(** [(p, c) => p !== c] *)
Definition changed : JSValue -> JSValue -> Z -> Completion bool :=
  fun p c _ => Normal (strict_neq p c).

(** An [execute] that appends to a log and returns. *)
Definition appends : ActionContext -> CallResult := fun _ => Returned.

(** An [execute] that throws. *)
Definition throws : ActionContext -> CallResult := fun _ => Threw "boom".

(** An async [execute] whose promise stays pending until the host settles it. *)
Definition resolves_later : ActionContext -> CallResult :=
  fun _ => ReturnedPromise (Normal tt).

(** An action with both rate limits set. *)
Definition rate_limited_action : ReactiveAction :=
  {| act_id := Some "rl"; act_trigger := always; act_execute := FUser appends;
     act_preventDefault := None; act_debounce := Some 100%Z;
     act_throttle := Some 200%Z; act_conditions := None |}.

(** Written from the spec's words: debounce as the outer wrapper around
    throttle, [debounce(throttle(execute))]. *)
Definition spec_wrapped_execute (action : ReactiveAction) (d l : Z)
    (h : Host ActionContext) : Fn ActionContext * Host ActionContext :=
  let '(inner, h1) := throttle (act_execute action) l h in
  debounce inner d h1.

(** A function over numbers whose body throws. *)
Definition throwing_fn : nat -> CallResult := fun _ => Threw "boom".

(** A function over numbers whose body returns. *)
Definition returning_fn : nat -> CallResult := fun _ => Returned.

(** Five calls within 50 ms. *)
Definition burst : list (Z * nat) :=
  [(0%Z, 1); (10%Z, 2); (20%Z, 3); (30%Z, 4); (50%Z, 5)].

(** The scenario of the spec: one action, [trigger = (p, c) => p !== c],
    [execute] appends the state it is given to a log. *)
Definition scenario_config (s0 : JSValue) : ReactiveConfig :=
  sample_config s0 [plain_action "log" changed appends] None.

(** The same with a trigger that always fires. *)
Definition eager_config (s0 : JSValue) : ReactiveConfig :=
  sample_config s0 [plain_action "log" always appends] None.

(** An action guarded by [preventDefault] whose [execute] is slow. *)
Definition guarded_action : ReactiveAction :=
  {| act_id := Some "a"; act_trigger := always;
     act_execute := FUser resolves_later; act_preventDefault := Some true;
     act_debounce := None; act_throttle := None; act_conditions := None |}.

(** A debounced action whose [execute] throws. *)
Definition debounced_thrower : ReactiveAction :=
  {| act_id := Some "d"; act_trigger := always; act_execute := FUser throws;
     act_preventDefault := None; act_debounce := Some 100%Z;
     act_throttle := None; act_conditions := None |}.

Definition quiet_handler : Error -> ActionContext -> Completion unit :=
  fun _ _ => Normal tt.

(** Events after which [this.config] is the same object: all but
    [configure] and [destroy]. *)
Definition keeps_config (ev : Event) : bool :=
  match ev with
  | EConfigure _ | EDestroy => false
  | _ => true
  end.

(** [w'] continues the trace of [w] with as many [onError] calls as
    failures. *)
Definition balanced_extension (w w' : World) : Prop :=
  exists tr, trace w' = trace w ++ tr
             /\ count is_onError tr = count is_failure tr.

(** The invariant of the action map: keys are unique and each stored action
    carries its key as [id]. *)
Definition wf_actions (m : list (string * ReactiveAction)) : Prop :=
  List.NoDup (map fst m) /\ Forall (fun ka => act_id (snd ka) = Some (fst ka)) m.

Definition passes (ctx : ActionContext) (c : ActionContext -> Completion bool) : bool :=
  match c ctx with Normal true => true | _ => false end.

(** Every declared condition returns true. *)
Definition conditions_pass (a : ReactiveAction) (ctx : ActionContext) : bool :=
  match act_conditions a with
  | None => true
  | Some cs => forallb (passes ctx) cs
  end.

(** Two actions: the first throws from [execute], the second appends. *)
Definition mixed_config : ReactiveConfig :=
  sample_config (JNum 1)
    [plain_action "bad" always throws; plain_action "good" always appends]
    (Some quiet_handler).





(** The guarded action with the trigger [(p, c) => p !== c]. *)
Definition guarded_changed_action : ReactiveAction :=
  {| act_id := Some "a"; act_trigger := changed;
     act_execute := FUser resolves_later; act_preventDefault := Some true;
     act_debounce := None; act_throttle := None; act_conditions := None |}.

(** ** Further views of worlds and traces *)

(** No key of the action map is the empty string. *)
Definition keys_usable (m : list (string * ReactiveAction)) : Prop :=
  Forall (fun ka => fst ka <> "") m.

(** Ids of the triggers evaluated in a stretch of trace, in order. *)
Definition triggered_ids (tr : list Obs) : list string :=
  omap (fun o => match o with
                 | ObsTrigger i _ _ _ _ => Some i
                 | _ => None
                 end) tr.

Definition is_settled_obs (o : Obs) : bool :=
  match o with ObsSettled _ _ _ => true | _ => false end.

(** A task of action [id] suspended at its [await]. *)
Definition awaits (id : string) (tk : Task) : Prop :=
  tk_action tk = id /\ task_done tk = false.

(** Task ids are unique and below the next id to be given out. *)
Definition tasks_wf (w : World) : Prop :=
  List.NoDup (map tk_id (tasks w))
  /\ Forall (fun tk => tk_id tk < nextTask w) (tasks w).

(** Every tracked id has a suspended task. *)
Definition tracker_backed (w : World) : Prop :=
  forall id, id ∈ executingActions (engine w) ->
             exists tk, In tk (tasks w) /\ awaits id tk.

(** The promise of this [processAction] call was rejected. *)
Definition task_rejected (tk : Task) : bool :=
  match tk_state tk with Finished (Throw _) => true | _ => false end.

(** The error callback, if there is one, returns normally. *)
Definition handler_returns (cfg : ReactiveConfig) : Prop :=
  match cfg_onError cfg with
  | Some h => forall e c, exists u, h e c = Normal u
  | None => True
  end.

(** An [onError] callback that throws. *)
Definition throwing_handler : Error -> ActionContext -> Completion unit :=
  fun _ _ => Throw "handler failed".



(** The action is executed by an update from [old] to [new]: the old state
    is truthy, the trigger returns true, every condition returns true and
    the re-entry guard does not apply ([tracked]: the id is in the
    tracker). *)
Definition fires (cfg : ReactiveConfig) (id : string) (a : ReactiveAction)
    (old new : JSValue) (ts : Z) (tracked : bool) : bool :=
  truthy old
  && match act_trigger a old new ts with Normal true => true | _ => false end
  && conditions_pass a (mkContext cfg id old new ts)
  && negb (is_true (act_preventDefault a) && tracked).

(** A schedule of updates [(t, s)]: the clock reaches [t], then
    [updateState(s)] is called. *)
Definition timed_updates (sched : list (Z * JSValue)) : list Event :=
  flat_map (fun ts => [EAdvance (fst ts); EUpdate (snd ts)]) sched.

(** The updates of a schedule on which the action fires, each with the
    context it is given; [old] is the state before the first update. *)
Fixpoint fired (cfg : ReactiveConfig) (id : string) (a : ReactiveAction)
    (old : JSValue) (sched : list (Z * JSValue)) : list (Z * ActionContext) :=
  match sched with
  | [] => []
  | (t, s) :: rest =>
      (if fires cfg id a old s t false then [(t, mkContext cfg id old s t)] else [])
      ++ fired cfg id a s rest
  end.

(** The engine holds exactly one action, [st], under [id]; [old] is its
    current state. *)
Definition holds_only (cfg : ReactiveConfig) (id : string) (st : ReactiveAction)
    (w : World) (old : JSValue) : Prop :=
  isDestroyed (engine w) = false /\ config (engine w) = Some cfg
  /\ actions (engine w) = [(id, st)] /\ currentState (engine w) = old.

(** State of a debounce closure: quiet, or the timer of the call made at
    [t] with [ctx] is pending. *)
Definition closure_state {A : Type} (fn : A -> CallResult) (d : Z) (c : nat)
    (pend : option (Z * A)) (h : Host A) : Prop :=
  match pend with
  | None => timers h = []
  | Some (t, x) =>
      (exists k, pending_debounce fn c k (t + timer_delay d) x h) /\ (t <= now h)%Z
  end.

(** An action whose [execute] is debounced by [d] milliseconds, a delay
    that timers honour, and that has no throttle and no re-entry guard. *)
Definition debounced_only (a : ReactiveAction) (fn : ActionContext -> CallResult)
    (d : Z) (id : string) : Prop :=
  act_execute a = FUser fn /\ act_debounce a = Some d
  /\ (0 < d <= TIMEOUT_MAX)%Z
  /\ positive_ms (act_throttle a) = None
  /\ is_true (act_preventDefault a) = false
  /\ usable_id (act_id a) = Some id.

(** A debounced action that fires on changes and appends. *)
Definition debounced_sample : ReactiveAction :=
  {| act_id := Some "save"; act_trigger := changed; act_execute := FUser appends;
     act_preventDefault := None; act_debounce := Some 100%Z; act_throttle := None;
     act_conditions := None |}.

(** An action whose [execute] is throttled to one run per [l]
    milliseconds, a delay that timers honour, and that has no debounce and
    no re-entry guard. *)
Definition throttled_only (a : ReactiveAction) (fn : ActionContext -> CallResult)
    (l : Z) (id : string) : Prop :=
  act_execute a = FUser fn /\ positive_ms (act_debounce a) = None
  /\ act_throttle a = Some l /\ (0 < l <= TIMEOUT_MAX)%Z
  /\ is_true (act_preventDefault a) = false
  /\ usable_id (act_id a) = Some id.

(** A throttled action that fires on changes and appends. *)
Definition throttled_sample : ReactiveAction :=
  {| act_id := Some "sync"; act_trigger := changed; act_execute := FUser appends;
     act_preventDefault := None; act_debounce := None; act_throttle := Some 100%Z;
     act_conditions := None |}.

(** ** Plain data and the comparison utilities (utils.ts) *)

(** The values [deepEqual], [deepClone] and [hasChanged] are used on:
    primitives, [Date] objects, dense arrays and plain objects, as trees
    (no sharing, no cycles, no functions).  Numbers are integers, as in the
    rest of the development, so there is no [NaN].  The fields of an object
    are its own enumerable properties in [Object.keys] order. *)
#[local] Unset Elimination Schemes.
Inductive Data : Type :=
| DUndefined
| DNull
| DBool (b : bool)
| DNum (n : Z)
| DStr (s : string)
| DDate (time : Z)
| DArr (items : list Data)
| DObj (fields : list (string * Data)).
#[local] Set Elimination Schemes.

Inductive TypeOf : Type := TUndefined | TBoolean | TNumber | TString | TObject.

(** [typeof d] *)
Definition typeof (d : Data) : TypeOf :=
  match d with
  | DUndefined => TUndefined
  | DBool _ => TBoolean
  | DNum _ => TNumber
  | DStr _ => TString
  | DNull | DDate _ | DArr _ | DObj _ => TObject
  end.

Definition typeof_eqb (s t : TypeOf) : bool :=
  match s, t with
  | TUndefined, TUndefined | TBoolean, TBoolean | TNumber, TNumber
  | TString, TString | TObject, TObject => true
  | _, _ => false
  end.

(** [a === b] for two values that are not the same reference: primitives
    compare by value, two objects are different. *)
Definition same_value (a b : Data) : bool :=
  match a, b with
  | DUndefined, DUndefined => true
  | DNull, DNull => true
  | DBool x, DBool y => Bool.eqb x y
  | DNum x, DNum y => (x =? y)%Z
  | DStr x, DStr y => String.eqb x y
  | _, _ => false
  end.

(** [d == null] *)
Definition nullish (d : Data) : bool :=
  match d with DUndefined | DNull => true | _ => false end.

(** [Array.isArray(d)] *)
Definition isArray (d : Data) : bool :=
  match d with DArr _ => true | _ => false end.

(** [Object.keys(d).length] for an object: a [Date] has no enumerable own
    property. *)
Definition key_count (d : Data) : nat :=
  match d with
  | DArr xs => length xs
  | DObj fs => length fs
  | _ => 0
  end.

(** [b[i]] where [i] is among [Object.keys(b)] of an array. *)
Definition get_index (b : Data) (i : nat) : option Data :=
  match b with DArr ys => nth_error ys i | _ => None end.

(** [b[k]] where [k] is among [Object.keys(b)] of a plain object. *)
Definition get_own (b : Data) (k : string) : option Data :=
  match b with DObj fb => map_get k fb | _ => None end.

(** [deepEqual(a, b)], for [a] and [b] that are not the same reference (for
    one reference the code answers [true] at its first line).  The final
    loop is [for (const key of keysA) { if (!keysB.includes(key)) return
    false; if (!deepEqual(a[key], b[key])) return false; }]. *)
Fixpoint deepEqual (a b : Data) : bool :=
  if same_value a b then true
  else if nullish a || nullish b then false
  else if negb (typeof_eqb (typeof a) (typeof b)) then false
  else if negb (typeof_eqb (typeof a) TObject) then false
  else if negb (Bool.eqb (isArray a) (isArray b)) then false
  else if negb (key_count a =? key_count b) then false
  else
    match a with
    | DArr xs =>
        (fix each (xs : list Data) (i : nat) : bool :=
           match xs with
           | [] => true
           | x :: xs' =>
               match get_index b i with
               | Some y => if deepEqual x y then each xs' (S i) else false
               | None => false
               end
           end) xs 0
    | DObj fa =>
        (fix each (fa : list (string * Data)) : bool :=
           match fa with
           | [] => true
           | (k, va) :: fa' =>
               match get_own b k with
               | Some vb => if deepEqual va vb then each fa' else false
               | None => false
               end
           end) fa
    | _ => true
    end.

(** The loop of [deepEqual] over the elements of an array, from index [i]. *)
Fixpoint each_index (b : Data) (xs : list Data) (i : nat) : bool :=
  match xs with
  | [] => true
  | x :: xs' =>
      match get_index b i with
      | Some y => if deepEqual x y then each_index b xs' (S i) else false
      | None => false
      end
  end.

(** The loop of [deepEqual] over the fields of an object. *)
Fixpoint each_field (b : Data) (fa : list (string * Data)) : bool :=
  match fa with
  | [] => true
  | (k, va) :: fa' =>
      match get_own b k with
      | Some vb => if deepEqual va vb then each_field b fa' else false
      | None => false
      end
  end.

Definition TypeError_hasOwnProperty : Error :=
  "TypeError: obj.hasOwnProperty is not a function".

(** [obj.map(item => deepClone(item))], with [clone] for [deepClone]. *)
Definition clone_items (clone : Data -> Completion Data)
  : list Data -> Completion (list Data) :=
  fix items (xs : list Data) : Completion (list Data) :=
    match xs with
    | [] => Normal []
    | x :: xs' =>
        match clone x with
        | Throw e => Throw e
        | Normal y =>
            match items xs' with
            | Throw e => Throw e
            | Normal ys => Normal (y :: ys)
            end
        end
    end.

(** The loop [for (const key in obj) { if (obj.hasOwnProperty(key))
    cloned[key] = deepClone(obj[key]) }] over a plain object without an own
    property [hasOwnProperty].  The assignment [cloned["__proto__"] = v]
    goes to the inherited setter, so it creates no own property. *)
Definition clone_fields (clone : Data -> Completion Data)
  : list (string * Data) -> Completion (list (string * Data)) :=
  fix fields (fs : list (string * Data)) : Completion (list (string * Data)) :=
    match fs with
    | [] => Normal []
    | (k, v) :: fs' =>
        match clone v with
        | Throw e => Throw e
        | Normal v' =>
            match fields fs' with
            | Throw e => Throw e
            | Normal out =>
                if String.eqb k "__proto__" then Normal out
                else Normal ((k, v') :: out)
            end
        end
    end.

(** [deepClone(obj)].  On a plain object, [obj.hasOwnProperty] is the
    object's own property of that name when it has one, and then the call
    [obj.hasOwnProperty(key)] throws (no value here is a function). *)
Fixpoint deepClone (obj : Data) : Completion Data :=
  match obj with
  | DDate t => Normal (DDate t)
  | DArr xs =>
      match clone_items deepClone xs with
      | Throw e => Throw e
      | Normal ys => Normal (DArr ys)
      end
  | DObj fs =>
      match map_get "hasOwnProperty" fs with
      | Some _ => Throw TypeError_hasOwnProperty
      | None =>
          match clone_fields deepClone fs with
          | Throw e => Throw e
          | Normal out => Normal (DObj out)
          end
      end
  | _ => Normal obj
  end.

(** [hasChanged(previous, current, shallow)].  [alias] tells whether the two
    arguments are one and the same object, which the tree representation
    cannot show; it only matters when both are objects. *)
Definition is_object (d : Data) : bool :=
  match d with DDate _ | DArr _ | DObj _ => true | _ => false end.

(** [a === b] *)
Definition strict_equal (alias : bool) (a b : Data) : bool :=
  if is_object a && is_object b then alias else same_value a b.

Definition hasChanged (alias : bool) (previous current : Data) (shallow : bool) : bool :=
  if shallow then negb (strict_equal alias previous current)
  else negb (if strict_equal alias previous current then true
             else deepEqual previous current).

(** *** Shapes of data, used in the statements *)

Fixpoint distinct (ks : list string) : bool :=
  match ks with
  | [] => true
  | k :: ks' => negb (existsb (String.eqb k) ks') && distinct ks'
  end.

(** The keys of every object are pairwise different, as in JavaScript. *)
Fixpoint wf_data (d : Data) : bool :=
  match d with
  | DArr xs => forallb wf_data xs
  | DObj fs => distinct (map fst fs) && forallb (fun kv => wf_data (snd kv)) fs
  | _ => true
  end.

(** Some object inside [d] has an own property named [hasOwnProperty]. *)
Fixpoint shadows_hasOwnProperty (d : Data) : bool :=
  match d with
  | DArr xs => existsb shadows_hasOwnProperty xs
  | DObj fs =>
      match map_get "hasOwnProperty" fs with
      | Some _ => true
      | None => existsb (fun kv => shadows_hasOwnProperty (snd kv)) fs
      end
  | _ => false
  end.

(** [d] with the own properties named [__proto__] removed, at every depth. *)
Fixpoint without_proto (d : Data) : Data :=
  match d with
  | DArr xs => DArr (map without_proto xs)
  | DObj fs =>
      DObj (List.filter (fun kv => negb (String.eqb (fst kv) "__proto__"))
                        (map (fun kv => (fst kv, without_proto (snd kv))) fs))
  | _ => d
  end.

(** [d] with the time of every [Date] set to 0. *)
Fixpoint erase_dates (d : Data) : Data :=
  match d with
  | DDate _ => DDate 0
  | DArr xs => DArr (map erase_dates xs)
  | DObj fs => DObj (map (fun kv => (fst kv, erase_dates (snd kv))) fs)
  | _ => d
  end.

(** Sample data. *)
Definition sample_record : Data :=
  DObj [("name", DStr "ada"); ("born", DDate 1815);
        ("tags", DArr [DNum 1; DNull; DObj [("x", DBool true)]])].

Definition sample_record_reordered : Data :=
  DObj [("tags", DArr [DNum 1; DNull; DObj [("x", DBool true)]]);
        ("born", DDate 1852); ("name", DStr "ada")].

(** ** Async iterator utilities (utils.ts) *)

(** An async iterable is modelled by what pulling from it does: each pull
    acts on the store the callbacks share and then ends the iteration,
    fails, or yields a value and the rest of the iteration.  Iterations are
    finite.  A callback acts on the store and returns or throws; a promise
    it returns is awaited at the call, so a rejection is a throw there. *)
Module AsyncIter.
Section Generators.
Context {Store : Type}.

Definition Callback (T U : Type) : Type := T -> Store -> Store * Completion U.

Inductive AsyncIterable (T : Type) : Type :=
| Pull (next : Store -> IterResult T)
with IterResult (T : Type) : Type :=
| Done (s : Store)
| Failed (s : Store) (e : Error)
| Yielded (s : Store) (value : T) (rest : AsyncIterable T).
Arguments Pull {T} next.
Arguments Done {T} s.
Arguments Failed {T} s e.
Arguments Yielded {T} s value rest.

Definition next {T : Type} (iterable : AsyncIterable T) : Store -> IterResult T :=
  match iterable with Pull nx => nx end.

(** [async function* map(iterable, mapper)]:
    [for await (const value of iterable) yield await mapper(value)] *)
Fixpoint map {T U : Type} (iterable : AsyncIterable T) (mapper : Callback T U)
  : AsyncIterable U :=
  match iterable with
  | Pull nx =>
      Pull (fun s =>
              match nx s with
              | Done s1 => Done s1
              | Failed s1 e => Failed s1 e
              | Yielded s1 value rest =>
                  match mapper value s1 with
                  | (s2, Throw e) => Failed s2 e
                  | (s2, Normal u) => Yielded s2 u (map rest mapper)
                  end
              end)
  end.

(** [async function* filter(iterable, predicate)]:
    [for await (const value of iterable) if (await predicate(value)) yield value] *)
Fixpoint filter {T : Type} (iterable : AsyncIterable T) (predicate : Callback T bool)
  : AsyncIterable T :=
  match iterable with
  | Pull nx =>
      Pull (fun s =>
              match nx s with
              | Done s1 => Done s1
              | Failed s1 e => Failed s1 e
              | Yielded s1 value rest =>
                  match predicate value s1 with
                  | (s2, Throw e) => Failed s2 e
                  | (s2, Normal true) => Yielded s2 value (filter rest predicate)
                  | (s2, Normal false) => next (filter rest predicate) s2
                  end
              end)
  end.

(** The loop of [collect], with the array [result] built so far. *)
Fixpoint collect_loop {T : Type} (iterable : AsyncIterable T) (result : list T)
  (s : Store) : Store * Completion (list T) :=
  match iterable with
  | Pull nx =>
      match nx s with
      | Done s1 => (s1, Normal result)
      | Failed s1 e => (s1, Throw e)
      | Yielded s1 value rest => collect_loop rest (result ++ [value]) s1
      end
  end.

(** [async function collect(iterable)]: the promise's fate. *)
Definition collect {T : Type} (iterable : AsyncIterable T)
  : Store -> Store * Completion (list T) :=
  collect_loop iterable [].

(** The iterable that yields the elements of a list, leaving the store
    alone. *)
Fixpoint of_list {T : Type} (xs : list T) : AsyncIterable T :=
  match xs with
  | [] => Pull (fun s => Done s)
  | x :: xs' => Pull (fun s => Yielded s x (of_list xs'))
  end.

(** A callback that only computes. *)
Definition pure {T U : Type} (f : T -> U) : Callback T U :=
  fun x s => (s, Normal (f x)).

(** [value => second(await first(value))] *)
Definition and_then {T U V : Type} (first : Callback T U) (second : Callback U V)
  : Callback T V :=
  fun x s =>
    match first x s with
    | (s1, Throw e) => (s1, Throw e)
    | (s1, Normal u) => second u s1
    end.

End Generators.
Arguments AsyncIterable : clear implicits.
Arguments IterResult : clear implicits.
Arguments Callback : clear implicits.
Arguments Pull {Store T} next.
Arguments Done {Store T} s.
Arguments Failed {Store T} s e.
Arguments Yielded {Store T} s value rest.
End AsyncIter.

Ltac break_match :=
  match goal with
  | |- context [match ?x with _ => _ end] => destruct x eqn:?
  end.

(** * Properties of the host model *)

Lemma timer_delay_in_range (d : Z) :
  (1 <= d <= TIMEOUT_MAX)%Z -> timer_delay d = d.
Proof.
  intros [H1 H2]. unfold timer_delay.
  destruct (Z.leb_spec 1 d); [| lia]. destruct (Z.leb_spec d TIMEOUT_MAX); [| lia].
  reflexivity.
Qed.

Lemma timer_delay_pos (d : Z) : (1 <= timer_delay d)%Z.
Proof.
  unfold timer_delay. destruct (Z.leb_spec 1 d); simpl; [| lia].
  destruct (Z.leb_spec d TIMEOUT_MAX); lia.
Qed.

Section HostFacts.
Context {A : Type}.
Implicit Types (h : Host A) (f : Fn A) (tm : Timer A).

Lemma play_cons f ta sched h :
  play f (ta :: sched) h = play f sched (snd (call f (snd ta) (advance (fst ta) h))).
Proof. reflexivity. Qed.

Lemma advance_no_timers T h :
  timers h = [] -> advance T h = set_now (Z.max (now h) T) h.
Proof. intros E. unfold advance. rewrite E. reflexivity. Qed.

Lemma drop_timer_single tm : drop_timer (tm_id tm) [tm] = [].
Proof. unfold drop_timer; simpl. rewrite Nat.eqb_refl. reflexivity. Qed.

(** With a single pending timer, [advance] either runs it or waits. *)
Lemma advance_single T h tm :
  timers h = [tm] ->
  advance T h =
    if (tm_due tm <=? T)%Z
    then
      let h1 := fire tm h in
      let h2 := advance_fuel (timer_cost tm - 1) T h1 in
      set_now (Z.max (now h2) T) h2
    else set_now (Z.max (now h) T) h.
Proof.
  intros E. unfold advance. rewrite E. simpl.
  unfold timer_cost.
  destruct (tm_callback tm) eqn:Ecb; simpl;
    unfold next_due; rewrite E; simpl;
    destruct (tm_due tm <=? T)%Z; try reflexivity.
  rewrite Nat.sub_0_r, Nat.add_0_r. reflexivity.
Qed.
End HostFacts.

(** ** The closure returned by [debounce] *)

Section DebounceFacts.
Context {A : Type} (fn : A -> CallResult) (d : Z) (c : nat).
Implicit Types (h : Host A).

Lemma debounce_call_resets h a :
  quiet_or_pending fn c h ->
  let h' := snd (call (FDebounce c (FUser fn) d) a h) in
  pending_debounce fn c (nextTimer h) (now h + timer_delay d) a h'
  /\ calls h' = calls h /\ now h' = now h.
Proof.
  intros Hq. destruct h as [n ts nt tid ith nc cs]. simpl in *.
  assert (Hts : timers (clearTimeout (tid !! c)
              {| now := n; timers := ts; nextTimer := nt; timeoutId := tid;
                 inThrottle := ith; nextCell := nc; calls := cs |}) = []).
  { destruct Hq as [E | (k & due & a0 & E & Hk)]; simpl in *; subst ts.
    - destruct (tid !! c); reflexivity.
    - rewrite Hk. simpl. unfold drop_timer. simpl.
      rewrite Nat.eqb_refl. reflexivity. }
  destruct (tid !! c) as [i|]; simpl in *; rewrite Hts; simpl;
    (split; [split; [reflexivity | apply lookup_insert_eq] | split; reflexivity]).
Qed.

Lemma debounce_advance h k due a T :
  pending_debounce fn c k due a h -> (now h <= T)%Z ->
  let h' := advance T h in
  now h' = T /\
  if (due <=? T)%Z
  then timers h' = [] /\ calls h' = calls h ++ [(a, fn a)]
  else pending_debounce fn c k due a h' /\ calls h' = calls h.
Proof.
  intros [E Hk] Hn. cbv zeta.
  rewrite (advance_single T h _ E). simpl.
  destruct (due <=? T)%Z eqn:Hd.
  - unfold fire. simpl. rewrite E. unfold drop_timer. simpl.
    rewrite Nat.eqb_refl. simpl. split; [lia |]. split; reflexivity.
  - simpl. split; [lia |]. split; [split; assumption | reflexivity].
Qed.


End DebounceFacts.

(** ** The closure returned by [throttle] *)

Section ThrottleFacts.
Context {A : Type} (fn : A -> CallResult) (l : Z) (c : nat).
Implicit Types (h : Host A).
Hypothesis fn_returns : forall a e, fn a <> Threw e.

Lemma throttle_call_idle h a :
  throttle_state c None h ->
  let h' := snd (call (FThrottle c (FUser fn) l) a h) in
  throttle_state c (Some (now h + timer_delay l)%Z) h'
  /\ calls h' = calls h ++ [(a, fn a)] /\ now h' = now h.
Proof.
  intros [E Hi]. simpl. rewrite Hi.
  destruct (fn a) as [e | | fate] eqn:Hr.
  - exfalso. exact (fn_returns a e Hr).
  - simpl. rewrite E. unfold in_throttle. simpl. rewrite lookup_insert_eq.
    repeat split. exists (nextTimer h). reflexivity.
  - simpl. rewrite E. unfold in_throttle. simpl. rewrite lookup_insert_eq.
    repeat split. exists (nextTimer h). reflexivity.
Qed.

Lemma throttle_call_cooling h a ce :
  throttle_state c (Some ce) h ->
  call (FThrottle c (FUser fn) l) a h = (Returned, h).
Proof. intros [_ Hi]. simpl. rewrite Hi. reflexivity. Qed.

Lemma throttle_advance_cooling h ce T :
  throttle_state c (Some ce) h -> (now h <= T)%Z ->
  let h' := advance T h in
  now h' = T /\ calls h' = calls h /\
  throttle_state c (if (ce <=? T)%Z then None else Some ce) h'.
Proof.
  intros [[k E] Hi] Hn. cbv zeta.
  rewrite (advance_single T h _ E). simpl.
  destruct (ce <=? T)%Z eqn:Hd.
  - unfold fire. simpl. rewrite E. unfold drop_timer. simpl.
    rewrite Nat.eqb_refl. simpl. split; [lia |]. split; [reflexivity |].
    split; [reflexivity |]. unfold in_throttle. simpl.
    rewrite lookup_insert_eq. reflexivity.
  - simpl. split; [lia |]. split; [reflexivity |].
    split; [exists k; exact E | exact Hi].
Qed.

Lemma throttle_advance_idle h T :
  throttle_state c None h -> (now h <= T)%Z ->
  let h' := advance T h in
  now h' = T /\ calls h' = calls h /\ throttle_state c None h'.
Proof.
  intros [E Hi] Hn. cbv zeta. rewrite (advance_no_timers T h E). simpl.
  split; [lia |]. split; [reflexivity |]. split; assumption.
Qed.

(** Functional characterisation of a throttled function whose body does
    not throw. *)
Lemma play_throttle sched : forall h cool,
  throttle_state c cool h -> chrono (now h) sched ->
  args_run (play (FThrottle c (FUser fn) l) sched h)
  = args_run h ++ throttle_accepts (timer_delay l) cool sched.
Proof.
  induction sched as [| [t a] rest IH]; intros h cool Hs Hc.
  - simpl. rewrite app_nil_r. reflexivity.
  - rewrite play_cons. cbn [fst snd]. destruct Hc as [Ht Hc]. simpl in Ht, Hc.
    cbn [throttle_accepts fst snd].
    destruct cool as [ce |].
    + destruct (throttle_advance_cooling h ce t Hs Ht) as (Hn & Hcalls & Hs1).
      set (h1 := advance t h) in *.
      destruct (ce <=? t)%Z eqn:Hd.
      * assert (Hlt : (t <? ce)%Z = false) by lia. rewrite Hlt.
        destruct (throttle_call_idle h1 a Hs1) as (Hs2 & Hcalls2 & Hn2).
        set (h2 := snd (call (FThrottle c (FUser fn) l) a h1)) in *.
        rewrite Hn in Hs2.
        rewrite (IH h2 _ Hs2) by (rewrite Hn2, Hn; exact Hc).
        unfold args_run. rewrite Hcalls2, Hcalls, map_app. simpl.
        rewrite <- app_assoc. reflexivity.
      * assert (Hlt : (t <? ce)%Z = true) by lia. rewrite Hlt.
        rewrite (throttle_call_cooling h1 a ce Hs1). cbn [snd].
        rewrite (IH h1 _ Hs1) by (rewrite Hn; exact Hc).
        unfold args_run. rewrite Hcalls. reflexivity.
    + destruct (throttle_advance_idle h t Hs Ht) as (Hn & Hcalls & Hs1).
      set (h1 := advance t h) in *.
      destruct (throttle_call_idle h1 a Hs1) as (Hs2 & Hcalls2 & Hn2).
      set (h2 := snd (call (FThrottle c (FUser fn) l) a h1)) in *.
      rewrite Hn in Hs2.
      rewrite (IH h2 _ Hs2) by (rewrite Hn2, Hn; exact Hc).
      unfold args_run. rewrite Hcalls2, Hcalls, map_app. simpl.
      rewrite <- app_assoc. reflexivity.
Qed.
End ThrottleFacts.

(** ** [advance] runs every due timer *)

Section AdvanceComplete.
Context {A : Type}.
Implicit Types (h : Host A) (f : Fn A) (tm : Timer A) (l : list (Timer A)).

Lemma budget_app l1 l2 : budget (l1 ++ l2) = budget l1 + budget l2.
Proof. induction l1 as [| tm l1 IH]; simpl; [reflexivity | rewrite IH; lia]. Qed.

Lemma timer_cost_pos tm : 1 <= timer_cost tm.
Proof. unfold timer_cost. destruct (tm_callback tm); lia. Qed.

Lemma budget_drop_le i l : budget (drop_timer i l) <= budget l.
Proof.
  induction l as [| tm l IH]; simpl; [lia |].
  destruct (negb (tm_id tm =? i)); simpl; lia.
Qed.

Lemma budget_drop_In tm l :
  In tm l -> budget (drop_timer (tm_id tm) l) + timer_cost tm <= budget l.
Proof.
  induction l as [| tm' l IH]; simpl; [tauto |].
  intros [-> | Hin].
  - rewrite Nat.eqb_refl. simpl. pose proof (budget_drop_le (tm_id tm) l). lia.
  - specialize (IH Hin). destruct (negb (tm_id tm' =? tm_id tm)); simpl; lia.
Qed.

Lemma call_budget f : forall a h,
  budget (timers (snd (call f a h))) <= budget (timers h) + fn_cost f.
Proof.
  induction f as [body | c func IH d | c func IH lim]; intros a h; simpl.
  - lia.
  - destruct (timeoutId h !! c) as [i |]; simpl; rewrite budget_app; simpl.
    + pose proof (budget_drop_le i (timers h)). unfold timer_cost. simpl. lia.
    + unfold timer_cost. simpl. lia.
  - destruct (in_throttle c h); simpl; [lia |].
    specialize (IH a h).
    destruct (call func a h) as [[e | | fate] h1]; simpl in *;
      try rewrite budget_app; simpl; unfold timer_cost; simpl; lia.
Qed.

Lemma fire_budget tm h :
  In tm (timers h) -> budget (timers (fire tm h)) < budget (timers h).
Proof.
  intros Hin. pose proof (budget_drop_In tm (timers h) Hin) as Hd.
  unfold fire. unfold timer_cost in Hd.
  destruct (tm_callback tm) as [func args | c].
  - match goal with |- context [call func args ?h1] =>
      pose proof (call_budget func args h1) as Hc end.
    simpl in Hc. lia.
  - simpl. lia.
Qed.

Lemma earliest_In l tm : earliest l = Some tm -> In tm l.
Proof.
  revert tm. induction l as [| tm' l IH]; simpl; intros tm; [discriminate |].
  destruct (earliest l) as [tm'' |].
  - destruct (tm_due tm' <=? tm_due tm'')%Z; intros [= <-]; auto.
  - intros [= <-]; auto.
Qed.

Lemma earliest_least l tm :
  earliest l = Some tm -> Forall (fun tm' => (tm_due tm <= tm_due tm')%Z) l.
Proof.
  revert tm. induction l as [| tm' l IH]; simpl; intros tm; [discriminate |].
  destruct (earliest l) as [tm'' |] eqn:E.
  - specialize (IH tm'' eq_refl).
    destruct (tm_due tm' <=? tm_due tm'')%Z eqn:Hle; intros [= <-];
      constructor; try lia.
    + eapply Forall_impl; [exact IH |]. simpl. intros; lia.
    + exact IH.
  - intros [= <-]. constructor; [lia |].
    destruct l; [constructor | simpl in E].
    destruct (earliest l); [destruct (_ <=? _)%Z |]; discriminate.
Qed.

Lemma earliest_None l : earliest l = None -> l = [].
Proof.
  destruct l as [| tm l]; [reflexivity | simpl].
  destruct (earliest l); [destruct (_ <=? _)%Z |]; discriminate.
Qed.

Lemma next_due_None T h :
  next_due T h = None -> Forall (fun tm => (T < tm_due tm)%Z) (timers h).
Proof.
  unfold next_due. destruct (earliest (timers h)) as [tm |] eqn:E.
  - destruct (tm_due tm <=? T)%Z eqn:Hle; [discriminate | intros _].
    eapply Forall_impl; [exact (earliest_least _ _ E) |]. simpl. intros; lia.
  - intros _. rewrite (earliest_None _ E). constructor.
Qed.

Lemma next_due_In T h tm : next_due T h = Some tm -> In tm (timers h).
Proof.
  unfold next_due. destruct (earliest (timers h)) as [tm' |] eqn:E; [| discriminate].
  destruct (tm_due tm' <=? T)%Z; [| discriminate].
  intros [= <-]. exact (earliest_In _ _ E).
Qed.

Lemma advance_fuel_complete T n : forall h,
  budget (timers h) <= n -> next_due T (advance_fuel n T h) = None.
Proof.
  induction n as [| n IH]; intros h Hb; simpl.
  - destruct (timers h) as [| tm l] eqn:E.
    + unfold next_due. rewrite E. reflexivity.
    + simpl in Hb. pose proof (timer_cost_pos tm). lia.
  - destruct (next_due T h) as [tm |] eqn:E; [| exact E].
    apply IH. pose proof (fire_budget tm h (next_due_In _ _ _ E)). lia.
Qed.

(** The fuel [advance] gives itself is enough: once the clock has reached
    [T], no timer due at or before [T] is left. *)
Lemma advance_complete T h :
  Forall (fun tm => (T < tm_due tm)%Z) (timers (advance T h)).
Proof.
  unfold advance. simpl.
  apply (next_due_None T (advance_fuel (budget (timers h)) T h)).
  apply advance_fuel_complete. lia.
Qed.
End AdvanceComplete.

(** * Properties of the engine model *)

(** ** What each step leaves alone *)

Lemma static_config e e' : static e = static e' -> config e = config e'.
Proof. intros H. apply (f_equal config) in H. exact H. Qed.

Lemma static_actions e e' : static e = static e' -> actions e = actions e'.
Proof. intros H. apply (f_equal actions) in H. exact H. Qed.

Lemma static_isDestroyed e e' : static e = static e' -> isDestroyed e = isDestroyed e'.
Proof. intros H. apply (f_equal isDestroyed) in H. exact H. Qed.

Lemma static_currentState e e' : static e = static e' -> currentState e = currentState e'.
Proof. intros H. apply (f_equal currentState) in H. exact H. Qed.

Lemma static_previousState e e' : static e = static e' -> previousState e = previousState e'.
Proof. intros H. apply (f_equal previousState) in H. exact H. Qed.

Lemma catch_block_engine id e old new ts w :
  engine (snd (catch_block id e old new ts w)) = engine w.
Proof. unfold catch_block. repeat break_match; reflexivity. Qed.

Lemma try_block_static cfg a id old new ts w :
  static (engine (snd (try_block cfg a id old new ts w))) = static (engine w).
Proof. unfold try_block. repeat break_match; reflexivity. Qed.

Lemma processAction_static uid a old new ts w :
  static (engine (processAction uid a old new ts w)) = static (engine w).
Proof.
  unfold processAction. destruct (config (engine w)) as [cfg |]; [| reflexivity].
  destruct (negb (truthy old)); [reflexivity |].
  pose proof (try_block_static cfg a (id_of a) old new ts w) as Ht.
  destruct (try_block cfg a (id_of a) old new ts w) as [[| e | fate] w1];
    simpl in *; try exact Ht.
  pose proof (catch_block_engine (id_of a) e old new ts w1) as Hc.
  destruct (catch_block (id_of a) e old new ts w1) as [r w2]. simpl in *.
  unfold static in *. rewrite Hc. exact Ht.
Qed.

Lemma settle_static tid w : static (engine (settle tid w)) = static (engine w).
Proof.
  unfold settle. destruct (find_task tid (tasks w)) as [tk |]; [| reflexivity].
  destruct (tk_state tk) as [fate | r]; [| reflexivity].
  destruct fate as [u | e]; [reflexivity |].
  match goal with |- context [catch_block ?i ?e ?o ?n ?t ?w0] =>
    pose proof (catch_block_engine i e o n t w0) as Hc;
    destruct (catch_block i e o n t w0) as [r w2] end.
  simpl in *. unfold static. rewrite Hc. reflexivity.
Qed.

Lemma addAction_normal a w : fst (addAction a w) = Normal tt.
Proof. unfold addAction. repeat break_match. reflexivity. Qed.

Lemma addAction_engine a w :
  engine (snd (addAction a w))
  = set_actions (map_set (stored_id a w) (stored_action a w) (actions (engine w)))
                (engine w).
Proof.
  unfold addAction, stored_action, stored_id.
  destruct (usable_id (act_id a)) as [s |]; simpl;
    destruct (wrapActionWithControls a (host w)) as [wa h]; reflexivity.
Qed.

Lemma forEach_addAction_normal l : forall w, fst (forEach addAction l w) = Normal tt.
Proof.
  induction l as [| a l IH]; intros w; simpl; [reflexivity |].
  pose proof (addAction_normal a w) as Hn.
  destruct (addAction a w) as [[u | e] w']; simpl in Hn; [apply IH | discriminate].
Qed.

Lemma forEach_addAction_fold l : forall w,
  snd (forEach addAction l w) = fold_left (fun w a => snd (addAction a w)) l w.
Proof.
  induction l as [| a l IH]; intros w; simpl; [reflexivity |].
  pose proof (addAction_normal a w) as Hn.
  destruct (addAction a w) as [[u | e] w']; simpl in *; [apply IH | discriminate].
Qed.

Lemma addAction_sans_actions a w :
  sans_actions (engine (snd (addAction a w))) = sans_actions (engine w).
Proof. rewrite addAction_engine. reflexivity. Qed.

Lemma fold_addAction_sans_actions l : forall w,
  sans_actions (engine (fold_left (fun w a => snd (addAction a w)) l w))
  = sans_actions (engine w).
Proof.
  induction l as [| a l IH]; intros w; simpl; [reflexivity |].
  rewrite IH. apply addAction_sans_actions.
Qed.

Lemma fold_processAction_static uid old new ts (l : list (string * ReactiveAction)) :
  forall w,
  static (engine (fold_left (fun w ka => processAction uid (snd ka) old new ts w) l w))
  = static (engine w).
Proof.
  induction l as [| ka l IH]; intros w; simpl; [reflexivity |].
  rewrite IH. apply processAction_static.
Qed.

(** ** The action map *)

Lemma map_get_set_eq {V : Type} (k : string) (v : V) m :
  map_get k (map_set k v m) = Some v.
Proof.
  induction m as [| [k' v'] m IH]; simpl.
  - rewrite String.eqb_refl. reflexivity.
  - destruct (String.eqb k k') eqn:E; simpl; rewrite ?String.eqb_refl, ?E; auto.
Qed.

Lemma map_get_set_is_Some {V : Type} (k k' : string) (v : V) m :
  map_get k m <> None -> map_get k (map_set k' v m) <> None.
Proof.
  induction m as [| [k0 v0] m IH]; simpl; [congruence |].
  destruct (String.eqb k' k0) eqn:E'; simpl.
  - apply String.eqb_eq in E' as ->. destruct (String.eqb k k0); auto.
  - destruct (String.eqb k k0); auto.
Qed.

Lemma map_set_not_nil {V : Type} (k : string) (v : V) m : map_set k v m <> [].
Proof. destruct m as [| [k' v'] m]; simpl; [| destruct (String.eqb k k')]; discriminate. Qed.

Lemma fold_addAction_keeps_key i l : forall w,
  map_get i (actions (engine w)) <> None ->
  map_get i (actions (engine (fold_left (fun w a => snd (addAction a w)) l w))) <> None.
Proof.
  induction l as [| a l IH]; intros w H; simpl; [exact H |].
  apply IH. rewrite addAction_engine. simpl. apply map_get_set_is_Some. exact H.
Qed.

Lemma fold_addAction_registers i a l : forall w,
  In a l -> usable_id (act_id a) = Some i ->
  map_get i (actions (engine (fold_left (fun w a => snd (addAction a w)) l w))) <> None.
Proof.
  induction l as [| a' l IH]; intros w Hin Hid; simpl; [destruct Hin |].
  destruct Hin as [-> | Hin].
  - apply fold_addAction_keeps_key. rewrite addAction_engine. simpl.
    unfold stored_id. rewrite Hid. rewrite map_get_set_eq. discriminate.
  - apply IH; assumption.
Qed.

(** ** Once destroyed, always destroyed *)

Lemma step_keeps_destroyed w ev :
  isDestroyed (engine w) = true -> isDestroyed (engine (step w ev)) = true.
Proof.
  intros H. destruct ev as [cfg | s | a | id | | tid | T]; simpl.
  - unfold configure. rewrite H. exact H.
  - unfold updateState. rewrite H. exact H.
  - rewrite addAction_engine. exact H.
  - exact H.
  - reflexivity.
  - rewrite (static_isDestroyed _ _ (settle_static tid w)). exact H.
  - exact H.
Qed.

Lemma run_keeps_destroyed evs : forall w,
  isDestroyed (engine w) = true -> isDestroyed (engine (run evs w)) = true.
Proof.
  induction evs as [| ev evs IH]; intros w H; simpl; [exact H |].
  apply IH, step_keeps_destroyed, H.
Qed.

(** C5: after [destroy()], whatever happens next ([evs]), every [configure]
    call throws the destroyed-engine error and leaves the world as it was,
    and every [updateState] call returns an already fulfilled promise and
    leaves the whole world unchanged: no engine field is written, no task is
    spawned and no callback ([trigger], [execute]) is invoked. *)
Theorem destroyed_engine_refuses_configure_and_ignores_updates
    (w : World) (evs : list Event) :
  let w' := run evs (snd (destroy w)) in
  (forall cfg, configure cfg w'
               = (Throw "Cannot configure destroyed reactive engine", w'))
  /\ (forall s, updateState s w' = (Resolved, w')
                /\ promise_state (fst (updateState s w')) w' = Fulfilled).
Proof.
  intros w'.
  assert (Hd : isDestroyed (engine w') = true)
    by (apply run_keeps_destroyed; reflexivity).
  split.
  - intros cfg. unfold configure. rewrite Hd. reflexivity.
  - intros s. unfold updateState. rewrite Hd. split; reflexivity.
Qed.

(** C10: [addAction] and [removeAction] have no destroyed-engine check.  On
    an engine that was destroyed (and whatever happened since), [addAction]
    returns normally, stores the wrapped action under its id, so the action
    map is not empty any more, while the engine stays destroyed; and
    [removeAction] of any id returns normally, deleting that key. *)
Theorem addAction_removeAction_work_on_destroyed_engine
    (w : World) (evs : list Event) (a : ReactiveAction) (id : string) :
  let w' := run evs (snd (destroy w)) in
  isDestroyed (engine w') = true
  /\ fst (addAction a w') = Normal tt
  /\ map_get (stored_id a w') (actions (engine (snd (addAction a w'))))
     = Some (stored_action a w')
  /\ actions (engine (snd (addAction a w'))) <> []
  /\ isDestroyed (engine (snd (addAction a w'))) = true
  /\ removeAction id w'
     = (Normal tt,
        set_engine (set_actions (map_delete id (actions (engine w'))) (engine w')) w').
Proof.
  intros w'.
  assert (Hd : isDestroyed (engine w') = true)
    by (apply run_keeps_destroyed; reflexivity).
  split; [exact Hd |].
  split; [apply addAction_normal |].
  rewrite addAction_engine. simpl.
  split; [apply map_get_set_eq |].
  split; [apply map_set_not_nil |].
  split; [exact Hd | reflexivity].
Qed.

(** ** configure *)

(** C9 as stated fails: a second [configure] after an [updateState] leaves
    [previousState] at the value the update stored, not at null. *)
Lemma configure_again_previousState_not_null :
  let w := run [EConfigure (sample_config (JNum 1) [] None); EUpdate (JNum 2)]
               (world0 sample_entropy 0) in
  isDestroyed (engine w) = false
  /\ fst (configure (sample_config (JNum 3) [] None) w) = Normal tt
  /\ previousState (engine (snd (configure (sample_config (JNum 3) [] None) w)))
     = JNum 1.
Proof. vm_compute. repeat split. Qed.

(** C9, amended: a [configure] call on an engine that is not destroyed
    returns normally and leaves [config] holding the supplied configuration
    (with its error callback and provider map), [currentState] equal to the
    supplied state and [previousState] as it was (null on an engine that was
    never updated); it runs [addAction] on each supplied action in order, so
    every supplied action with an id is a key of the action map. *)
Theorem configure_installs_config_and_actions (cfg : ReactiveConfig) (w : World) :
  isDestroyed (engine w) = false ->
  let w' := snd (configure cfg w) in
  fst (configure cfg w) = Normal tt
  /\ config (engine w') = Some cfg
  /\ currentState (engine w') = cfg_state cfg
  /\ previousState (engine w') = previousState (engine w)
  /\ w' = fold_left (fun w a => snd (addAction a w)) (cfg_actions cfg)
                    (install_config cfg w)
  /\ (forall a i, In a (cfg_actions cfg) -> usable_id (act_id a) = Some i ->
        map_get i (actions (engine w')) <> None).
Proof.
  intros Hd w'. subst w'. unfold configure. rewrite Hd.
  rewrite forEach_addAction_normal, forEach_addAction_fold.
  pose proof (fold_addAction_sans_actions (cfg_actions cfg) (install_config cfg w)) as Hs.
  split; [reflexivity |].
  split; [exact (f_equal config Hs) |].
  split; [exact (f_equal currentState Hs) |].
  split; [exact (f_equal previousState Hs) |].
  split; [reflexivity |].
  intros a i Hin Hid. eapply fold_addAction_registers; eassumption.
Qed.

Lemma configure_installs_config_and_actions_witness :
  let cfg := sample_config (JNum 1) [plain_action "log" changed appends] None in
  let w := world0 sample_entropy 0 in
  isDestroyed (engine w) = false
  /\ config (engine (snd (configure cfg w))) = Some cfg
  /\ previousState (engine (snd (configure cfg w))) = JNull.
Proof.
  intros cfg w.
  pose proof (configure_installs_config_and_actions cfg w eq_refl) as H.
  split; [reflexivity |].
  split; [exact (proj1 (proj2 H)) | exact (proj1 (proj2 (proj2 (proj2 H))))].
Defined.

(** ** Order of the rate limiters *)

(** C6: for an action with [debounce: 100, throttle: 200] the stored
    [execute] is a throttle closure around a debounce closure, not debounce
    around throttle as the claim says, and the two behave differently: with
    calls at 0 ms and 50 ms, the stored function runs the body once, 100 ms
    after the first call and with the first call's state (the second call
    is dropped by the throttle and does not reset the debounce timer), so
    the last change is never handled; debounce around throttle runs the
    body with the second call's state, after the quiet period. *)
Lemma addAction_wraps_throttle_around_debounce :
  let w := snd (addAction rate_limited_action (world0 sample_entropy 0)) in
  let spec := spec_wrapped_execute rate_limited_action 100 200 (host0 0) in
  let ctx n := mkContext (sample_config JNull [] None) "rl" JNull (JNum n) 0 in
  let sched := [(0%Z, ctx 1%Z); (50%Z, ctx 2%Z)] in
  option_map act_execute (map_get "rl" (actions (engine w)))
  = Some (FThrottle 1 (FDebounce 0 (FUser appends) 100) 200)
  /\ fst spec = FDebounce 1 (FThrottle 0 (FUser appends) 200) 100
  /\ map ctx_state (args_run (advance 1000 (play (FThrottle 1 (FDebounce 0 (FUser appends) 100) 200) sched (host w))))
     = [JNum 1]
  /\ map ctx_state (args_run (advance 1000 (play (fst spec) sched (snd spec))))
     = [JNum 2].
Proof. vm_compute. repeat split. Qed.

(** The composition in general: for an action whose [debounce] and
    [throttle] are both set to positive numbers, [addAction] stores
    [throttle(debounce(execute, debounce), throttle)]. *)
Theorem addAction_stores_throttle_of_debounce
    (a : ReactiveAction) (d l : Z) (w : World) :
  act_debounce a = Some d -> (0 < d)%Z ->
  act_throttle a = Some l -> (0 < l)%Z ->
  exists stored,
    map_get (stored_id a w) (actions (engine (snd (addAction a w)))) = Some stored
    /\ act_execute stored
       = FThrottle (S (nextCell (host w)))
                   (FDebounce (nextCell (host w)) (act_execute a) d) l.
Proof.
  intros Hd Hdp Hl Hlp. exists (stored_action a w).
  rewrite addAction_engine. simpl. split; [apply map_get_set_eq |].
  unfold wrapActionWithControls. rewrite Hd, Hl. simpl.
  assert (E1 : (0 <? d)%Z = true) by lia. assert (E2 : (0 <? l)%Z = true) by lia.
  rewrite E1, E2. reflexivity.
Qed.

Lemma addAction_stores_throttle_of_debounce_witness :
  exists stored,
    map_get "rl" (actions (engine (snd (addAction rate_limited_action
                                                  (world0 sample_entropy 0)))))
    = Some stored
    /\ act_execute stored = FThrottle 1 (FDebounce 0 (FUser appends) 100) 200.
Proof.
  exact (addAction_stores_throttle_of_debounce rate_limited_action 100 200
           (world0 sample_entropy 0) eq_refl eq_refl eq_refl eq_refl).
Defined.

(** ** debounce and throttle against their descriptions *)



(** C8 as stated fails for a function whose body throws: the throw leaves
    the closure before [inThrottle = true], no cooldown starts, and five
    calls within 50 milliseconds to [throttle(fn, 100)] run the body five
    times. *)
Lemma throttle_of_throwing_function_never_cools_down :
  args_run (play (fst (throttle (FUser throwing_fn) 100 (host0 0))) burst
                 (snd (throttle (FUser throwing_fn) 100 (host0 0))))
  = [1; 2; 3; 4; 5].
Proof. vm_compute. reflexivity. Qed.

(** C8, amended: for every function [fn] whose body does not throw, and
    every limit [l] that a timer honours, from 1 to [2^31 - 1]
    milliseconds, the body of [throttle(fn, l)] runs at once for the first
    call and for every call that does not arrive during a cooldown, each
    such call starting a cooldown of [l] milliseconds; calls during a
    cooldown are dropped.  In particular five calls within 50 milliseconds
    to [throttle(fn, 100)] run the body once, for the first call, and a
    sixth call 150 milliseconds after the first runs it again. *)
Theorem throttle_runs_first_call_and_drops_during_cooldown
    {A : Type} (fn : A -> CallResult) (l t0 : Z) :
  (forall a e, fn a <> Threw e) -> (0 < l <= TIMEOUT_MAX)%Z ->
  let f := fst (throttle (FUser fn) l (host0 t0)) in
  let h := snd (throttle (FUser fn) l (host0 t0)) in
  (forall sched, chrono t0 sched ->
     args_run (play f sched h) = throttle_accepts l None sched)
  /\ (l = 100%Z ->
      forall t1 t2 t3 t4 t5 t6 a1 a2 a3 a4 a5 a6,
        (t0 <= t1 <= t2)%Z -> (t2 <= t3 <= t4)%Z -> (t4 <= t5 <= t1 + 50)%Z ->
        (t1 + 150 <= t6)%Z ->
        args_run (play f [(t1, a1); (t2, a2); (t3, a3); (t4, a4); (t5, a5)] h)
        = [a1]
        /\ args_run (play f [(t1, a1); (t2, a2); (t3, a3); (t4, a4); (t5, a5);
                             (t6, a6)] h)
           = [a1; a6]).
Proof.
  intros Hfn Hl f h.
  assert (General : forall sched, chrono t0 sched ->
     args_run (play f sched h) = throttle_accepts l None sched).
  { intros sched Hc.
    pose proof (play_throttle fn l 0 Hfn sched h None
                  (conj eq_refl eq_refl) Hc) as H.
    rewrite (timer_delay_in_range l) in H by lia. exact H. }
  split; [exact General |].
  intros -> t1 t2 t3 t4 t5 t6 a1 a2 a3 a4 a5 a6 H12 H34 H5 H6.
  rewrite !General by (simpl; intuition lia).
  cbn [throttle_accepts fst snd].
  repeat match goal with
         | |- context [(?x <? ?y)%Z] => destruct (Z.ltb_spec x y); try lia
         end.
  split; reflexivity.
Qed.

Lemma throttle_runs_first_call_and_drops_during_cooldown_witness :
  args_run (play (fst (throttle (FUser returning_fn) 100 (host0 0)))
                 (burst ++ [(150%Z, 6)])
                 (snd (throttle (FUser returning_fn) 100 (host0 0))))
  = [1; 6].
Proof.
  refine (proj2 (proj2 (throttle_runs_first_call_and_drops_during_cooldown
                          returning_fn 100 0 _ ltac:(unfold TIMEOUT_MAX; lia))
                   eq_refl 0%Z 10%Z 20%Z 30%Z 50%Z 150%Z 1 2 3 4 5 6
                   ltac:(lia) ltac:(lia) ltac:(lia) ltac:(lia))).
  intros a e. discriminate.
Defined.

(** ** The update scenario *)

(** C3 as stated fails: from the initial state [0] the first
    [updateState(1)] runs nothing, because [processAction] returns at
    [!oldState] for the falsy old state [0]; and the second
    [updateState(1)] runs nothing, because the trigger [p !== c] is false on
    [(1, 1)].  The log stays empty. *)
Lemma scenario_from_zero_logs_nothing :
  let w1 := run [EConfigure (scenario_config (JNum 0)); EUpdate (JNum 1)]
                (world0 sample_entropy 0) in
  let w2 := run [ESettle 0; EUpdate (JNum 1)] w1 in
  state_log w1 = [] /\ state_log w2 = [].
Proof. vm_compute. split; reflexivity. Qed.

(** C3, amended: for an engine configured with a truthy initial state other
    than [1] and the single action of the scenario, [updateState(1)] yields
    log [[1]]; a second [updateState(1)] evaluates the trigger again, on
    [(1, 1)] (the engine performs no deduplication), where [p !== c] is
    false, so the log stays [[1]].  With a trigger that always fires the log
    becomes [[1, 1]]. *)
Theorem scenario_logs_once_for_repeated_value
    (s0 : JSValue) (ent : nat -> string) (t0 : Z) :
  truthy s0 = true -> s0 <> JNum 1 ->
  let w1 := run [EConfigure (scenario_config s0); EUpdate (JNum 1)] (world0 ent t0) in
  let w2 := run [ESettle 0; EUpdate (JNum 1)] w1 in
  let v2 := run [EConfigure (eager_config s0); EUpdate (JNum 1); ESettle 0;
                 EUpdate (JNum 1)] (world0 ent t0) in
  state_log w1 = [JNum 1]
  /\ state_log w2 = [JNum 1]
  /\ In (ObsTrigger "log" (JNum 1) (JNum 1) t0 (Normal false)) (trace w2)
  /\ state_log v2 = [JNum 1; JNum 1].
Proof.
  intros Ht Hne.
  (* the engine only tests the old state for truthiness and the trigger
     compares it with 1: split on the shape of [s0] until both tests compute *)
  destruct s0 as [| | [|] | [| [p | p |] | p] | [| c s] | r];
    try discriminate Ht; try (exfalso; apply Hne; reflexivity);
    vm_compute; repeat split; auto 10.
Qed.

Lemma scenario_logs_once_for_repeated_value_witness :
  state_log (run [ESettle 0; EUpdate (JNum 1)]
                 (run [EConfigure (scenario_config (JNum 2)); EUpdate (JNum 1)]
                      (world0 sample_entropy 0)))
  = [JNum 1].
Proof.
  refine (proj1 (proj2 (scenario_logs_once_for_repeated_value
                          (JNum 2) sample_entropy 0 eq_refl _))).
  discriminate.
Defined.

(** ** The error callback *)

(** C2: the engine loses the failure of a debounced action.  On an engine
    configured with [onError] and one action with [debounce: 100] whose
    [execute] throws, [updateState(2)] passes the trigger and calls the
    stored wrapper, which returns at once; the original [execute] throws
    100 milliseconds later, in the timer callback that debounce set up and
    outside the [try] block of [processAction].  The body has run and
    thrown, and [onError] is never invoked, where the claim counts one
    invocation. *)
Lemma debounced_failure_is_not_reported :
  let w := run [EConfigure (sample_config (JNum 1) [debounced_thrower]
                                          (Some quiet_handler));
                EUpdate (JNum 2); ESettle 0; EAdvance 100]
               (world0 sample_entropy 0) in
  let ctx := mkContext (sample_config (JNum 1) [debounced_thrower]
                                      (Some quiet_handler))
                       "d" (JNum 1) (JNum 2) 0 in
  trace w = [ObsTrigger "d" (JNum 1) (JNum 2) 0 (Normal true);
             ObsExecute "d" ctx Returned;
             ObsSettled 0 "d" (Normal tt)]
  /\ map snd (calls (host w)) = [Threw "boom"]
  /\ count is_onError (trace w) = 0.
Proof. vm_compute. repeat split. Qed.

(** ** Counting [onError] calls against failures *)

Lemma count_app p a b : count p (a ++ b) = count p a + count p b.
Proof. unfold count. rewrite List.filter_app, length_app. reflexivity. Qed.

Lemma balanced_refl w : balanced_extension w w.
Proof. exists []. rewrite app_nil_r. split; reflexivity. Qed.

Lemma balanced_trans w1 w2 w3 :
  balanced_extension w1 w2 -> balanced_extension w2 w3 -> balanced_extension w1 w3.
Proof.
  intros (t1 & E1 & C1) (t2 & E2 & C2). exists (t1 ++ t2).
  rewrite E2, E1, <- app_assoc, !count_app, C1, C2. split; reflexivity.
Qed.

Lemma balanced_same_trace w w' : trace w' = trace w -> balanced_extension w w'.
Proof. intros E. exists []. rewrite app_nil_r. split; [exact E | reflexivity]. Qed.

Lemma every_counts id ctx conds :
  count is_onError (snd (every id conds ctx)) = 0
  /\ count is_failure (snd (every id conds ctx))
     = match fst (every id conds ctx) with Throw _ => 1 | Normal _ => 0 end.
Proof.
  induction conds as [| c cs IH]; simpl; [split; reflexivity |].
  destruct (c ctx) as [[|] | e]; simpl; try (split; reflexivity).
  destruct (every id cs ctx) as [r tr]. simpl in *. exact IH.
Qed.

(** The observations of the [try] block: no [onError] call, and one failure
    exactly when the block is left by a throw. *)
Lemma try_block_counts cfg a id old new ts w :
  exists tr,
    trace (snd (try_block cfg a id old new ts w)) = trace w ++ tr
    /\ count is_onError tr = 0
    /\ count is_failure tr
       = match fst (try_block cfg a id old new ts w) with
         | ExitThrow _ => 1
         | _ => 0
         end.
Proof.
  unfold try_block.
  destruct (act_trigger a old new ts) as [[|] | e]; simpl;
    try (eexists; split; [reflexivity | split; reflexivity]).
  set (ctx := mkContext cfg id old new ts).
  assert (Hc : exists r trc,
             match act_conditions a with
             | Some conds => every id conds ctx
             | None => (Normal true, [])
             end = (r, trc)
             /\ count is_onError trc = 0
             /\ count is_failure trc = match r with Throw _ => 1 | Normal _ => 0 end).
  { destruct (act_conditions a) as [conds |].
    - pose proof (every_counts id ctx conds) as H.
      destruct (every id conds ctx) as [r trc]. exists r, trc. auto.
    - exists (Normal true), []. auto. }
  destruct Hc as (r & trc & -> & Ho & Hf).
  set (t1 := ObsTrigger id old new ts (Normal true)).
  assert (H1 : count is_onError [t1] = 0 /\ count is_failure [t1] = 0)
    by (split; reflexivity).
  destruct H1 as [H1o H1f].
  destruct r as [[|] | e]; cbn match.
  - destruct (is_true (act_preventDefault a) && _).
    + exists ([t1] ++ trc).
      split; [cbn [snd trace observe]; rewrite <- app_assoc; reflexivity |].
      rewrite !count_app, Ho, Hf, H1o, H1f. split; reflexivity.
    + match goal with |- context [call ?f ?c ?h] => destruct (call f c h) as [res h'] end.
      exists ([t1] ++ trc ++ [ObsExecute id ctx res]).
      destruct res as [e | | fate];
        (split; [cbn [snd trace observe set_host track set_engine]; rewrite <- !app_assoc; reflexivity |]);
        rewrite !count_app, Ho, Hf, H1o, H1f; split; reflexivity.
  - exists ([t1] ++ trc).
    split; [cbn [snd trace observe]; rewrite <- app_assoc; reflexivity |].
    rewrite !count_app, Ho, Hf, H1o, H1f. split; reflexivity.
  - exists ([t1] ++ trc).
    split; [cbn [snd trace observe]; rewrite <- app_assoc; reflexivity |].
    rewrite !count_app, Ho, Hf, H1o, H1f. split; reflexivity.
Qed.

Lemma catch_block_reports id e old new ts w cfg handler :
  config (engine w) = Some cfg -> cfg_onError cfg = Some handler ->
  exists o, is_onError o = true /\ is_failure o = false
            /\ trace (snd (catch_block id e old new ts w)) = trace w ++ [o].
Proof.
  intros Hc Hh. unfold catch_block. rewrite Hc, Hh. simpl.
  eexists. split; [| split; [| reflexivity]]; reflexivity.
Qed.

Lemma processAction_balanced uid a old new ts w cfg handler :
  config (engine w) = Some cfg -> cfg_onError cfg = Some handler ->
  balanced_extension w (processAction uid a old new ts w).
Proof.
  intros Hc Hh. unfold processAction. rewrite Hc.
  destruct (negb (truthy old)); [apply balanced_same_trace; reflexivity |].
  destruct (try_block_counts cfg a (id_of a) old new ts w) as (tr & Et & Ho & Hf).
  pose proof (static_config _ _ (try_block_static cfg a (id_of a) old new ts w)) as Hcfg.
  destruct (try_block cfg a (id_of a) old new ts w) as [[| e | fate] w1]; simpl in *.
  - exists tr. split; [exact Et | lia].
  - rewrite Hc in Hcfg.
    destruct (catch_block_reports (id_of a) e old new ts w1 cfg handler Hcfg Hh)
      as (o & Hoo & Hof & Eo).
    destruct (catch_block (id_of a) e old new ts w1) as [r w2]. simpl in *.
    exists (tr ++ [o]). cbn [trace spawn untrack set_engine].
    rewrite Eo, Et, <- app_assoc. split; [reflexivity |].
    rewrite !count_app, Ho, Hf. unfold count. simpl. rewrite Hoo, Hof. reflexivity.
  - exists tr. split; [exact Et | lia].
Qed.

Lemma fold_processAction_balanced uid old new ts cfg handler
    (l : list (string * ReactiveAction)) : forall w,
  config (engine w) = Some cfg -> cfg_onError cfg = Some handler ->
  balanced_extension w
    (fold_left (fun w ka => processAction uid (snd ka) old new ts w) l w).
Proof.
  induction l as [| ka l IH]; intros w Hc Hh; simpl; [apply balanced_refl |].
  eapply balanced_trans; [eapply processAction_balanced; eassumption |].
  apply IH; [| exact Hh].
  rewrite (static_config _ _ (processAction_static uid (snd ka) old new ts w)).
  exact Hc.
Qed.

Lemma settle_balanced tid w cfg handler :
  config (engine w) = Some cfg -> cfg_onError cfg = Some handler ->
  balanced_extension w (settle tid w).
Proof.
  intros Hc Hh. unfold settle.
  destruct (find_task tid (tasks w)) as [tk |]; [| apply balanced_refl].
  destruct (tk_state tk) as [fate | r]; [| apply balanced_refl].
  destruct fate as [u | e].
  - exists [ObsSettled tid (tk_action tk) (Normal u)]. split; reflexivity.
  - set (w1 := observe [ObsSettled tid (tk_action tk) (Throw e)] w).
    destruct (catch_block_reports (tk_action tk) e (tk_old tk) (tk_new tk) (tk_ts tk)
                w1 cfg handler Hc Hh) as (o & Hoo & Hof & Eo).
    destruct (catch_block (tk_action tk) e (tk_old tk) (tk_new tk) (tk_ts tk) w1)
      as [r w2]. simpl in *.
    exists ([ObsSettled tid (tk_action tk) (Throw e)] ++ [o]).
    cbn [trace set_tasks untrack set_engine].
    rewrite Eo. subst w1. cbn [trace observe]. rewrite <- app_assoc.
    split; [reflexivity |].
    unfold count. simpl. rewrite Hoo, Hof. reflexivity.
Qed.

Lemma addAction_trace a w : trace (snd (addAction a w)) = trace w.
Proof.
  unfold addAction. destruct (usable_id (act_id a)); simpl;
    break_match; reflexivity.
Qed.

Lemma step_balanced w ev cfg handler :
  config (engine w) = Some cfg -> cfg_onError cfg = Some handler ->
  keeps_config ev = true ->
  balanced_extension w (step w ev) /\ config (engine (step w ev)) = Some cfg.
Proof.
  intros Hc Hh Hk. destruct ev as [cfg' | s | a | id | | tid | T];
    try discriminate; simpl.
  - unfold updateState. rewrite Hc.
    destruct (isDestroyed (engine w)); simpl; [split; [apply balanced_refl | exact Hc] |].
    split.
    + match goal with |- balanced_extension _ (fold_left _ _ ?w1) =>
        apply (balanced_trans w w1); [apply balanced_same_trace; reflexivity |]
      end.
      eapply fold_processAction_balanced; [reflexivity | exact Hh].
    + match goal with |- config (engine (fold_left _ ?l ?w1)) = _ =>
        rewrite (static_config _ _ (fold_processAction_static _ _ _ _ l w1))
      end.
      reflexivity.
  - split; [apply balanced_same_trace, addAction_trace |].
    rewrite <- Hc. exact (f_equal config (addAction_sans_actions a w)).
  - split; [apply balanced_same_trace; reflexivity | exact Hc].
  - split; [eapply settle_balanced; eassumption |].
    rewrite (static_config _ _ (settle_static tid w)). exact Hc.
  - split; [apply balanced_same_trace; reflexivity | exact Hc].
Qed.

(** What [processAction] does report: on an engine configured with an
    [onError] callback, over every sequence of [updateState] calls, settlements of awaited
    executions, timer firings and [addAction]/[removeAction] calls, the
    number of [onError] invocations equals the number of failures inside
    [processAction]'s [try] block: a trigger or a condition threw, the
    stored (rate-limit-wrapped) [execute] threw, or what it returned
    rejected.  Each such failure is reported once, and nothing else is. *)
Theorem onError_once_per_caught_failure
    (evs : list Event) (w : World) (cfg : ReactiveConfig)
    (handler : Error -> ActionContext -> Completion unit) :
  config (engine w) = Some cfg -> cfg_onError cfg = Some handler ->
  forallb keeps_config evs = true ->
  exists tr,
    trace (run evs w) = trace w ++ tr
    /\ count is_onError tr = count is_failure tr.
Proof.
  revert w. induction evs as [| ev evs IH]; intros w Hc Hh Hk; simpl.
  - apply balanced_refl.
  - simpl in Hk. apply andb_true_iff in Hk as [Hk1 Hk2].
    destruct (step_balanced w ev cfg handler Hc Hh Hk1) as [Hb Hc'].
    exact (balanced_trans _ _ _ Hb (IH (step w ev) Hc' Hh Hk2)).
Qed.

Lemma onError_once_per_caught_failure_witness :
  let w := snd (configure mixed_config (world0 sample_entropy 0)) in
  exists tr,
    trace (run [EUpdate (JNum 2); ESettle 1] w) = trace w ++ tr
    /\ count is_onError tr = count is_failure tr.
Proof.
  exact (onError_once_per_caught_failure [EUpdate (JNum 2); ESettle 1]
           (snd (configure mixed_config (world0 sample_entropy 0)))
           mixed_config quiet_handler eq_refl eq_refl eq_refl).
Defined.

(** ** Every registered action is evaluated *)




Lemma every_pass id ctx cs :
  forallb (passes ctx) cs = true ->
  every id cs ctx = (Normal true, map (fun _ => ObsCondition id ctx (Normal true)) cs).
Proof.
  induction cs as [| c cs IH]; simpl; [reflexivity |].
  unfold passes at 1. destruct (c ctx) as [[|] | e]; simpl; try discriminate.
  intros H. rewrite (IH H). reflexivity.
Qed.

(** ** The tracker entry of another action is not touched *)

Lemma try_block_tracker_other cfg a id old new ts w x :
  x <> id ->
  x ∈ executingActions (engine (snd (try_block cfg a id old new ts w)))
  <-> x ∈ executingActions (engine w).
Proof.
  intros Hx. unfold try_block. repeat break_match; simpl; try reflexivity;
    rewrite elem_of_union, elem_of_singleton; tauto.
Qed.

Lemma processAction_tracker_other uid a old new ts w x :
  x <> id_of a ->
  is_executing x (processAction uid a old new ts w) = is_executing x w.
Proof.
  intros Hx. unfold is_executing. apply bool_decide_ext.
  unfold processAction.
  destruct (config (engine w)) as [cfg |]; [| reflexivity].
  destruct (negb (truthy old)); [reflexivity |].
  pose proof (try_block_tracker_other cfg a (id_of a) old new ts w x Hx) as Ht.
  destruct (try_block cfg a (id_of a) old new ts w) as [[| e | fate] w1]; simpl in *.
  - rewrite elem_of_difference, elem_of_singleton, Ht. tauto.
  - pose proof (catch_block_engine (id_of a) e old new ts w1) as Hc.
    destruct (catch_block (id_of a) e old new ts w1) as [r w2]. simpl in *.
    rewrite Hc. simpl. rewrite elem_of_difference, elem_of_singleton, Ht. tauto.
  - exact Ht.
Qed.

(** ** The action map stays well formed *)

Lemma map_set_keys_In {V : Type} (k : string) (v : V) m x :
  In x (map fst (map_set k v m)) -> x = k \/ In x (map fst m).
Proof.
  induction m as [| [k' v'] m IH]; simpl.
  - intros [<- | []]. auto.
  - destruct (String.eqb k k') eqn:E; simpl.
    + apply String.eqb_eq in E as ->. tauto.
    + intros [<- | H]; [tauto | destruct (IH H); tauto].
Qed.

Lemma map_set_wf k a m :
  wf_actions m -> act_id a = Some k -> wf_actions (map_set k a m).
Proof.
  intros [Hnd Hid] Ha. induction m as [| [k' a'] m IH]; simpl.
  - split.
    + simpl. apply List.NoDup_cons_iff. split; [simpl; tauto | constructor].
    + constructor; [exact Ha | constructor].
  - simpl in Hnd. apply List.NoDup_cons_iff in Hnd as [Hnin Hnd].
    apply Forall_cons_1 in Hid as [Hk' Hid].
    destruct (String.eqb k k') eqn:E; simpl.
    + apply String.eqb_eq in E as ->.
      split; [simpl; apply List.NoDup_cons_iff; auto | constructor; auto].
    + apply String.eqb_neq in E. destruct (IH Hnd Hid) as [IH1 IH2].
      split; [| constructor; auto].
      simpl. apply List.NoDup_cons_iff. split; [| exact IH1].
      intros Hin. apply map_set_keys_In in Hin as [-> | Hin]; tauto.
Qed.

Lemma map_delete_wf k (m : list (string * ReactiveAction)) :
  wf_actions m -> wf_actions (map_delete k m).
Proof.
  intros [Hnd Hid]. unfold map_delete.
  induction m as [| [k' a'] m IH]; simpl; [split; constructor |].
  simpl in Hnd. apply List.NoDup_cons_iff in Hnd as [Hnin Hnd].
  apply Forall_cons_1 in Hid as [Hk' Hid].
  destruct (IH Hnd Hid) as [IH1 IH2].
  destruct (negb (String.eqb k k')); simpl; [| split; assumption].
  split; [| constructor; auto].
  simpl. apply List.NoDup_cons_iff. split; [| exact IH1].
  intros Hin. apply Hnin. apply in_map_iff in Hin as ([k0 a0] & E & Hin).
  apply List.filter_In in Hin as [Hin _].
  apply in_map_iff. exists (k0, a0). auto.
Qed.

Lemma addAction_wf a w :
  wf_actions (actions (engine w)) ->
  wf_actions (actions (engine (snd (addAction a w)))).
Proof. intros H. rewrite addAction_engine. simpl. apply map_set_wf; auto. Qed.

Lemma step_wf w ev :
  wf_actions (actions (engine w)) -> wf_actions (actions (engine (step w ev))).
Proof.
  intros H. destruct ev as [cfg | s | a | id | | tid | T]; simpl.
  - unfold configure. destruct (isDestroyed (engine w)); [exact H |].
    rewrite forEach_addAction_fold.
    assert (H1 : wf_actions (actions (engine (install_config cfg w)))) by exact H.
    revert H1. generalize (install_config cfg w).
    induction (cfg_actions cfg) as [| a l IH]; intros w1 H1; simpl; [exact H1 |].
    apply IH, addAction_wf, H1.
  - unfold updateState.
    destruct (isDestroyed (engine w)); [exact H |].
    destruct (config (engine w)); [| exact H]. simpl.
    match goal with |- context [fold_left _ ?l ?w1] =>
      rewrite (static_actions _ _ (fold_processAction_static _ _ _ _ l w1))
    end.
    exact H.
  - apply addAction_wf, H.
  - apply map_delete_wf, H.
  - split; constructor.
  - rewrite (static_actions _ _ (settle_static tid w)). exact H.
  - exact H.
Qed.

Lemma run_wf evs : forall w,
  wf_actions (actions (engine w)) -> wf_actions (actions (engine (run evs w))).
Proof.
  induction evs as [| ev evs IH]; intros w H; simpl; [exact H |].
  apply IH, step_wf, H.
Qed.

(** ** The re-entry guard *)

(** While the id is tracked, the guard of an action with [preventDefault]
    takes the third [return]: [execute] is not invoked. *)
Lemma try_block_guarded cfg a old new ts w :
  act_trigger a old new ts = Normal true ->
  conditions_pass a (mkContext cfg (id_of a) old new ts) = true ->
  is_true (act_preventDefault a) = true ->
  is_executing (id_of a) w = true ->
  fst (try_block cfg a (id_of a) old new ts w) = ExitReturn
  /\ executions (id_of a) (snd (try_block cfg a (id_of a) old new ts w))
     = executions (id_of a) w.
Proof.
  intros Htr Hp Hpd Hex. unfold try_block. rewrite Htr.
  set (id := id_of a) in *. set (ctx := mkContext cfg id old new ts) in *.
  assert (Hc : exists n,
             match act_conditions a with
             | Some conds => every id conds ctx
             | None => (Normal true, [])
             end = (Normal true, repeat (ObsCondition id ctx (Normal true)) n)).
  { unfold conditions_pass in Hp. destruct (act_conditions a) as [cs |].
    - exists (length cs). rewrite (every_pass id ctx cs Hp). f_equal.
      clear. induction cs as [| c cs IH]; simpl; [reflexivity | f_equal; exact IH].
    - exists 0. reflexivity. }
  destruct Hc as [n ->]. rewrite Hpd.
  match goal with |- context [is_executing id ?w2] =>
    change (is_executing id w2) with (is_executing id w) end.
  rewrite Hex. cbn [andb fst snd]. split; [reflexivity |].
  unfold executions. cbn [trace observe]. rewrite !omap_app. simpl.
  replace (omap _ (repeat (ObsCondition id ctx (Normal true)) n)) with (@nil ActionContext).
  - rewrite !app_nil_r. reflexivity.
  - clear. induction n as [| n IH]; simpl; [reflexivity | exact IH].
Qed.

(** Whenever [processAction] leaves the [try] block by one of its three
    [return]s, the [finally] block removes the id from the tracker, whether
    or not an earlier invocation of the same action is still pending. *)
Lemma processAction_return_untracks uid a old new ts w cfg :
  config (engine w) = Some cfg -> truthy old = true ->
  fst (try_block cfg a (id_of a) old new ts w) = ExitReturn ->
  is_executing (id_of a) (processAction uid a old new ts w) = false.
Proof.
  intros Hc Ht Hr. unfold processAction. rewrite Hc, Ht. simpl.
  destruct (try_block cfg a (id_of a) old new ts w) as [ex w1].
  simpl in Hr. subst ex. unfold is_executing. simpl.
  apply bool_decide_eq_false. rewrite elem_of_difference, elem_of_singleton. tauto.
Qed.

(** C1, the code at the failing input.  An action with
    [preventDefault: true] whose [execute] is still pending: the first
    update invokes [execute] and tracks the id; the second, overlapping
    update is stopped by the guard, but its [finally] block deletes the id
    from the tracker although the first invocation is still pending; the
    third overlapping update then invokes [execute] again, and two
    invocations of the same action are pending at once.  The same happens
    when the second update is one whose trigger does not pass. *)
Theorem preventDefault_guard_is_dropped_by_a_skipped_update :
  let w1 := run [EConfigure (sample_config (JNum 1) [guarded_action] None);
                 EUpdate (JNum 2)] (world0 sample_entropy 0) in
  let w2 := step w1 (EUpdate (JNum 3)) in
  let w3 := step w2 (EUpdate (JNum 4)) in
  let v1 := run [EConfigure (sample_config (JNum 1) [guarded_changed_action] None);
                 EUpdate (JNum 2)] (world0 sample_entropy 0) in
  let v2 := step v1 (EUpdate (JNum 2)) in
  let v3 := step v2 (EUpdate (JNum 3)) in
  (length (executions "a" w1) = 1 /\ length (awaiting "a" w1) = 1
   /\ is_executing "a" w1 = true)
  /\ (length (executions "a" w2) = 1 /\ length (awaiting "a" w2) = 1
      /\ is_executing "a" w2 = false)
  /\ (length (executions "a" w3) = 2 /\ length (awaiting "a" w3) = 2)
  /\ (length (executions "a" v2) = 1 /\ length (awaiting "a" v2) = 1
      /\ is_executing "a" v2 = false)
  /\ (length (executions "a" v3) = 2 /\ length (awaiting "a" v3) = 2).
Proof. vm_compute. repeat split. Qed.

(** * Further properties of the engine *)

(** ** The action map: lookup after insert and delete *)

Lemma map_get_delete_eq {V : Type} (k : string) (m : list (string * V)) :
  map_get k (map_delete k m) = None.
Proof.
  unfold map_delete. induction m as [| [k' v] m IH]; simpl; [reflexivity |].
  destruct (String.eqb k k') eqn:E; simpl; [exact IH |]. rewrite E. exact IH.
Qed.

Lemma map_get_delete_ne {V : Type} (j k : string) (m : list (string * V)) :
  j <> k -> map_get j (map_delete k m) = map_get j m.
Proof.
  intros Hne. unfold map_delete. induction m as [| [k' v] m IH]; simpl; [reflexivity |].
  destruct (String.eqb k k') eqn:E; simpl.
  - apply String.eqb_eq in E as <-.
    destruct (String.eqb j k) eqn:E2; [apply String.eqb_eq in E2; contradiction | exact IH].
  - destruct (String.eqb j k'); [reflexivity | exact IH].
Qed.

Lemma map_delete_absent {V : Type} (k : string) (m : list (string * V)) :
  map_get k m = None -> map_delete k m = m.
Proof.
  unfold map_delete. induction m as [| [k' v] m IH]; simpl; [reflexivity |].
  destruct (String.eqb k k') eqn:E; simpl; [discriminate |].
  intros H. rewrite (IH H). reflexivity.
Qed.

Lemma map_get_set_ne {V : Type} (j k : string) (v : V) (m : list (string * V)) :
  j <> k -> map_get j (map_set k v m) = map_get j m.
Proof.
  intros Hne. induction m as [| [k' v'] m IH]; simpl.
  - destruct (String.eqb j k) eqn:E; [apply String.eqb_eq in E; contradiction | reflexivity].
  - destruct (String.eqb k k') eqn:E; simpl.
    + apply String.eqb_eq in E as <-.
      destruct (String.eqb j k) eqn:E2; [apply String.eqb_eq in E2; contradiction | reflexivity].
    + destruct (String.eqb j k'); [reflexivity | exact IH].
Qed.

Lemma map_set_present_keys {V : Type} (k : string) (v : V) (m : list (string * V)) :
  map_get k m <> None -> map fst (map_set k v m) = map fst m.
Proof.
  induction m as [| [k' v'] m IH]; simpl; [congruence |].
  destruct (String.eqb k k') eqn:E; simpl.
  - apply String.eqb_eq in E as <-. reflexivity.
  - intros H. rewrite (IH H). reflexivity.
Qed.

Lemma map_set_absent {V : Type} (k : string) (v : V) (m : list (string * V)) :
  map_get k m = None -> map_set k v m = m ++ [(k, v)].
Proof.
  induction m as [| [k' v'] m IH]; simpl; [reflexivity |].
  destruct (String.eqb k k') eqn:E; [discriminate |].
  intros H. rewrite (IH H). reflexivity.
Qed.

(** X1: [removeAction] returns normally; afterwards the id has no entry,
    every other id has the entry it had, and removing an id that has no
    entry changes nothing at all. *)
Theorem removeAction_removes_only_its_key (id : string) (w : World) :
  let w' := snd (removeAction id w) in
  fst (removeAction id w) = Normal tt
  /\ map_get id (actions (engine w')) = None
  /\ (forall j, j <> id ->
        map_get j (actions (engine w')) = map_get j (actions (engine w)))
  /\ (map_get id (actions (engine w)) = None -> w' = w).
Proof.
  simpl. split; [reflexivity |].
  split; [apply map_get_delete_eq |].
  split; [intros j Hj; apply map_get_delete_ne, Hj |].
  intros H. rewrite (map_delete_absent _ _ H).
  destruct w as [[c cs ps acts ex d] h ts nt nu tr en dr]. reflexivity.
Qed.

Lemma removeAction_removes_only_its_key_witness :
  let w := snd (configure mixed_config (world0 sample_entropy 0)) in
  snd (removeAction "unknown" w) = w.
Proof.
  intros w.
  exact (proj2 (proj2 (proj2 (removeAction_removes_only_its_key "unknown" w))) eq_refl).
Defined.

(** X2: [addAction] stores the wrapped action under its id.  An id that is
    already registered keeps its place in the iteration order and only its
    entry is replaced; a new id is appended at the end.  No other entry
    changes. *)
Theorem addAction_replaces_or_appends (a : ReactiveAction) (w : World) :
  let k := stored_id a w in
  let m := actions (engine w) in
  let m' := actions (engine (snd (addAction a w))) in
  map_get k m' = Some (stored_action a w)
  /\ (forall j, j <> k -> map_get j m' = map_get j m)
  /\ (map_get k m <> None -> map fst m' = map fst m)
  /\ (map_get k m = None -> m' = m ++ [(k, stored_action a w)]).
Proof.
  cbv zeta. rewrite addAction_engine. simpl.
  split; [apply map_get_set_eq |].
  split; [intros j Hj; apply map_get_set_ne, Hj |].
  split; [apply map_set_present_keys | apply map_set_absent].
Qed.

Lemma addAction_replaces_or_appends_witness :
  let w := snd (configure mixed_config (world0 sample_entropy 0)) in
  map fst (actions (engine (snd (addAction (plain_action "bad" changed appends) w))))
  = ["bad"; "good"]
  /\ map fst (actions (engine (snd (addAction (plain_action "new" changed appends) w))))
     = ["bad"; "good"; "new"].
Proof.
  intros w. split.
  - exact (proj1 (proj2 (proj2 (addAction_replaces_or_appends
                                  (plain_action "bad" changed appends) w)))
             ltac:(discriminate)).
  - exact (f_equal (map fst)
             (proj2 (proj2 (proj2 (addAction_replaces_or_appends
                                     (plain_action "new" changed appends) w)))
                eq_refl)).
Defined.

(** ** The action map of every reachable engine *)

Lemma stored_id_usable a w : stored_id a w <> "".
Proof.
  unfold stored_id, usable_id. destruct (act_id a) as [s |].
  - destruct (String.eqb s "") eqn:E.
    + simpl. discriminate.
    + apply String.eqb_neq in E. exact E.
  - simpl. discriminate.
Qed.

Lemma map_set_Forall {V : Type} (P : string * V -> Prop) k v m :
  Forall P m -> P (k, v) -> Forall P (map_set k v m).
Proof.
  intros Hm Hk. induction m as [| [k' v'] m IH]; simpl.
  - constructor; [exact Hk | constructor].
  - apply Forall_cons_1 in Hm as [H1 H2].
    destruct (String.eqb k k'); constructor; auto.
Qed.

Lemma map_delete_Forall {V : Type} (P : string * V -> Prop) k (m : list (string * V)) :
  Forall P m -> Forall P (map_delete k m).
Proof.
  intros Hm. unfold map_delete. induction m as [| kv m IH]; simpl; [constructor |].
  apply Forall_cons_1 in Hm as [H1 H2].
  destruct (negb (String.eqb k (fst kv))); [constructor |]; auto.
Qed.

Lemma step_keys_usable w ev :
  keys_usable (actions (engine w)) -> keys_usable (actions (engine (step w ev))).
Proof.
  intros H. destruct ev as [cfg | s | a | id | | tid | T]; simpl.
  - unfold configure. destruct (isDestroyed (engine w)); [exact H |].
    rewrite forEach_addAction_fold.
    assert (H1 : keys_usable (actions (engine (install_config cfg w)))) by exact H.
    revert H1. generalize (install_config cfg w).
    induction (cfg_actions cfg) as [| a l IH]; intros w1 H1; simpl; [exact H1 |].
    apply IH. rewrite addAction_engine. simpl.
    apply map_set_Forall; [exact H1 | apply stored_id_usable].
  - unfold updateState.
    destruct (isDestroyed (engine w)); [exact H |].
    destruct (config (engine w)); [| exact H]. simpl.
    match goal with |- context [fold_left _ ?l ?w1] =>
      rewrite (static_actions _ _ (fold_processAction_static _ _ _ _ l w1))
    end.
    exact H.
  - rewrite addAction_engine. simpl.
    apply map_set_Forall; [exact H | apply stored_id_usable].
  - apply map_delete_Forall, H.
  - constructor.
  - rewrite (static_actions _ _ (settle_static tid w)). exact H.
  - exact H.
Qed.

(** X3: in every state an engine can reach from [new CoreReactiveEngine()],
    the keys of the action map are pairwise different, none is the empty
    string, and every stored action carries its key as [id]. *)
Theorem reachable_action_map_is_well_formed
    (ent : nat -> string) (t0 : Z) (evs : list Event) :
  let m := actions (engine (run evs (world0 ent t0))) in
  List.NoDup (map fst m)
  /\ Forall (fun ka => act_id (snd ka) = Some (fst ka)) m
  /\ Forall (fun ka => fst ka <> "") m.
Proof.
  cbv zeta.
  assert (G : forall w, wf_actions (actions (engine w)) ->
                        keys_usable (actions (engine w)) ->
                        wf_actions (actions (engine (run evs w)))
                        /\ keys_usable (actions (engine (run evs w)))).
  { induction evs as [| ev evs IH]; intros w H1 H2; simpl; [auto |].
    apply IH; [apply step_wf, H1 | apply step_keys_usable, H2]. }
  destruct (G (world0 ent t0)) as [[H1 H2] H3].
  - split; constructor.
  - constructor.
  - auto.
Qed.

(** X4: [configure] on an engine that is not destroyed never drops a
    registered action: every id registered before is registered after, and
    when all supplied actions carry ids other than [i], the entry of [i] is
    the one it was. *)
Theorem configure_keeps_registered_actions
    (cfg : ReactiveConfig) (w : World) (i : string) :
  isDestroyed (engine w) = false ->
  let m' := actions (engine (snd (configure cfg w))) in
  (map_get i (actions (engine w)) <> None -> map_get i m' <> None)
  /\ (Forall (fun a => exists k, usable_id (act_id a) = Some k /\ k <> i)
             (cfg_actions cfg) ->
      map_get i m' = map_get i (actions (engine w))).
Proof.
  intros Hd. cbv zeta. unfold configure. rewrite Hd. rewrite forEach_addAction_fold.
  change (actions (engine w)) with (actions (engine (install_config cfg w))).
  generalize (install_config cfg w). clear Hd w.
  split.
  - intros H. apply fold_addAction_keeps_key, H.
  - revert w. induction (cfg_actions cfg) as [| a l IH]; intros w HF; simpl; [reflexivity |].
    apply Forall_cons_1 in HF as [(k & Hk & Hne) HF].
    rewrite (IH _ HF), addAction_engine. simpl.
    apply map_get_set_ne. unfold stored_id. rewrite Hk. congruence.
Qed.

Lemma configure_keeps_registered_actions_witness :
  let w := snd (configure mixed_config (world0 sample_entropy 0)) in
  map_get "good" (actions (engine (snd (configure (scenario_config (JNum 5)) w))))
  = map_get "good" (actions (engine w)).
Proof.
  intros w.
  refine (proj2 (configure_keeps_registered_actions (scenario_config (JNum 5)) w "good"
                   eq_refl) _).
  repeat constructor. exists "log". split; [reflexivity | discriminate].
Defined.

(** ** After [destroy] *)

Lemma settle_without_config tid w :
  config (engine w) = None ->
  exists tr, trace (settle tid w) = trace w ++ tr
             /\ forallb is_settled_obs tr = true.
Proof.
  intros Hc. unfold settle.
  destruct (find_task tid (tasks w)) as [tk |];
    [| exists []; rewrite app_nil_r; split; reflexivity].
  destruct (tk_state tk) as [fate | r];
    [| exists []; rewrite app_nil_r; split; reflexivity].
  destruct fate as [u | e].
  - eexists. split; reflexivity.
  - unfold catch_block. simpl. rewrite Hc. simpl. eexists. split; reflexivity.
Qed.

Lemma step_on_destroyed w ev :
  isDestroyed (engine w) = true -> config (engine w) = None ->
  (isDestroyed (engine (step w ev)) = true /\ config (engine (step w ev)) = None)
  /\ exists tr, trace (step w ev) = trace w ++ tr
                /\ forallb is_settled_obs tr = true.
Proof.
  intros Hd Hc.
  split; [split; [apply step_keeps_destroyed, Hd |] |].
  - destruct ev as [cfg | s | a | id | | tid | T]; simpl.
    + unfold configure. rewrite Hd. exact Hc.
    + unfold updateState. rewrite Hd. exact Hc.
    + rewrite <- Hc. exact (f_equal config (addAction_sans_actions a w)).
    + exact Hc.
    + reflexivity.
    + rewrite (static_config _ _ (settle_static tid w)). exact Hc.
    + exact Hc.
  - destruct ev as [cfg | s | a | id | | tid | T]; simpl;
      try (exists []; rewrite app_nil_r; split; reflexivity).
    + unfold configure. rewrite Hd. exists []. rewrite app_nil_r. split; reflexivity.
    + unfold updateState. rewrite Hd. exists []. rewrite app_nil_r. split; reflexivity.
    + exists []. rewrite app_nil_r, addAction_trace. split; reflexivity.
    + apply settle_without_config, Hc.
Qed.

(** X5: once [destroy()] has run, [processAction] never again calls a
    trigger, a condition, a stored [execute] or the [onError] callback,
    whatever is done to the engine afterwards: the only thing still observed
    is the settling of executions that were pending.  In particular a
    pending execution that rejects after [destroy] is not reported to
    [onError].  (Timers are another matter, see X26.) *)
Theorem destroyed_engine_invokes_no_callback (w : World) (evs : list Event) :
  exists tr,
    trace (run evs (snd (destroy w))) = trace w ++ tr
    /\ forallb is_settled_obs tr = true
    /\ count is_onError tr = 0.
Proof.
  assert (G : forall w0, isDestroyed (engine w0) = true -> config (engine w0) = None ->
            exists tr, trace (run evs w0) = trace w0 ++ tr
                       /\ forallb is_settled_obs tr = true).
  { induction evs as [| ev evs IH]; intros w0 Hd Hc; simpl.
    - exists []. rewrite app_nil_r. split; reflexivity.
    - destruct (step_on_destroyed w0 ev Hd Hc) as [[Hd' Hc'] (t1 & E1 & F1)].
      destruct (IH _ Hd' Hc') as (t2 & E2 & F2).
      exists (t1 ++ t2). rewrite E2, E1, app_assoc, forallb_app, F1, F2.
      split; reflexivity. }
  destruct (G (snd (destroy w)) eq_refl eq_refl) as (tr & E & F).
  exists tr. split; [exact E |]. split; [exact F |].
  clear E. induction tr as [| o tr IH]; [reflexivity |].
  simpl in F. apply andb_true_iff in F as [Fo F].
  unfold count in *. simpl. destruct o; try discriminate. simpl. exact (IH F).
Qed.

(** ** Order and bookkeeping of an update *)

Lemma triggered_ids_app t1 t2 :
  triggered_ids (t1 ++ t2) = triggered_ids t1 ++ triggered_ids t2.
Proof. unfold triggered_ids. apply omap_app. Qed.

Lemma every_triggered id ctx conds : triggered_ids (snd (every id conds ctx)) = [].
Proof.
  induction conds as [| c cs IH]; simpl; [reflexivity |].
  destruct (c ctx) as [[|] | e]; simpl; try reflexivity.
  destruct (every id cs ctx) as [r tr]. simpl in *. exact IH.
Qed.

Lemma try_block_triggered cfg a id old new ts w :
  exists tr, trace (snd (try_block cfg a id old new ts w)) = trace w ++ tr
             /\ triggered_ids tr = [id].
Proof.
  unfold try_block.
  destruct (act_trigger a old new ts) as [[|] | e]; simpl;
    try (eexists; split; reflexivity).
  set (ctx := mkContext cfg id old new ts).
  assert (Hc : exists r trc,
             match act_conditions a with
             | Some conds => every id conds ctx
             | None => (Normal true, [])
             end = (r, trc) /\ triggered_ids trc = []).
  { destruct (act_conditions a) as [conds |].
    - pose proof (every_triggered id ctx conds) as H.
      destruct (every id conds ctx) as [r trc]. exists r, trc. auto.
    - exists (Normal true), []. auto. }
  destruct Hc as (r & trc & -> & Ht).
  set (t1 := ObsTrigger id old new ts (Normal true)).
  destruct r as [[|] | e]; cbn match.
  - destruct (is_true (act_preventDefault a) && _).
    + exists ([t1] ++ trc).
      split; [cbn [snd trace observe]; rewrite <- app_assoc; reflexivity |].
      rewrite triggered_ids_app, Ht. reflexivity.
    + match goal with |- context [call ?f ?c ?h] => destruct (call f c h) as [res h'] end.
      exists ([t1] ++ trc ++ [ObsExecute id ctx res]).
      destruct res as [e | | fate];
        (split; [cbn [snd trace observe set_host track set_engine];
                 rewrite <- !app_assoc; reflexivity |]);
        rewrite !triggered_ids_app, Ht; reflexivity.
  - exists ([t1] ++ trc).
    split; [cbn [snd trace observe]; rewrite <- app_assoc; reflexivity |].
    rewrite triggered_ids_app, Ht. reflexivity.
  - exists ([t1] ++ trc).
    split; [cbn [snd trace observe]; rewrite <- app_assoc; reflexivity |].
    rewrite triggered_ids_app, Ht. reflexivity.
Qed.

Lemma catch_block_triggered id e old new ts w :
  exists tr, trace (snd (catch_block id e old new ts w)) = trace w ++ tr
             /\ triggered_ids tr = [].
Proof.
  unfold catch_block. repeat break_match; simpl;
    try (exists []; rewrite app_nil_r; split; reflexivity).
  eexists. split; reflexivity.
Qed.

Lemma processAction_triggered uid a old new ts w cfg :
  config (engine w) = Some cfg -> truthy old = true ->
  exists tr, trace (processAction uid a old new ts w) = trace w ++ tr
             /\ triggered_ids tr = [id_of a].
Proof.
  intros Hc Ht. unfold processAction. rewrite Hc, Ht. simpl.
  destruct (try_block_triggered cfg a (id_of a) old new ts w) as (tr & Et & Hi).
  destruct (try_block cfg a (id_of a) old new ts w) as [[| e | fate] w1]; simpl in *.
  - exists tr. auto.
  - destruct (catch_block_triggered (id_of a) e old new ts w1) as (tr2 & E2 & H2).
    destruct (catch_block (id_of a) e old new ts w1) as [r w2]. simpl in *.
    exists (tr ++ tr2). rewrite E2, Et, app_assoc, triggered_ids_app, Hi, H2.
    split; reflexivity.
  - exists tr. auto.
Qed.

Lemma fold_processAction_triggered uid old new ts cfg
    (l : list (string * ReactiveAction)) : forall w,
  config (engine w) = Some cfg -> truthy old = true ->
  exists tr,
    trace (fold_left (fun w ka => processAction uid (snd ka) old new ts w) l w)
    = trace w ++ tr
    /\ triggered_ids tr = map (fun ka => id_of (snd ka)) l.
Proof.
  induction l as [| ka l IH]; intros w Hc Ht; simpl.
  - exists []. rewrite app_nil_r. split; reflexivity.
  - destruct (processAction_triggered uid (snd ka) old new ts w cfg Hc Ht)
      as (t1 & E1 & I1).
    destruct (IH (processAction uid (snd ka) old new ts w)) as (t2 & E2 & I2).
    + rewrite (static_config _ _ (processAction_static uid (snd ka) old new ts w)).
      exact Hc.
    + exact Ht.
    + exists (t1 ++ t2). rewrite E2, E1, app_assoc, triggered_ids_app, I1, I2.
      split; reflexivity.
Qed.

(** X6: an update on a configured engine whose current state is truthy
    calls the trigger of every registered action exactly once, in the
    insertion order of the action map. *)
Theorem updateState_evaluates_in_insertion_order
    (ent : nat -> string) (t0 : Z) (evs : list Event) (s : JSValue)
    (cfg : ReactiveConfig) :
  let w := run evs (world0 ent t0) in
  isDestroyed (engine w) = false -> config (engine w) = Some cfg ->
  truthy (currentState (engine w)) = true ->
  exists tr,
    trace (snd (updateState s w)) = trace w ++ tr
    /\ triggered_ids tr = map fst (actions (engine w)).
Proof.
  intros w Hd Hc Ht.
  assert (Hwf : wf_actions (actions (engine w))).
  { apply run_wf. split; constructor. }
  unfold updateState. rewrite Hd, Hc. cbn [snd].
  match goal with |- context [fold_left _ _ ?x] => set (w1 := x) end.
  destruct (fold_processAction_triggered (nextUpdate w) (currentState (engine w)) s
              (now (host w)) cfg (actions (engine w)) w1 eq_refl Ht) as (tr & E & I).
  exists tr. split; [exact E |]. rewrite I.
  destruct Hwf as [_ Hid]. clear -Hid.
  induction (actions (engine w)) as [| [k a] l IH]; simpl; [reflexivity |].
  apply Forall_cons_1 in Hid as [Hk Hid]. simpl in Hk.
  unfold id_of at 1. simpl. rewrite Hk, (IH Hid). reflexivity.
Qed.

Lemma updateState_evaluates_in_insertion_order_witness :
  let w := run [EConfigure mixed_config] (world0 sample_entropy 0) in
  exists tr,
    trace (snd (updateState (JNum 2) w)) = trace w ++ tr
    /\ triggered_ids tr = ["bad"; "good"].
Proof.
  exact (updateState_evaluates_in_insertion_order sample_entropy 0
           [EConfigure mixed_config] (JNum 2) mixed_config eq_refl eq_refl eq_refl).
Defined.

Lemma fold_processAction_falsy uid old new ts cfg
    (l : list (string * ReactiveAction)) : forall w,
  config (engine w) = Some cfg -> truthy old = false ->
  let w' := fold_left (fun w ka => processAction uid (snd ka) old new ts w) l w in
  trace w' = trace w /\ host w' = host w /\ engine w' = engine w
  /\ exists added, tasks w' = tasks w ++ added
                   /\ length added = length l
                   /\ Forall (fun tk => tk_state tk = Finished (Normal tt)) added.
Proof.
  induction l as [| ka l IH]; intros w Hc Ht; simpl.
  - repeat split. exists []. rewrite app_nil_r. repeat split. constructor.
  - assert (E : processAction uid (snd ka) old new ts w
                = spawn uid (id_of (snd ka)) old new ts (Finished (Normal tt)) w).
    { unfold processAction. rewrite Hc, Ht. reflexivity. }
    rewrite E.
    destruct (IH (spawn uid (id_of (snd ka)) old new ts (Finished (Normal tt)) w) Hc Ht)
      as (H1 & H2 & H3 & added & H4 & H5 & H6).
    split; [exact H1 |]. split; [exact H2 |]. split; [exact H3 |].
    eexists (_ :: added). split; [rewrite H4; simpl; rewrite <- app_assoc; reflexivity |].
    split; [simpl; rewrite H5; reflexivity |].
    constructor; [reflexivity | exact H6].
Qed.

(** X7: when the current state is falsy ([0], [""], [false], [null],
    [undefined]) an update on a configured engine evaluates nothing: no
    trigger, condition, [execute] or [onError] is called, the tracker and
    the timers are untouched, and every [processAction] call finishes at
    once; only the state pair moves on. *)
Theorem updateState_from_falsy_state_evaluates_nothing
    (w : World) (s : JSValue) (cfg : ReactiveConfig) :
  isDestroyed (engine w) = false -> config (engine w) = Some cfg ->
  truthy (currentState (engine w)) = false ->
  let w' := snd (updateState s w) in
  trace w' = trace w /\ host w' = host w
  /\ executingActions (engine w') = executingActions (engine w)
  /\ currentState (engine w') = s
  /\ previousState (engine w') = currentState (engine w)
  /\ exists added, tasks w' = tasks w ++ added
                   /\ length added = length (actions (engine w))
                   /\ Forall (fun tk => tk_state tk = Finished (Normal tt)) added.
Proof.
  intros Hd Hc Ht. cbv zeta. unfold updateState. rewrite Hd, Hc. cbn [snd].
  match goal with |- context [fold_left _ _ ?x] => set (w1 := x) end.
  destruct (fold_processAction_falsy (nextUpdate w) (currentState (engine w)) s
              (now (host w)) cfg (actions (engine w)) w1 eq_refl Ht)
    as (H1 & H2 & H3 & H4).
  rewrite H1, H2, H3. repeat split. exact H4.
Qed.

Lemma updateState_from_falsy_state_evaluates_nothing_witness :
  let w := snd (configure (eager_config (JStr "")) (world0 sample_entropy 0)) in
  trace (snd (updateState (JStr "hello") w)) = trace w.
Proof.
  intros w.
  exact (proj1 (updateState_from_falsy_state_evaluates_nothing w (JStr "hello")
                  (eager_config (JStr "")) eq_refl eq_refl eq_refl)).
Defined.

(** X8: an update on a configured engine that is not destroyed stores the
    new state as current and the former current state as previous, and
    leaves the configuration, the action map and the destroyed flag alone,
    whatever the actions do; on an engine that was never configured it
    changes nothing. *)
Theorem updateState_shifts_the_state_pair (w : World) (s : JSValue) :
  let w' := snd (updateState s w) in
  (isDestroyed (engine w) = false -> config (engine w) <> None ->
   currentState (engine w') = s
   /\ previousState (engine w') = currentState (engine w)
   /\ config (engine w') = config (engine w)
   /\ actions (engine w') = actions (engine w)
   /\ isDestroyed (engine w') = false)
  /\ (config (engine w) = None -> updateState s w = (Resolved, w)).
Proof.
  cbv zeta. split.
  - intros Hd Hc. unfold updateState. rewrite Hd.
    destruct (config (engine w)) as [cfg |] eqn:E; [| congruence]. cbn [snd].
    match goal with |- context [fold_left _ ?l ?x] =>
      pose proof (fold_processAction_static (nextUpdate w) (currentState (engine w)) s
                    (now (host w)) l x) as Hs
    end.
    rewrite (static_currentState _ _ Hs), (static_previousState _ _ Hs),
      (static_config _ _ Hs), (static_actions _ _ Hs), (static_isDestroyed _ _ Hs).
    simpl. repeat split.
  - intros Hc. unfold updateState. rewrite Hc.
    destruct (isDestroyed (engine w)); reflexivity.
Qed.

Lemma updateState_shifts_the_state_pair_witness :
  let w := snd (configure mixed_config (world0 sample_entropy 0)) in
  currentState (engine (snd (updateState (JNum 7) w))) = JNum 7
  /\ previousState (engine (snd (updateState (JNum 7) w))) = JNum 1.
Proof.
  intros w.
  pose proof (proj1 (updateState_shifts_the_state_pair w (JNum 7)) eq_refl
                ltac:(discriminate)) as H.
  exact (conj (proj1 H) (proj1 (proj2 H))).
Defined.

(** ** The tracker never outlives the executions *)

Lemma NoDup_map_inj {X Y : Type} (f : X -> Y) (l : list X) x y :
  List.NoDup (map f l) -> In x l -> In y l -> f x = f y -> x = y.
Proof.
  induction l as [| z l IH]; simpl; [tauto |].
  intros Hnd Hx Hy E. apply List.NoDup_cons_iff in Hnd as [Hnin Hnd].
  destruct Hx as [-> | Hx], Hy as [-> | Hy]; auto.
  - exfalso. apply Hnin. rewrite E. apply in_map, Hy.
  - exfalso. apply Hnin. rewrite <- E. apply in_map, Hx.
Qed.

Lemma spawn_tasks_wf uid id old new ts st w :
  tasks_wf w -> tasks_wf (spawn uid id old new ts st w).
Proof.
  intros [Hnd Hlt]. unfold tasks_wf. simpl. split.
  - rewrite map_app. simpl. apply List.NoDup_app; [exact Hnd | | ].
    + apply List.NoDup_cons; [simpl; tauto | constructor].
    + intros x Hx [<- | []]. apply in_map_iff in Hx as (tk & E & Hin).
      rewrite List.Forall_forall in Hlt. specialize (Hlt tk Hin). lia.
  - apply Forall_app. split.
    + eapply Forall_impl; [exact Hlt |]. simpl. intros. lia.
    + constructor; [simpl; lia | constructor].
Qed.

Lemma try_block_tasks cfg a id old new ts w :
  tasks (snd (try_block cfg a id old new ts w)) = tasks w
  /\ nextTask (snd (try_block cfg a id old new ts w)) = nextTask w.
Proof. unfold try_block. repeat break_match; split; reflexivity. Qed.

Lemma catch_block_tasks id e old new ts w :
  tasks (snd (catch_block id e old new ts w)) = tasks w
  /\ nextTask (snd (catch_block id e old new ts w)) = nextTask w.
Proof. unfold catch_block. repeat break_match; split; reflexivity. Qed.

Lemma try_block_tracker_sub cfg a id old new ts w x :
  x ∈ executingActions (engine (snd (try_block cfg a id old new ts w))) ->
  x = id \/ x ∈ executingActions (engine w).
Proof.
  unfold try_block. repeat break_match; simpl; auto;
    rewrite elem_of_union, elem_of_singleton; tauto.
Qed.

Lemma backed_spawn_finished uid id old new ts r w w1 :
  tasks w1 = tasks w ->
  (forall x, x ∈ executingActions (engine w1) -> x ∈ executingActions (engine w)) ->
  tracker_backed w ->
  tracker_backed (spawn uid id old new ts (Finished r) w1).
Proof.
  intros Et Hsub Hb x Hx. simpl in Hx.
  destruct (Hb x (Hsub x Hx)) as (tk & Hin & Ha).
  exists tk. split; [| exact Ha]. simpl. rewrite Et. apply in_app_iff. auto.
Qed.

Lemma processAction_backed uid a old new ts w :
  tasks_wf w -> tracker_backed w ->
  tasks_wf (processAction uid a old new ts w)
  /\ tracker_backed (processAction uid a old new ts w).
Proof.
  intros Hwf Hb. unfold processAction.
  destruct (config (engine w)) as [cfg |].
  2:{ split; [apply spawn_tasks_wf, Hwf |].
      apply (backed_spawn_finished _ _ _ _ _ _ w); auto. }
  destruct (negb (truthy old)).
  { split; [apply spawn_tasks_wf, Hwf |].
    apply (backed_spawn_finished _ _ _ _ _ _ w); auto. }
  pose proof (try_block_tasks cfg a (id_of a) old new ts w) as [Et En].
  pose proof (try_block_tracker_sub cfg a (id_of a) old new ts w) as Hsub.
  destruct (try_block cfg a (id_of a) old new ts w) as [[| e | fate] w1]; simpl in *.
  - split.
    + apply spawn_tasks_wf. unfold tasks_wf. simpl. rewrite Et, En. exact Hwf.
    + apply (backed_spawn_finished _ _ _ _ _ _ w); [exact Et | | exact Hb].
      simpl. intros x Hx. apply elem_of_difference in Hx as [Hx Hne].
      rewrite elem_of_singleton in Hne. destruct (Hsub x Hx); [contradiction | auto].
  - pose proof (catch_block_tasks (id_of a) e old new ts w1) as [Et2 En2].
    pose proof (catch_block_engine (id_of a) e old new ts w1) as Ee.
    destruct (catch_block (id_of a) e old new ts w1) as [r w2]. simpl in *.
    split.
    + apply spawn_tasks_wf. unfold tasks_wf. simpl. rewrite Et2, En2, Et, En. exact Hwf.
    + apply (backed_spawn_finished _ _ _ _ _ _ w); [simpl; congruence | | exact Hb].
      simpl. rewrite Ee. intros x Hx. apply elem_of_difference in Hx as [Hx Hne].
      rewrite elem_of_singleton in Hne. destruct (Hsub x Hx); [contradiction | auto].
  - split.
    + apply spawn_tasks_wf. unfold tasks_wf. rewrite Et, En. exact Hwf.
    + intros x Hx. simpl in Hx. destruct (Hsub x Hx) as [-> | Hx'].
      * eexists. split; [simpl; apply in_app_iff; right; left; reflexivity |].
        split; reflexivity.
      * destruct (Hb x Hx') as (tk & Hin & Ha).
        exists tk. split; [simpl; rewrite Et; apply in_app_iff; auto | exact Ha].
Qed.

Lemma fold_processAction_backed uid old new ts
    (l : list (string * ReactiveAction)) : forall w,
  tasks_wf w -> tracker_backed w ->
  tasks_wf (fold_left (fun w ka => processAction uid (snd ka) old new ts w) l w)
  /\ tracker_backed (fold_left (fun w ka => processAction uid (snd ka) old new ts w) l w).
Proof.
  induction l as [| ka l IH]; intros w H1 H2; simpl; [auto |].
  destruct (processAction_backed uid (snd ka) old new ts w H1 H2) as [H3 H4].
  apply IH; assumption.
Qed.

Lemma find_task_In tid l tk :
  find_task tid l = Some tk -> In tk l /\ tk_id tk = tid.
Proof.
  unfold find_task. intros H. apply List.find_some in H as [Hin E].
  apply Nat.eqb_eq in E. auto.
Qed.

Lemma replace_task_ids tk l : map tk_id (replace_task tk l) = map tk_id l.
Proof.
  unfold replace_task. rewrite map_map. apply map_ext_in. intros t _.
  destruct (tk_id t =? tk_id tk) eqn:E; [apply Nat.eqb_eq in E; auto | reflexivity].
Qed.

Lemma settle_backed tid w :
  tasks_wf w -> tracker_backed w ->
  tasks_wf (settle tid w) /\ tracker_backed (settle tid w).
Proof.
  intros Hwf Hb. unfold settle.
  destruct (find_task tid (tasks w)) as [tk |] eqn:Ef; [| auto].
  destruct (tk_state tk) as [fate | r] eqn:Es; [| auto].
  apply find_task_In in Ef as [Hin Hid].
  set (w1 := observe [ObsSettled tid (tk_action tk) fate] w).
  assert (Hc : exists r w2,
            match fate with
            | Normal _ => (Normal tt, w1)
            | Throw e => catch_block (tk_action tk) e (tk_old tk) (tk_new tk) (tk_ts tk) w1
            end = (r, w2)
            /\ tasks w2 = tasks w /\ nextTask w2 = nextTask w /\ engine w2 = engine w).
  { destruct fate as [u | e].
    - exists (Normal tt), w1. auto.
    - pose proof (catch_block_tasks (tk_action tk) e (tk_old tk) (tk_new tk) (tk_ts tk) w1)
        as [E1 E2].
      pose proof (catch_block_engine (tk_action tk) e (tk_old tk) (tk_new tk) (tk_ts tk) w1)
        as E3.
      destruct (catch_block (tk_action tk) e (tk_old tk) (tk_new tk) (tk_ts tk) w1)
        as [r w2].
      exists r, w2. auto. }
  destruct Hc as (r & w2 & -> & Et & En & Ee).
  destruct Hwf as [Hnd Hlt]. split.
  - unfold tasks_wf. simpl. rewrite Et, En, replace_task_ids. split; [exact Hnd |].
    unfold replace_task. rewrite List.Forall_forall. intros t Ht.
    apply in_map_iff in Ht as (t0 & <- & Ht0).
    rewrite List.Forall_forall in Hlt.
    change (tk_id (finish_task tk r)) with (tk_id tk).
    destruct (tk_id t0 =? tk_id tk); [exact (Hlt tk Hin) | exact (Hlt t0 Ht0)].
  - intros x Hx. simpl in Hx. rewrite Ee in Hx.
    apply elem_of_difference in Hx as [Hx Hne]. rewrite elem_of_singleton in Hne.
    destruct (Hb x Hx) as (tk' & Hin' & Ha' & Hd').
    exists tk'. split; [| split; assumption].
    simpl. rewrite Et. unfold replace_task. apply in_map_iff. exists tk'.
    split; [| exact Hin'].
    change (tk_id (finish_task tk r)) with (tk_id tk).
    destruct (tk_id tk' =? tk_id tk) eqn:E; [| reflexivity].
    apply Nat.eqb_eq in E.
    pose proof (NoDup_map_inj tk_id (tasks w) tk' tk Hnd Hin' Hin E) as E2.
    subst tk'. congruence.
Qed.

Lemma addAction_tasks a w :
  tasks (snd (addAction a w)) = tasks w
  /\ nextTask (snd (addAction a w)) = nextTask w.
Proof.
  unfold addAction. destruct (usable_id (act_id a)); simpl;
    break_match; split; reflexivity.
Qed.

Lemma addAction_backed a w :
  tasks_wf w -> tracker_backed w ->
  tasks_wf (snd (addAction a w)) /\ tracker_backed (snd (addAction a w)).
Proof.
  intros Hwf Hb. destruct (addAction_tasks a w) as [Et En].
  split; [unfold tasks_wf; rewrite Et, En; exact Hwf |].
  intros x Hx. rewrite addAction_engine in Hx. simpl in Hx.
  destruct (Hb x Hx) as (tk & Hin & Ha). exists tk. rewrite Et. auto.
Qed.

Lemma step_backed w ev :
  tasks_wf w -> tracker_backed w ->
  tasks_wf (step w ev) /\ tracker_backed (step w ev).
Proof.
  intros Hwf Hb. destruct ev as [cfg | s | a | id | | tid | T]; simpl.
  - unfold configure. destruct (isDestroyed (engine w)); [auto |].
    rewrite forEach_addAction_fold.
    assert (H1 : tasks_wf (install_config cfg w)) by exact Hwf.
    assert (H2 : tracker_backed (install_config cfg w)) by exact Hb.
    revert H1 H2. generalize (install_config cfg w).
    induction (cfg_actions cfg) as [| a l IH]; intros w1 H1 H2; simpl; [auto |].
    destruct (addAction_backed a w1 H1 H2). apply IH; assumption.
  - unfold updateState.
    destruct (isDestroyed (engine w)); [auto |].
    destruct (config (engine w)); [| auto]. cbn [snd].
    apply fold_processAction_backed; [exact Hwf | exact Hb].
  - apply addAction_backed; assumption.
  - split; [exact Hwf | exact Hb].
  - split; [exact Hwf |]. intros x Hx. simpl in Hx.
    apply not_elem_of_empty in Hx. destruct Hx.
  - apply settle_backed; assumption.
  - split; [exact Hwf | exact Hb].
Qed.

(** X9: in every state an engine can reach, each id in the execution
    tracker belongs to an action with an execution still suspended at its
    [await]; so once every execution has settled the tracker is empty and
    no [preventDefault] action stays locked out. *)
Theorem tracked_ids_have_pending_executions
    (ent : nat -> string) (t0 : Z) (evs : list Event) :
  let w := run evs (world0 ent t0) in
  (forall id, is_executing id w = true -> awaiting id w <> [])
  /\ (Forall (fun tk => task_done tk = true) (tasks w) ->
      executingActions (engine w) = ∅).
Proof.
  cbv zeta.
  assert (G : forall w, tasks_wf w -> tracker_backed w ->
                        tracker_backed (run evs w)).
  { induction evs as [| ev evs IH]; intros w H1 H2; simpl; [exact H2 |].
    destruct (step_backed w ev H1 H2). apply IH; assumption. }
  assert (Hb : tracker_backed (run evs (world0 ent t0))).
  { apply G.
    - split; constructor.
    - intros x Hx. simpl in Hx. apply not_elem_of_empty in Hx. destruct Hx. }
  split.
  - intros id Hx. unfold is_executing in Hx. apply bool_decide_eq_true in Hx.
    destruct (Hb id Hx) as (tk & Hin & Ha & Hd).
    intros E. assert (Hf : In tk (awaiting id (run evs (world0 ent t0)))).
    { unfold awaiting. apply List.filter_In. split; [exact Hin |].
      rewrite Ha, Hd, String.eqb_refl. reflexivity. }
    rewrite E in Hf. destruct Hf.
  - intros Hall. apply elem_of_equiv_empty_L. intros x Hx.
    destruct (Hb x Hx) as (tk & Hin & Ha & Hd).
    rewrite List.Forall_forall in Hall.
    specialize (Hall tk Hin). simpl in Hall. congruence.
Qed.

(** ** What the re-entry guard does guarantee *)

Lemma executions_observe x tr w :
  executions x (observe tr w)
  = executions x w
    ++ omap (fun o => match o with
                      | ObsExecute i ctx _ => if String.eqb i x then Some ctx else None
                      | _ => None
                      end) tr.
Proof. unfold executions. simpl. apply omap_app. Qed.

Lemma every_executions x id ctx conds :
  omap (fun o => match o with
                 | ObsExecute i c _ => if String.eqb i x then Some c else None
                 | _ => None
                 end) (snd (every id conds ctx)) = [].
Proof.
  induction conds as [| c cs IH]; simpl; [reflexivity |].
  destruct (c ctx) as [[|] | e]; simpl; try reflexivity.
  destruct (every id cs ctx) as [r tr]. simpl in *. exact IH.
Qed.

Lemma catch_block_executions x id e old new ts w :
  executions x (snd (catch_block id e old new ts w)) = executions x w.
Proof.
  unfold catch_block. repeat break_match; simpl; try reflexivity.
  rewrite executions_observe. simpl. apply app_nil_r.
Qed.

(** The [try] block invokes [execute] only for its own action, and not at
    all when the action has [preventDefault] and its id is tracked. *)
Lemma try_block_executions cfg a id old new ts w x :
  x <> id \/ (is_true (act_preventDefault a) = true /\ is_executing id w = true) ->
  executions x (snd (try_block cfg a id old new ts w)) = executions x w.
Proof.
  intros Hx. unfold try_block.
  destruct (act_trigger a old new ts) as [[|] | e]; cbn [snd];
    try (rewrite executions_observe; simpl; apply app_nil_r).
  set (ctx := mkContext cfg id old new ts).
  assert (Hc : exists r trc,
             match act_conditions a with
             | Some conds => every id conds ctx
             | None => (Normal true, [])
             end = (r, trc)
             /\ omap (fun o => match o with
                               | ObsExecute i c _ => if String.eqb i x then Some c else None
                               | _ => None
                               end) trc = []).
  { destruct (act_conditions a) as [conds |].
    - pose proof (every_executions x id ctx conds) as H.
      destruct (every id conds ctx) as [r trc]. exists r, trc. auto.
    - exists (Normal true), []. auto. }
  destruct Hc as (r & trc & -> & Hn).
  assert (Hpre : executions x (observe trc (observe
                   [ObsTrigger id old new ts (Normal true)] w)) = executions x w).
  { rewrite !executions_observe, Hn. simpl. rewrite !app_nil_r. reflexivity. }
  destruct r as [[|] | e]; cbn match; cbn [snd]; try exact Hpre.
  match goal with |- context [is_executing id ?w2] =>
    change (is_executing id w2) with (is_executing id w) end.
  destruct (is_true (act_preventDefault a) && is_executing id w) eqn:Hg;
    cbn [snd]; [exact Hpre |].
  destruct Hx as [Hne | [H1 H2]]; [| rewrite H1, H2 in Hg; discriminate].
  match goal with |- context [call ?f ?c ?h] => destruct (call f c h) as [res h'] end.
  assert (E : String.eqb id x = false) by (apply String.eqb_neq; congruence).
  destruct res; cbn [snd]; rewrite executions_observe; simpl; rewrite E, app_nil_r;
    exact Hpre.
Qed.

Lemma processAction_executions uid a old new ts w x :
  x <> id_of a
  \/ (is_true (act_preventDefault a) = true /\ is_executing (id_of a) w = true) ->
  executions x (processAction uid a old new ts w) = executions x w.
Proof.
  intros Hx. unfold processAction.
  destruct (config (engine w)) as [cfg |]; [| reflexivity].
  destruct (negb (truthy old)); [reflexivity |].
  pose proof (try_block_executions cfg a (id_of a) old new ts w x Hx) as Ht.
  destruct (try_block cfg a (id_of a) old new ts w) as [[| e | fate] w1];
    cbn [snd] in Ht; try exact Ht.
  pose proof (catch_block_executions x (id_of a) e old new ts w1) as Hc.
  destruct (catch_block (id_of a) e old new ts w1) as [r w2]. cbn [snd] in Hc.
  unfold executions in *. simpl. rewrite Hc. exact Ht.
Qed.

Lemma fold_processAction_executions_other uid old new ts x
    (l : list (string * ReactiveAction)) : forall w,
  Forall (fun ka => x <> id_of (snd ka)) l ->
  executions x (fold_left (fun w ka => processAction uid (snd ka) old new ts w) l w)
  = executions x w.
Proof.
  induction l as [| ka l IH]; intros w HF; simpl; [reflexivity |].
  apply Forall_cons_1 in HF as [H1 H2].
  rewrite (IH _ H2). apply processAction_executions. auto.
Qed.

Lemma fold_processAction_guarded uid old new ts id a
    (l : list (string * ReactiveAction)) : forall w,
  wf_actions l -> In (id, a) l ->
  is_true (act_preventDefault a) = true -> is_executing id w = true ->
  executions id (fold_left (fun w ka => processAction uid (snd ka) old new ts w) l w)
  = executions id w.
Proof.
  induction l as [| [k b] l IH]; intros w [Hnd Hid] Hin Hpd Hex; [destruct Hin |].
  simpl in Hnd. apply List.NoDup_cons_iff in Hnd as [Hnin Hnd].
  apply Forall_cons_1 in Hid as [Hk Hid]. simpl in Hk.
  assert (Hidb : id_of b = k) by (unfold id_of; rewrite Hk; reflexivity).
  simpl fold_left.
  destruct Hin as [[= <- <-] | Hin].
  - rewrite fold_processAction_executions_other.
    + apply processAction_executions. right. rewrite Hidb. auto.
    + rewrite List.Forall_forall. intros [k' b'] Hin'. simpl.
      rewrite List.Forall_forall in Hid. specialize (Hid _ Hin'). simpl in Hid.
      unfold id_of. rewrite Hid. intros <-. apply Hnin.
      apply in_map_iff. exists (k, b'). auto.
  - assert (Hne : id <> id_of b).
    { rewrite Hidb. intros ->. apply Hnin. apply in_map_iff. exists (k, a). auto. }
    rewrite IH; auto.
    + apply processAction_executions. auto.
    + split; assumption.
    + rewrite processAction_tracker_other; auto.
Qed.

(** X10: what the re-entry guard does guarantee.  On every reachable
    engine, an update that arrives while the id of a registered action with
    [preventDefault] is in the tracker does not invoke that action's
    [execute], whatever its trigger and conditions say and whatever the
    other actions do. *)
Theorem tracked_preventDefault_action_is_not_executed
    (ent : nat -> string) (t0 : Z) (evs : list Event) (s : JSValue)
    (id : string) (a : ReactiveAction) :
  let w := run evs (world0 ent t0) in
  In (id, a) (actions (engine w)) ->
  is_true (act_preventDefault a) = true ->
  is_executing id w = true ->
  executions id (snd (updateState s w)) = executions id w.
Proof.
  intros w Hin Hpd Hex.
  assert (Hwf : wf_actions (actions (engine w))).
  { apply run_wf. split; constructor. }
  unfold updateState.
  destruct (isDestroyed (engine w)); [reflexivity |].
  destruct (config (engine w)); [| reflexivity]. cbn [snd].
  match goal with |- context [fold_left _ _ ?x] => set (w1 := x) end.
  change (executions id w) with (executions id w1).
  apply (fold_processAction_guarded _ _ _ _ id a); auto.
Qed.

Lemma tracked_preventDefault_action_is_not_executed_witness :
  let w := run [EConfigure (sample_config (JNum 1) [guarded_action] None);
                EUpdate (JNum 2)] (world0 sample_entropy 0) in
  executions "a" (snd (updateState (JNum 3) w)) = executions "a" w.
Proof.
  exact (tracked_preventDefault_action_is_not_executed sample_entropy 0
           [EConfigure (sample_config (JNum 1) [guarded_action] None); EUpdate (JNum 2)]
           (JNum 3) "a" (with_id "a" guarded_action)
           ltac:(left; reflexivity) eq_refl eq_refl).
Defined.

(** ** Failures never escape [processAction] unless [onError] throws *)

Lemma catch_block_returns id e old new ts w cfg :
  config (engine w) = Some cfg -> handler_returns cfg ->
  task_rejected {| tk_id := 0; tk_update := 0; tk_action := id; tk_old := old;
                   tk_new := new; tk_ts := ts;
                   tk_state := Finished (fst (catch_block id e old new ts w)) |}
  = false.
Proof.
  intros Hc Hh. unfold catch_block, handler_returns in *. rewrite Hc.
  destruct (cfg_onError cfg) as [h |]; [| reflexivity].
  simpl. destruct (Hh e (mkContext cfg id old new ts)) as [u ->]. reflexivity.
Qed.

Lemma processAction_no_rejection uid a old new ts w cfg :
  config (engine w) = Some cfg -> handler_returns cfg ->
  forallb (fun tk => negb (task_rejected tk)) (tasks w) = true ->
  forallb (fun tk => negb (task_rejected tk))
          (tasks (processAction uid a old new ts w)) = true.
Proof.
  intros Hc Hh Hall. unfold processAction. rewrite Hc.
  destruct (negb (truthy old)).
  { simpl. rewrite forallb_app, Hall. reflexivity. }
  pose proof (try_block_tasks cfg a (id_of a) old new ts w) as [Et _].
  pose proof (static_config _ _ (try_block_static cfg a (id_of a) old new ts w)) as Hcfg.
  destruct (try_block cfg a (id_of a) old new ts w) as [[| e | fate] w1]; simpl in *.
  - rewrite Et, forallb_app, Hall. reflexivity.
  - rewrite Hc in Hcfg.
    pose proof (catch_block_returns (id_of a) e old new ts w1 cfg Hcfg Hh) as Hr.
    pose proof (catch_block_tasks (id_of a) e old new ts w1) as [Et2 _].
    destruct (catch_block (id_of a) e old new ts w1) as [r w2]. simpl in *.
    rewrite Et2, Et, forallb_app, Hall. simpl.
    unfold task_rejected in *. simpl in *. rewrite Hr. reflexivity.
  - rewrite Et, forallb_app, Hall. reflexivity.
Qed.

Lemma settle_no_rejection tid w cfg :
  config (engine w) = Some cfg -> handler_returns cfg ->
  forallb (fun tk => negb (task_rejected tk)) (tasks w) = true ->
  forallb (fun tk => negb (task_rejected tk)) (tasks (settle tid w)) = true.
Proof.
  intros Hc Hh Hall. unfold settle.
  destruct (find_task tid (tasks w)) as [tk |]; [| exact Hall].
  destruct (tk_state tk) as [fate | r0]; [| exact Hall].
  set (w1 := observe [ObsSettled tid (tk_action tk) fate] w).
  assert (Hr : exists r w2,
            match fate with
            | Normal _ => (Normal tt, w1)
            | Throw e => catch_block (tk_action tk) e (tk_old tk) (tk_new tk) (tk_ts tk) w1
            end = (r, w2)
            /\ tasks w2 = tasks w
            /\ match r with Throw _ => False | Normal _ => True end).
  { destruct fate as [u | e].
    - exists (Normal tt), w1. auto.
    - pose proof (catch_block_returns (tk_action tk) e (tk_old tk) (tk_new tk)
                    (tk_ts tk) w1 cfg Hc Hh) as H.
      pose proof (catch_block_tasks (tk_action tk) e (tk_old tk) (tk_new tk)
                    (tk_ts tk) w1) as [Et _].
      destruct (catch_block (tk_action tk) e (tk_old tk) (tk_new tk) (tk_ts tk) w1)
        as [r w2].
      exists r, w2. split; [reflexivity |]. split; [exact Et |].
      unfold task_rejected in H. simpl in H. destruct r; [exact I | discriminate]. }
  destruct Hr as (r & w2 & -> & Et & Hn). simpl. rewrite Et.
  unfold replace_task. rewrite forallb_forall. intros t Ht.
  apply in_map_iff in Ht as (t' & <- & Ht').
  rewrite forallb_forall in Hall.
  destruct (tk_id t' =? _); [| apply Hall, Ht'].
  unfold task_rejected. simpl. destruct r; [reflexivity | destruct Hn].
Qed.

Lemma step_keeps_config w ev cfg :
  config (engine w) = Some cfg -> keeps_config ev = true ->
  config (engine (step w ev)) = Some cfg.
Proof.
  intros Hc Hk.
  destruct ev as [cfg' | s | a | id | | tid | T]; try discriminate; simpl.
  - unfold updateState. rewrite Hc.
    destruct (isDestroyed (engine w)); cbn [snd]; [exact Hc |].
    match goal with |- config (engine (fold_left _ ?l ?w1)) = _ =>
      rewrite (static_config _ _ (fold_processAction_static _ _ _ _ l w1))
    end.
    reflexivity.
  - rewrite <- Hc. exact (f_equal config (addAction_sans_actions a w)).
  - exact Hc.
  - rewrite (static_config _ _ (settle_static tid w)). exact Hc.
  - exact Hc.
Qed.

Lemma fold_processAction_no_rejection uid old new ts cfg
    (l : list (string * ReactiveAction)) : forall w,
  config (engine w) = Some cfg -> handler_returns cfg ->
  forallb (fun tk => negb (task_rejected tk)) (tasks w) = true ->
  forallb (fun tk => negb (task_rejected tk))
          (tasks (fold_left (fun w ka => processAction uid (snd ka) old new ts w) l w))
  = true.
Proof.
  induction l as [| ka l IH]; intros w Hc Hh Hall; simpl; [exact Hall |].
  apply IH; [| exact Hh |].
  - rewrite (static_config _ _ (processAction_static uid (snd ka) old new ts w)).
    exact Hc.
  - eapply processAction_no_rejection; eassumption.
Qed.

Lemma step_no_rejection w ev cfg :
  config (engine w) = Some cfg -> handler_returns cfg -> keeps_config ev = true ->
  forallb (fun tk => negb (task_rejected tk)) (tasks w) = true ->
  forallb (fun tk => negb (task_rejected tk)) (tasks (step w ev)) = true.
Proof.
  intros Hc Hh Hk Hall.
  destruct ev as [cfg' | s | a | id | | tid | T]; try discriminate; simpl.
  - unfold updateState. rewrite Hc.
    destruct (isDestroyed (engine w)); cbn [snd]; [exact Hall |].
    eapply fold_processAction_no_rejection; [reflexivity | exact Hh | exact Hall].
  - rewrite (proj1 (addAction_tasks a w)). exact Hall.
  - exact Hall.
  - eapply settle_no_rejection; eassumption.
  - exact Hall.
Qed.

(** X11: a failure inside [processAction] never propagates: on an engine
    whose configuration has no [onError] callback, or one that returns
    normally, no [processAction] promise is ever rejected, over every
    sequence of updates, settlements, timer firings and
    [addAction]/[removeAction] calls.  (A rejected promise needs an [onError]
    callback that itself throws.) *)
Theorem processAction_promises_reject_only_if_onError_throws
    (evs : list Event) (w : World) (cfg : ReactiveConfig) :
  config (engine w) = Some cfg -> handler_returns cfg ->
  forallb keeps_config evs = true ->
  forallb (fun tk => negb (task_rejected tk)) (tasks w) = true ->
  forallb (fun tk => negb (task_rejected tk)) (tasks (run evs w)) = true.
Proof.
  revert w. induction evs as [| ev evs IH]; intros w Hc Hh Hk Hall; simpl; [exact Hall |].
  simpl in Hk. apply andb_true_iff in Hk as [Hk1 Hk2].
  apply IH; [| exact Hh | exact Hk2 |].
  - exact (step_keeps_config w ev cfg Hc Hk1).
  - eapply step_no_rejection; eassumption.
Qed.

Lemma processAction_promises_reject_only_if_onError_throws_witness :
  let w := snd (configure (sample_config (JNum 1) [plain_action "bad" always throws] None)
                          (world0 sample_entropy 0)) in
  forallb (fun tk => negb (task_rejected tk))
          (tasks (run [EUpdate (JNum 2); EUpdate (JNum 3)] w)) = true.
Proof.
  intros w.
  exact (processAction_promises_reject_only_if_onError_throws
           [EUpdate (JNum 2); EUpdate (JNum 3)] w
           (sample_config (JNum 1) [plain_action "bad" always throws] None)
           eq_refl I eq_refl eq_refl).
Defined.

(** With an [onError] callback that throws, the promise is rejected. *)
Lemma throwing_onError_rejects_the_promise :
  let w := snd (configure (sample_config (JNum 1) [plain_action "bad" always throws]
                                         (Some throwing_handler))
                          (world0 sample_entropy 0)) in
  map tk_state (tasks (run [EUpdate (JNum 2)] w)) = [Finished (Throw "handler failed")].
Proof. vm_compute. reflexivity. Qed.

(** * Further properties of debounce and throttle *)

Section ThrottleThrowing.
Context {A : Type} (fn : A -> CallResult) (l : Z) (c : nat).
Hypothesis fn_throws : forall a, exists e, fn a = Threw e.
Implicit Types (h : Host A).

Lemma throttle_call_throwing h a :
  throttle_state c None h ->
  fst (call (FThrottle c (FUser fn) l) a h) = fn a
  /\ throttle_state c None (snd (call (FThrottle c (FUser fn) l) a h))
  /\ calls (snd (call (FThrottle c (FUser fn) l) a h)) = calls h ++ [(a, fn a)]
  /\ now (snd (call (FThrottle c (FUser fn) l) a h)) = now h.
Proof.
  intros [E Hi]. simpl. rewrite Hi. destruct (fn_throws a) as [e ->]. simpl.
  repeat split; assumption.
Qed.

Lemma play_throttle_throwing sched : forall h,
  throttle_state c None h -> chrono (now h) sched ->
  args_run (play (FThrottle c (FUser fn) l) sched h) = args_run h ++ map snd sched
  /\ timers (play (FThrottle c (FUser fn) l) sched h) = [].
Proof.
  induction sched as [| [t a] rest IH]; intros h Hs Hc.
  - simpl. rewrite app_nil_r. split; [reflexivity | apply Hs].
  - rewrite play_cons. cbn [fst snd]. destruct Hc as [Ht Hc]. simpl in Ht, Hc.
    destruct (throttle_advance_idle c h t Hs Ht) as (Hn & Hcalls & Hs1).
    set (h1 := advance t h) in *.
    destruct (throttle_call_throwing h1 a Hs1) as (_ & Hs2 & Hcalls2 & Hn2).
    set (h2 := snd (call (FThrottle c (FUser fn) l) a h1)) in *.
    destruct (IH h2 Hs2) as [IH1 IH2]; [rewrite Hn2, Hn; exact Hc |].
    split; [| exact IH2].
    rewrite IH1. unfold args_run. rewrite Hcalls2, Hcalls, map_app. simpl.
    rewrite <- app_assoc. reflexivity.
Qed.
End ThrottleThrowing.

(** X12: a throttled function whose body always throws is not rate
    limited at all: every call runs the body and hands the exception to the
    caller, and no cooldown timer is ever set. *)
Theorem throttle_never_limits_a_throwing_function
    {A : Type} (fn : A -> CallResult) (l t0 : Z) (sched : list (Z * A)) :
  (forall a, exists e, fn a = Threw e) -> chrono t0 sched ->
  let f := fst (throttle (FUser fn) l (host0 t0)) in
  let h := snd (throttle (FUser fn) l (host0 t0)) in
  args_run (play f sched h) = map snd sched
  /\ timers (play f sched h) = []
  /\ (forall a, fst (call f a h) = fn a).
Proof.
  intros Hfn Hc f h.
  assert (Hs : throttle_state 0 None h) by (split; reflexivity).
  destruct (play_throttle_throwing fn l 0 Hfn sched h Hs Hc) as [H1 H2].
  split; [exact H1 |]. split; [exact H2 |].
  intros a. exact (proj1 (throttle_call_throwing fn l 0 Hfn h a Hs)).
Qed.

Lemma throttle_never_limits_a_throwing_function_witness :
  args_run (play (fst (throttle (FUser throwing_fn) 100 (host0 0))) burst
                 (snd (throttle (FUser throwing_fn) 100 (host0 0))))
  = map snd burst.
Proof.
  refine (proj1 (throttle_never_limits_a_throwing_function throwing_fn 100 0 burst _ _)).
  - intros a. exists "boom". reflexivity.
  - simpl. intuition lia.
Defined.

Section DebounceTimers.
Context {A : Type} (fn : A -> CallResult) (d : Z) (c : nat).
Implicit Types (h : Host A).

Lemma last_cons {X : Type} (x y : X) (l : list X) :
  List.last (x :: l) y = List.last l x.
Proof.
  revert x y. induction l as [| z l IH]; intros x y; [reflexivity |].
  change (List.last (x :: z :: l) y) with (List.last (z :: l) y).
  rewrite (IH z y), (IH z x). reflexivity.
Qed.

Lemma play_debounce_last rest : forall h k t a,
  pending_debounce fn c k (t + timer_delay d) a h -> now h = t -> chrono t rest ->
  exists k',
    pending_debounce fn c k'
      (fst (List.last rest (t, a)) + timer_delay d) (snd (List.last rest (t, a)))
      (play (FDebounce c (FUser fn) d) rest h).
Proof.
  induction rest as [| [t' a'] rest IH]; intros h k t a Hp Hn Hc.
  - exists k. exact Hp.
  - rewrite play_cons. cbn [fst snd]. destruct Hc as [Htt' Hc]. simpl in Htt'.
    destruct (debounce_advance fn c h k _ a t' Hp ltac:(lia)) as [Hnow H].
    set (h1 := advance t' h) in *.
    assert (Hq : quiet_or_pending fn c h1).
    { destruct (t + timer_delay d <=? t')%Z.
      - left. apply H.
      - right. exists k, (t + timer_delay d)%Z, a. apply H. }
    destruct (debounce_call_resets fn d c h1 a' Hq) as (Hp2 & _ & Hnow2).
    set (h2 := snd (call (FDebounce c (FUser fn) d) a' h1)) in *.
    rewrite Hnow in Hp2.
    destruct (IH h2 _ t' a' Hp2 ltac:(lia) Hc) as [k' Hk'].
    exists k'. rewrite last_cons. exact Hk'.
Qed.
End DebounceTimers.

(** X13: a debounced function never accumulates timers.  For a delay [d]
    that a timer honours, from 1 to [2^31 - 1] milliseconds, after any
    non-empty schedule of calls exactly one timer is pending: the one of the
    last call, due [d] milliseconds after it and carrying its arguments;
    every earlier timer was cancelled or has fired. *)
Theorem debounce_keeps_one_timer_for_the_last_call
    {A : Type} (fn : A -> CallResult) (d t0 : Z) (sched : list (Z * A)) (t : Z) (a : A) :
  (0 < d <= TIMEOUT_MAX)%Z ->
  chrono t0 (sched ++ [(t, a)]) ->
  let f := fst (debounce (FUser fn) d (host0 t0)) in
  let h := snd (debounce (FUser fn) d (host0 t0)) in
  exists k,
    timers (play f (sched ++ [(t, a)]) h)
    = [ {| tm_id := k; tm_due := (t + d)%Z;
           tm_callback := DebounceFire (FUser fn) a |} ].
Proof.
  intros Hd Hc f h.
  assert (G : exists k', pending_debounce fn 0 k'
                (fst (List.last (sched ++ [(t, a)]) (t0, a)) + timer_delay d)
                (snd (List.last (sched ++ [(t, a)]) (t0, a)))
                (play f (sched ++ [(t, a)]) h)).
  { destruct (sched ++ [(t, a)]) as [| [t1 a1] rest] eqn:E.
    - destruct sched; discriminate.
    - rewrite play_cons. cbn [fst snd]. destruct Hc as [Ht Hc]. simpl in Ht.
      rewrite (advance_no_timers t1 h eq_refl).
      set (h1 := set_now (Z.max (now h) t1) h).
      assert (Hq : quiet_or_pending fn 0 h1) by (left; reflexivity).
      destruct (debounce_call_resets fn d 0 h1 a1 Hq) as (Hp2 & _ & Hnow2).
      assert (Hn1 : now h1 = t1) by (simpl; lia).
      rewrite Hn1 in Hp2.
      destruct (play_debounce_last fn d 0 rest _ _ t1 a1 Hp2 ltac:(lia) Hc) as [k' Hk'].
      exists k'. rewrite last_cons. exact Hk'. }
  destruct G as [k' [Hk' _]]. rewrite List.last_last in Hk'.
  rewrite (timer_delay_in_range d) in Hk' by lia. exists k'. exact Hk'.
Qed.

Lemma debounce_keeps_one_timer_for_the_last_call_witness :
  exists k,
    timers (play (fst (debounce (FUser returning_fn) 100 (host0 0))) burst
                 (snd (debounce (FUser returning_fn) 100 (host0 0))))
    = [ {| tm_id := k; tm_due := 150%Z;
           tm_callback := DebounceFire (FUser returning_fn) 5 |} ].
Proof.
  exact (debounce_keeps_one_timer_for_the_last_call returning_fn 100 0
           [(0%Z, 1); (10%Z, 2); (20%Z, 3); (30%Z, 4)] 50 5
           ltac:(unfold TIMEOUT_MAX; lia) ltac:(simpl; intuition lia)).
Defined.

(** * Properties of the comparison utilities *)

(** Induction on data, with the hypothesis for every element and field. *)
Lemma Data_nested_ind (P : Data -> Prop) :
  P DUndefined -> P DNull -> (forall b, P (DBool b)) -> (forall n, P (DNum n)) ->
  (forall s, P (DStr s)) -> (forall t, P (DDate t)) ->
  (forall xs, List.Forall P xs -> P (DArr xs)) ->
  (forall fs, List.Forall (fun kv => P (snd kv)) fs -> P (DObj fs)) ->
  forall d, P d.
Proof.
  intros HU HN HB HZ HS HD HA HO.
  refine (fix IH (d : Data) : P d :=
            match d with
            | DUndefined => HU
            | DNull => HN
            | DBool b => HB b
            | DNum n => HZ n
            | DStr s => HS s
            | DDate t => HD t
            | DArr xs =>
                HA xs ((fix go (xs : list Data) : List.Forall P xs :=
                          match xs with
                          | [] => @List.Forall_nil _ _
                          | x :: xs' => @List.Forall_cons _ _ x xs' (IH x) (go xs')
                          end) xs)
            | DObj fs =>
                HO fs ((fix go (fs : list (string * Data))
                          : List.Forall (fun kv => P (snd kv)) fs :=
                          match fs with
                          | [] => @List.Forall_nil _ _
                          | kv :: fs' =>
                              @List.Forall_cons _ _ kv fs' (IH (snd kv)) (go fs')
                          end) fs)
            end).
Qed.

(** ** [deepEqual] by cases *)

Lemma deepEqual_arrays xs ys :
  deepEqual (DArr xs) (DArr ys)
  = (length xs =? length ys) && each_index (DArr ys) xs 0.
Proof.
  cbn [deepEqual same_value nullish typeof typeof_eqb isArray key_count orb negb Bool.eqb].
  destruct (length xs =? length ys); cbn [negb andb]; [| reflexivity].
  generalize 0. induction xs as [| x xs IH]; intros i; [reflexivity |].
  cbn [each_index]. destruct (get_index (DArr ys) i); [| reflexivity].
  destruct (deepEqual x d); [apply IH | reflexivity].
Qed.

Lemma deepEqual_objects fa fb :
  deepEqual (DObj fa) (DObj fb)
  = (length fa =? length fb) && each_field (DObj fb) fa.
Proof.
  cbn [deepEqual same_value nullish typeof typeof_eqb isArray key_count orb negb Bool.eqb].
  destruct (length fa =? length fb); cbn [negb andb]; [| reflexivity].
  induction fa as [| [k va] fa IH]; [reflexivity |].
  cbn [each_field]. destruct (get_own (DObj fb) k); [| reflexivity].
  destruct (deepEqual va d); [apply IH | reflexivity].
Qed.

Lemma deepEqual_object_date fa t :
  deepEqual (DObj fa) (DDate t) = (length fa =? 0).
Proof.
  cbn [deepEqual same_value nullish typeof typeof_eqb isArray key_count orb negb Bool.eqb].
  destruct fa as [| [k v] fa]; reflexivity.
Qed.

Lemma deepEqual_date_object t fb :
  deepEqual (DDate t) (DObj fb) = (0 =? length fb).
Proof. destruct fb; reflexivity. Qed.

Lemma each_field_spec b fa :
  each_field b fa = true
  <-> forall k va, In (k, va) fa ->
        exists vb, get_own b k = Some vb /\ deepEqual va vb = true.
Proof.
  induction fa as [| [k v] fa IH]; simpl.
  - split; [intros _ k va [] | reflexivity].
  - destruct (get_own b k) as [vb |] eqn:E.
    + destruct (deepEqual v vb) eqn:Ev.
      * rewrite IH. split.
        -- intros H k' va [[= <- <-] | Hin]; [eauto | auto].
        -- intros H k' va Hin. apply H. auto.
      * split; [discriminate |]. intros H.
        destruct (H k v (or_introl eq_refl)) as (vb' & E' & Ev'). congruence.
    + split; [discriminate |]. intros H.
      destruct (H k v (or_introl eq_refl)) as (vb' & E' & _). congruence.
Qed.

Lemma each_index_spec ys xs : forall i,
  each_index (DArr ys) xs i = true
  <-> forall j x, nth_error xs j = Some x ->
        exists y, nth_error ys (i + j) = Some y /\ deepEqual x y = true.
Proof.
  induction xs as [| x xs IH]; intros i; simpl.
  - split; [intros _ [| j] x' H; discriminate | reflexivity].
  - destruct (nth_error ys i) as [y |] eqn:E.
    + destruct (deepEqual x y) eqn:Ex.
      * rewrite IH. split.
        -- intros H [| j] x' Hj; simpl in Hj.
           ++ injection Hj as <-. rewrite Nat.add_0_r. eauto.
           ++ replace (i + S j) with (S i + j) by lia. auto.
        -- intros H j x' Hj. replace (S i + j) with (i + S j) by lia. apply H. exact Hj.
      * split; [discriminate |]. intros H.
        destruct (H 0 x eq_refl) as (y' & E' & Ex'). rewrite Nat.add_0_r in E'. congruence.
    + split; [discriminate |]. intros H.
      destruct (H 0 x eq_refl) as (y' & E' & _). rewrite Nat.add_0_r in E'. congruence.
Qed.

(** Two arrays are deep-equal exactly when they have the same length and
    deep-equal elements at every index. *)
Lemma deepEqual_arrays_spec xs ys :
  deepEqual (DArr xs) (DArr ys) = true
  <-> length xs = length ys
      /\ forall j x y, nth_error xs j = Some x -> nth_error ys j = Some y ->
                       deepEqual x y = true.
Proof.
  rewrite deepEqual_arrays, andb_true_iff, Nat.eqb_eq, each_index_spec. split.
  - intros [Hl H]. split; [exact Hl |]. intros j x y Hx Hy.
    destruct (H j x Hx) as (y' & Hy' & E). simpl in Hy'. congruence.
  - intros [Hl H]. split; [exact Hl |]. intros j x Hx. simpl.
    destruct (nth_error ys j) as [y |] eqn:Hy.
    + exists y. split; [reflexivity | eapply H; eassumption].
    + apply nth_error_None in Hy.
      assert (j < length xs) by (apply nth_error_Some; congruence). lia.
Qed.

(** ** Keys *)

Lemma distinct_NoDup ks : distinct ks = true <-> List.NoDup ks.
Proof.
  induction ks as [| k ks IH]; simpl.
  - split; [constructor | reflexivity].
  - rewrite andb_true_iff, negb_true_iff, IH, List.NoDup_cons_iff. 
    assert (Hx : existsb (String.eqb k) ks = false <-> ~ In k ks).
    { split.
      - intros E Hin. assert (existsb (String.eqb k) ks = true); [| congruence].
        apply existsb_exists. exists k. split; [exact Hin | apply String.eqb_refl].
      - intros Hn. destruct (existsb (String.eqb k) ks) eqn:E; [| reflexivity].
        apply existsb_exists in E as (k' & Hin & Ek). apply String.eqb_eq in Ek. subst.
        contradiction. }
    rewrite Hx. reflexivity.
Qed.

Lemma map_get_In {V : Type} k (v : V) m : map_get k m = Some v -> In (k, v) m.
Proof.
  induction m as [| [k' v'] m IH]; simpl; [discriminate |].
  destruct (String.eqb k k') eqn:E.
  - apply String.eqb_eq in E as <-. intros [= <-]. auto.
  - auto.
Qed.

Lemma In_map_get {V : Type} k (v : V) m :
  List.NoDup (map fst m) -> In (k, v) m -> map_get k m = Some v.
Proof.
  induction m as [| [k' v'] m IH]; simpl; [tauto |].
  intros Hnd Hin. apply List.NoDup_cons_iff in Hnd as [Hnin Hnd].
  destruct Hin as [[= -> ->] | Hin].
  - rewrite String.eqb_refl. reflexivity.
  - destruct (String.eqb k k') eqn:E; [| auto].
    apply String.eqb_eq in E as <-. exfalso. apply Hnin.
    apply in_map_iff. exists (k, v). auto.
Qed.

Lemma map_get_keys {V : Type} k (m : list (string * V)) :
  In k (map fst m) -> exists v, map_get k m = Some v.
Proof.
  induction m as [| [k' v'] m IH]; simpl; [tauto |].
  destruct (String.eqb k k') eqn:E; [eauto |].
  intros [<- | Hin]; [rewrite String.eqb_refl in E; discriminate | auto].
Qed.

Lemma wf_data_obj fs :
  wf_data (DObj fs) = true
  <-> List.NoDup (map fst fs) /\ forall k v, In (k, v) fs -> wf_data v = true.
Proof.
  simpl. rewrite andb_true_iff, distinct_NoDup, forallb_forall. split.
  - intros [H1 H2]. split; [exact H1 |]. intros k v Hin. exact (H2 (k, v) Hin).
  - intros [H1 H2]. split; [exact H1 |]. intros [k v] Hin. exact (H2 k v Hin).
Qed.

Lemma wf_data_arr xs :
  wf_data (DArr xs) = true <-> forall x, In x xs -> wf_data x = true.
Proof. simpl. apply forallb_forall. Qed.

(** ** Primitives *)

Lemma deepEqual_primitive a b :
  is_object a = false -> deepEqual a b = same_value a b.
Proof.
  destruct a; try discriminate; intros _; destruct b; simpl; try reflexivity;
    match goal with |- (if ?c then _ else _) = _ => destruct c; reflexivity end.
Qed.

Lemma same_value_eq a b : same_value a b = true -> a = b.
Proof.
  destruct a, b; simpl; try discriminate; try reflexivity; intros E.
  - apply Bool.eqb_prop in E. congruence.
  - apply Z.eqb_eq in E. congruence.
  - apply String.eqb_eq in E. congruence.
Qed.

Lemma same_value_refl a : is_object a = false -> same_value a a = true.
Proof.
  destruct a; try discriminate; intros _; simpl; try reflexivity.
  - apply Bool.eqb_reflx.
  - apply Z.eqb_refl.
  - apply String.eqb_refl.
Qed.

(** ** [deepEqual] is an equivalence *)

Lemma deepEqual_refl d : wf_data d = true -> deepEqual d d = true.
Proof.
  induction d as [| | b | n | s | t | xs IH | fs IH] using Data_nested_ind; intros Hwf;
    try (rewrite deepEqual_primitive by reflexivity; apply same_value_refl; reflexivity).
  - reflexivity.
  - apply deepEqual_arrays_spec. split; [reflexivity |].
    intros j x y Hx Hy. assert (x = y) by congruence. subst y.
    rewrite List.Forall_forall in IH. apply IH; [eapply nth_error_In; eassumption |].
    rewrite wf_data_arr in Hwf. apply Hwf. eapply nth_error_In; eassumption.
  - rewrite deepEqual_objects, Nat.eqb_refl. simpl. apply each_field_spec.
    apply wf_data_obj in Hwf as [Hnd Hv]. intros k va Hin. exists va. split.
    + simpl. apply In_map_get; assumption.
    + rewrite List.Forall_forall in IH. apply (IH (k, va) Hin). eapply Hv; eassumption.
Qed.

Lemma deepEqual_sym_imp a : forall b,
  wf_data a = true -> wf_data b = true ->
  deepEqual a b = true -> deepEqual b a = true.
Proof.
  induction a as [| | x | x | x | t | xs IH | fa IH] using Data_nested_ind;
    intros b Ha Hb E;
    try (rewrite deepEqual_primitive in E by reflexivity;
         apply same_value_eq in E; subst b; apply deepEqual_refl; exact Ha).
  - destruct b as [| | | | | t' | ys | fb]; try discriminate; [reflexivity |].
    rewrite deepEqual_date_object in E. rewrite deepEqual_object_date.
    apply Nat.eqb_eq in E. apply Nat.eqb_eq. lia.
  - destruct b as [| | | | | t' | ys | fb]; try discriminate.
    apply deepEqual_arrays_spec in E as [Hl H]. apply deepEqual_arrays_spec.
    split; [lia |]. intros j y x Hy Hx.
    rewrite List.Forall_forall in IH. apply (IH x).
    + eapply nth_error_In; eassumption.
    + rewrite wf_data_arr in Ha. apply Ha. eapply nth_error_In; eassumption.
    + rewrite wf_data_arr in Hb. apply Hb. eapply nth_error_In; eassumption.
    + eapply H; eassumption.
  - destruct b as [| | | | | t' | ys | fb]; try discriminate.
    + rewrite deepEqual_object_date in E. rewrite deepEqual_date_object.
      apply Nat.eqb_eq in E. apply Nat.eqb_eq. lia.
    + rewrite deepEqual_objects in E. apply andb_true_iff in E as [Hl E].
      apply Nat.eqb_eq in Hl. rewrite each_field_spec in E.
      apply wf_data_obj in Ha as [Hnda Hva]. apply wf_data_obj in Hb as [Hndb Hvb].
      rewrite deepEqual_objects. apply andb_true_iff. split; [apply Nat.eqb_eq; lia |].
      apply each_field_spec. intros k vb Hin.
      (* the keys of [a] are among those of [b]; being as many and distinct,
         they are all of them *)
      assert (Hincl : incl (map fst fa) (map fst fb)).
      { intros k' Hk'. apply in_map_iff in Hk' as ([k0 v0] & <- & Hin0).
        destruct (E k0 v0 Hin0) as (vb0 & Hg & _). simpl in Hg.
        apply map_get_In in Hg. apply in_map_iff. exists (k0, vb0). auto. }
      assert (Hback : incl (map fst fb) (map fst fa)).
      { apply List.NoDup_length_incl; [exact Hnda | | exact Hincl].
        rewrite !length_map. lia. }
      assert (Hk : In k (map fst fa)).
      { apply Hback. apply in_map_iff. exists (k, vb). auto. }
      destruct (map_get_keys k fa Hk) as [va Hga].
      exists va. split; [exact Hga |].
      apply map_get_In in Hga.
      destruct (E k va Hga) as (vb' & Hgb & Ev). simpl in Hgb.
      rewrite (In_map_get k vb fb Hndb Hin) in Hgb. injection Hgb as <-.
      rewrite List.Forall_forall in IH. apply (IH (k, va) Hga); eauto.
Qed.

Lemma deepEqual_trans_imp a : forall b c,
  deepEqual a b = true -> deepEqual b c = true -> deepEqual a c = true.
Proof.
  induction a as [| | x | x | x | t | xs IH | fa IH] using Data_nested_ind;
    intros b c E1 E2;
    try (rewrite deepEqual_primitive in E1 by reflexivity;
         apply same_value_eq in E1; subst b; exact E2).
  - destruct b as [| | | | | t' | ys | fb]; try discriminate.
    + destruct c as [| | | | | t'' | zs | fc]; try discriminate; [reflexivity |].
      rewrite deepEqual_date_object in E2. rewrite deepEqual_date_object. exact E2.
    + rewrite deepEqual_date_object in E1. apply Nat.eqb_eq in E1.
      destruct fb; [| discriminate].
      destruct c as [| | | | | t'' | zs | fc]; try discriminate; [reflexivity |].
      rewrite deepEqual_objects in E2. apply andb_true_iff in E2 as [E2 _].
      rewrite deepEqual_date_object. exact E2.
  - destruct b as [| | | | | t' | ys | fb]; try discriminate.
    destruct c as [| | | | | t'' | zs | fc]; try discriminate.
    apply deepEqual_arrays_spec in E1 as [Hl1 H1].
    apply deepEqual_arrays_spec in E2 as [Hl2 H2].
    apply deepEqual_arrays_spec. split; [lia |]. intros j x z Hx Hz.
    destruct (nth_error ys j) as [y |] eqn:Hy.
    + rewrite List.Forall_forall in IH. apply (IH x) with (b := y).
      * eapply nth_error_In; eassumption.
      * eapply H1; eassumption.
      * eapply H2; eassumption.
    + apply nth_error_None in Hy.
      assert (j < length xs) by (apply nth_error_Some; congruence). lia.
  - destruct b as [| | | | | t' | ys | fb]; try discriminate.
    + rewrite deepEqual_object_date in E1. apply Nat.eqb_eq in E1.
      destruct fa; [| discriminate].
      destruct c as [| | | | | t'' | zs | fc]; try discriminate; [reflexivity |].
      rewrite deepEqual_date_object in E2. rewrite deepEqual_objects.
      cbn [length each_field]. rewrite E2. reflexivity.
    + rewrite deepEqual_objects in E1. apply andb_true_iff in E1 as [Hl1 E1].
      apply Nat.eqb_eq in Hl1. rewrite each_field_spec in E1.
      destruct c as [| | | | | t'' | zs | fc]; try discriminate.
      * rewrite deepEqual_object_date in E2. rewrite deepEqual_object_date.
        apply Nat.eqb_eq in E2. apply Nat.eqb_eq. lia.
      * rewrite deepEqual_objects in E2. apply andb_true_iff in E2 as [Hl2 E2].
        apply Nat.eqb_eq in Hl2. rewrite each_field_spec in E2.
        rewrite deepEqual_objects. apply andb_true_iff.
        split; [apply Nat.eqb_eq; lia |].
        apply each_field_spec. intros k va Hin.
        destruct (E1 k va Hin) as (vb & Hgb & Eab). simpl in Hgb.
        destruct (E2 k vb (map_get_In _ _ _ Hgb)) as (vc & Hgc & Ebc).
        exists vc. split; [exact Hgc |].
        rewrite List.Forall_forall in IH. exact (IH (k, va) Hin vb vc Eab Ebc).
Qed.

(** X14: on data whose objects have pairwise different keys, [deepEqual] is
    an equivalence relation: reflexive (so the shortcut for one and the same
    reference agrees with the comparison), symmetric and transitive. *)
Theorem deepEqual_is_an_equivalence (a b c : Data) :
  wf_data a = true -> wf_data b = true ->
  deepEqual a a = true
  /\ deepEqual a b = deepEqual b a
  /\ (deepEqual a b = true -> deepEqual b c = true -> deepEqual a c = true).
Proof.
  intros Ha Hb. split; [apply deepEqual_refl, Ha |]. split.
  - destruct (deepEqual a b) eqn:E1, (deepEqual b a) eqn:E2; try reflexivity.
    + rewrite (deepEqual_sym_imp a b Ha Hb E1) in E2. discriminate.
    + rewrite (deepEqual_sym_imp b a Hb Ha E2) in E1. discriminate.
  - apply deepEqual_trans_imp.
Qed.

Lemma deepEqual_is_an_equivalence_witness :
  deepEqual sample_record sample_record_reordered
  = deepEqual sample_record_reordered sample_record.
Proof.
  exact (proj1 (proj2 (deepEqual_is_an_equivalence sample_record sample_record_reordered
                         DNull eq_refl eq_refl))).
Defined.

(** ** What [deepEqual] does not see *)

Lemma erase_dates_primitive a b :
  is_object a = false -> erase_dates a = erase_dates b -> a = b.
Proof.
  destruct a; try discriminate; intros _; destruct b; simpl; congruence.
Qed.

(** X15: [deepEqual] cannot see the time of a [Date]: two values with
    pairwise different keys that differ at most in the times of the [Date]
    objects they contain, at any depth, are deep-equal. *)
Theorem deepEqual_ignores_date_times (a b : Data) :
  wf_data a = true -> erase_dates a = erase_dates b -> deepEqual a b = true.
Proof.
  revert b. induction a as [| | x | x | x | t | xs IH | fa IH] using Data_nested_ind;
    intros b Hwf E;
    try (apply erase_dates_primitive in E; [| reflexivity]; subst b;
         apply deepEqual_refl; exact Hwf).
  - destruct b; try discriminate. reflexivity.
  - destruct b as [| | | | | t' | ys | fb]; try discriminate.
    simpl in E. injection E as E.
    apply deepEqual_arrays_spec. split.
    + rewrite <- (length_map erase_dates xs), E, length_map. reflexivity.
    + intros j x y Hx Hy. rewrite List.Forall_forall in IH.
      apply IH; [eapply nth_error_In; eassumption | |].
      * rewrite wf_data_arr in Hwf. apply Hwf. eapply nth_error_In; eassumption.
      * apply (map_nth_error erase_dates) in Hx, Hy. rewrite E in Hx. congruence.
  - destruct b as [| | | | | t' | ys | fb]; try discriminate.
    simpl in E. injection E as E.
    apply wf_data_obj in Hwf as [Hnd Hv].
    assert (Hk : map fst fa = map fst fb).
    { apply (f_equal (map fst)) in E. rewrite !map_map in E. exact E. }
    assert (Hpair : forall k va, In (k, va) fa ->
              exists vb, In (k, vb) fb /\ erase_dates va = erase_dates vb).
    { clear -E. revert fb E. induction fa as [| [k0 v0] fa IHf]; intros fb E k va Hin;
        [destruct Hin |].
      destruct fb as [| [k1 v1] fb]; [discriminate |]. simpl in E.
      injection E as E1 E2 E3.
      destruct Hin as [[= <- <-] | Hin].
      - exists v1. subst. split; [left; reflexivity | assumption].
      - destruct (IHf fb E3 k va Hin) as (vb & H1 & H2). exists vb.
        split; [right; exact H1 | exact H2]. }
    rewrite deepEqual_objects. apply andb_true_iff. split.
    + apply Nat.eqb_eq. rewrite <- (length_map fst fa), Hk, length_map. reflexivity.
    + apply each_field_spec. intros k va Hin.
      destruct (Hpair k va Hin) as (vb & Hinb & Ee).
      exists vb. split.
      * simpl. apply In_map_get; [rewrite <- Hk; exact Hnd | exact Hinb].
      * rewrite List.Forall_forall in IH. apply (IH (k, va) Hin); eauto.
Qed.

Lemma deepEqual_ignores_date_times_witness :
  deepEqual (DArr [DDate 1; DObj [("at", DDate 2)]])
            (DArr [DDate 30; DObj [("at", DDate 40)]]) = true.
Proof.
  exact (deepEqual_ignores_date_times (DArr [DDate 1; DObj [("at", DDate 2)]])
           (DArr [DDate 30; DObj [("at", DDate 40)]]) eq_refl eq_refl).
Defined.

(** X16: [deepEqual] does not depend on the order of an object's keys: an
    object with pairwise different keys is deep-equal to every object with
    the same fields in another order. *)
Theorem deepEqual_ignores_key_order (fa fb : list (string * Data)) :
  wf_data (DObj fa) = true -> Permutation fa fb ->
  deepEqual (DObj fa) (DObj fb) = true /\ deepEqual (DObj fb) (DObj fa) = true.
Proof.
  intros Hwf Hp.
  assert (G : forall f1 f2, wf_data (DObj f1) = true -> Permutation f1 f2 ->
                            deepEqual (DObj f1) (DObj f2) = true).
  { clear. intros f1 f2 Hwf Hp. apply wf_data_obj in Hwf as [Hnd Hv].
    rewrite deepEqual_objects. apply andb_true_iff. split.
    - apply Nat.eqb_eq. apply Permutation_length, Hp.
    - apply each_field_spec. intros k va Hin. exists va. split.
      + simpl. apply In_map_get.
        * eapply Permutation_NoDup; [apply Permutation_map, Hp | exact Hnd].
        * eapply Permutation_in; eassumption.
      + apply deepEqual_refl. eapply Hv; eassumption. }
  split; [apply G; assumption |].
  apply G; [| apply Permutation_sym, Hp].
  apply wf_data_obj in Hwf as [Hnd Hv]. apply wf_data_obj. split.
  - eapply Permutation_NoDup; [apply Permutation_map, Hp | exact Hnd].
  - intros k v Hin. apply (Hv k v). eapply Permutation_in; [apply Permutation_sym, Hp | exact Hin].
Qed.

Lemma deepEqual_ignores_key_order_witness :
  deepEqual (DObj [("a", DNum 1); ("b", DNum 2)]) (DObj [("b", DNum 2); ("a", DNum 1)])
  = true.
Proof.
  exact (proj1 (deepEqual_ignores_key_order
                  [("a", DNum 1); ("b", DNum 2)] [("b", DNum 2); ("a", DNum 1)]
                  eq_refl (perm_swap _ _ _))).
Defined.

(** ** [deepClone] *)

Lemma clone_items_spec xs :
  List.Forall (fun x => deepClone x
                        = if shadows_hasOwnProperty x
                          then Throw TypeError_hasOwnProperty
                          else Normal (without_proto x)) xs ->
  clone_items deepClone xs
  = if existsb shadows_hasOwnProperty xs
    then Throw TypeError_hasOwnProperty
    else Normal (map without_proto xs).
Proof.
  induction 1 as [| x xs Hx _ IH]; [reflexivity |].
  cbn [clone_items existsb map]. fold (clone_items deepClone). rewrite Hx, IH.
  destruct (shadows_hasOwnProperty x); [reflexivity |].
  destruct (existsb shadows_hasOwnProperty xs); reflexivity.
Qed.

Lemma clone_fields_spec fs :
  List.Forall (fun kv => deepClone (snd kv)
                         = if shadows_hasOwnProperty (snd kv)
                           then Throw TypeError_hasOwnProperty
                           else Normal (without_proto (snd kv))) fs ->
  clone_fields deepClone fs
  = if existsb (fun kv => shadows_hasOwnProperty (snd kv)) fs
    then Throw TypeError_hasOwnProperty
    else Normal (List.filter (fun kv => negb (String.eqb (fst kv) "__proto__"))
                             (map (fun kv => (fst kv, without_proto (snd kv))) fs)).
Proof.
  induction 1 as [| [k v] fs Hx _ IH]; [reflexivity |].
  cbn [clone_fields existsb map List.filter fst snd]. fold (clone_fields deepClone).
  simpl in Hx. rewrite Hx, IH.
  destruct (shadows_hasOwnProperty v); [reflexivity |].
  destruct (existsb (fun kv => shadows_hasOwnProperty (snd kv)) fs); [reflexivity |].
  cbn [orb]. destruct (String.eqb k "__proto__"); reflexivity.
Qed.

Lemma deepClone_outcome (d : Data) :
  deepClone d
  = if shadows_hasOwnProperty d
    then Throw TypeError_hasOwnProperty
    else Normal (without_proto d).
Proof.
  induction d as [| | b | n | s | t | xs IH | fs IH] using Data_nested_ind;
    try reflexivity.
  - cbn [deepClone shadows_hasOwnProperty without_proto].
    rewrite (clone_items_spec xs IH).
    destruct (existsb shadows_hasOwnProperty xs); reflexivity.
  - cbn [deepClone shadows_hasOwnProperty without_proto].
    destruct (map_get "hasOwnProperty" fs); [reflexivity |].
    rewrite (clone_fields_spec fs IH).
    destruct (existsb (fun kv => shadows_hasOwnProperty (snd kv)) fs); reflexivity.
Qed.

(** X17: [deepClone] throws a [TypeError] exactly when some object inside
    the value has an own property named [hasOwnProperty]; otherwise it
    returns the same tree, [Date] times included, except that own
    properties named [__proto__] are left out at every depth. *)
Theorem deepClone_copies_all_but_proto (d : Data) :
  deepClone d
  = if shadows_hasOwnProperty d
    then Throw TypeError_hasOwnProperty
    else Normal (without_proto d).
Proof. apply deepClone_outcome. Qed.

Lemma filter_length_lt {X : Type} (p : X -> bool) (l : list X) x :
  In x l -> p x = false -> length (List.filter p l) < length l.
Proof.
  induction l as [| y l IH]; simpl; [tauto |].
  intros [-> | Hin] Hp.
  - rewrite Hp. pose proof (List.filter_length_le p l). lia.
  - specialize (IH Hin Hp). destruct (p y); simpl; lia.
Qed.

(** X18: cloning and comparing.  For a value with pairwise different keys
    in which no object has an own property [hasOwnProperty] or [__proto__],
    [deepClone] returns a structurally identical value, so [hasChanged]
    reports no change between the value and its clone, while the shallow
    comparison of an object with its clone, a different object, reports a
    change. *)
Theorem deepClone_round_trip (d : Data) :
  wf_data d = true -> shadows_hasOwnProperty d = false -> without_proto d = d ->
  deepClone d = Normal d
  /\ deepEqual d d = true
  /\ hasChanged false d d false = false
  /\ (is_object d = true -> hasChanged false d d true = true).
Proof.
  intros Hwf Hs Hp. rewrite deepClone_outcome, Hs, Hp.
  pose proof (deepEqual_refl d Hwf) as Hr.
  split; [reflexivity |]. split; [exact Hr |].
  unfold hasChanged, strict_equal. split.
  - destruct (is_object d && is_object d); rewrite ?Hr;
      destruct (same_value d d); reflexivity.
  - intros ->. reflexivity.
Qed.

Lemma deepClone_round_trip_witness :
  deepClone sample_record = Normal sample_record
  /\ deepEqual sample_record sample_record = true
  /\ hasChanged false sample_record sample_record false = false
  /\ (is_object sample_record = true ->
      hasChanged false sample_record sample_record true = true).
Proof. exact (deepClone_round_trip sample_record eq_refl eq_refl eq_refl). Defined.

(** X19: an object with an own property [__proto__] (and no
    [hasOwnProperty] inside) is cloned into an object with fewer own
    properties: the clone is not deep-equal to the original and
    [hasChanged] reports a change between them. *)
Theorem deepClone_loses_own_proto (fs : list (string * Data)) :
  shadows_hasOwnProperty (DObj fs) = false ->
  map_get "__proto__" fs <> None ->
  exists d',
    deepClone (DObj fs) = Normal d'
    /\ deepEqual (DObj fs) d' = false
    /\ hasChanged false (DObj fs) d' false = true.
Proof.
  intros Hs Hp. exists (without_proto (DObj fs)).
  rewrite deepClone_outcome, Hs. split; [reflexivity |].
  assert (Hne : deepEqual (DObj fs) (without_proto (DObj fs)) = false).
  { cbn [without_proto]. rewrite deepEqual_objects.
    apply andb_false_iff. left. apply Nat.eqb_neq.
    destruct (map_get "__proto__" fs) as [v |] eqn:E; [| congruence].
    apply map_get_In in E.
    assert (Hlt : length (List.filter (fun kv => negb (String.eqb (fst kv) "__proto__"))
                    (map (fun kv => (fst kv, without_proto (snd kv))) fs))
                  < length (map (fun kv : string * Data => (fst kv, without_proto (snd kv))) fs)).
    { apply (filter_length_lt _ _ ("__proto__", without_proto v)).
      - apply in_map_iff. exists ("__proto__", v). auto.
      - reflexivity. }
    rewrite length_map in Hlt. lia. }
  split; [exact Hne |].
  unfold hasChanged, strict_equal. cbn [without_proto is_object andb].
  cbn [without_proto] in Hne. rewrite Hne. reflexivity.
Qed.

Lemma deepClone_loses_own_proto_witness :
  exists d',
    deepClone (DObj [("__proto__", DNull); ("x", DNum 1)]) = Normal d'
    /\ deepEqual (DObj [("__proto__", DNull); ("x", DNum 1)]) d' = false
    /\ hasChanged false (DObj [("__proto__", DNull); ("x", DNum 1)]) d' false = true.
Proof.
  apply (deepClone_loses_own_proto [("__proto__", DNull); ("x", DNum 1)]).
  - reflexivity.
  - simpl. discriminate.
Defined.

(** * Properties of the async iterator utilities *)

Section AsyncIterFacts.
Context {Store : Type}.
Implicit Types (s : Store).

(** Induction on an iteration: the hypothesis holds for the rest after
    every value it can yield. *)
Lemma AsyncIterable_rest_ind {T : Type} (P : AsyncIter.AsyncIterable Store T -> Prop) :
  (forall nx,
      (forall s s1 x rest, nx s = AsyncIter.Yielded s1 x rest -> P rest) ->
      P (AsyncIter.Pull nx)) ->
  forall iterable, P iterable.
Proof.
  intros H.
  refine (fix IH (iterable : AsyncIter.AsyncIterable Store T) : P iterable :=
            match iterable with
            | AsyncIter.Pull nx =>
                H nx (fun s s1 x rest =>
                        match nx s as res
                              return res = AsyncIter.Yielded s1 x rest -> P rest with
                        | AsyncIter.Yielded s' x' rest' => fun E => _ (IH rest')
                        | AsyncIter.Done _ => fun E => _
                        | AsyncIter.Failed _ _ => fun E => _
                        end)
            end); clear IH.
  - discriminate E.
  - discriminate E.
  - intros Hr. injection E as _ _ <-. exact Hr.
Qed.

Lemma collect_loop_map_map {T U V : Type} (iterable : AsyncIter.AsyncIterable Store T)
  (f : AsyncIter.Callback Store T U) (g : AsyncIter.Callback Store U V) :
  forall result s,
    AsyncIter.collect_loop (AsyncIter.map (AsyncIter.map iterable f) g) result s
    = AsyncIter.collect_loop (AsyncIter.map iterable (AsyncIter.and_then f g)) result s.
Proof.
  induction iterable as [nx IH] using AsyncIterable_rest_ind. intros result s.
  cbn [AsyncIter.map AsyncIter.collect_loop].
  destruct (nx s) as [s1 | s1 e | s1 x rest] eqn:E; try reflexivity.
  unfold AsyncIter.and_then at 1.
  destruct (f x s1) as [s2 [u | e]]; [| reflexivity].
  destruct (g u s2) as [s3 [v | e]]; [| reflexivity].
  apply (IH s s1 x rest E).
Qed.

(** X20: mapping twice is mapping once with the two mappers in sequence:
    for every finite iterable, [collect(map(map(it, f), g))] gives the same
    result and leaves the same store as [collect(map(it, x => g(f(x))))], so
    the two mappers run in lockstep, element by element, and a failure of
    [f] on an element is met before [g] runs on that element or either runs
    on a later one. *)
Theorem map_of_map_runs_the_mappers_in_lockstep {T U V : Type}
  (iterable : AsyncIter.AsyncIterable Store T)
  (f : AsyncIter.Callback Store T U) (g : AsyncIter.Callback Store U V) s :
  AsyncIter.collect (AsyncIter.map (AsyncIter.map iterable f) g) s
  = AsyncIter.collect (AsyncIter.map iterable (AsyncIter.and_then f g)) s.
Proof. apply collect_loop_map_map. Qed.

Lemma collect_loop_filter_map_pure {T U : Type} (f : T -> U) (p : U -> bool) :
  forall (xs : list T) (result : list U) s,
    AsyncIter.collect_loop
      (AsyncIter.filter (AsyncIter.map (AsyncIter.of_list xs) (AsyncIter.pure f))
                        (AsyncIter.pure p)) result s
    = (s, Normal (result ++ List.filter p (List.map f xs))).
Proof.
  induction xs as [| x xs IH]; intros result s.
  - simpl. rewrite app_nil_r. reflexivity.
  - cbn [AsyncIter.of_list AsyncIter.map AsyncIter.filter AsyncIter.collect_loop
         AsyncIter.pure List.map List.filter].
    destruct (p (f x)) eqn:Ep.
    + rewrite IH, <- app_assoc. reflexivity.
    + specialize (IH result s).
      destruct (AsyncIter.filter _ _) as [nx] in IH |- *. exact IH.
Qed.

(** X21: with callbacks that only compute, collecting the filtered mapped
    elements of a list gives the filtered mapped list, in order, and leaves
    the store as it was. *)
Theorem collect_filter_map_of_pure_callbacks {T U : Type} (f : T -> U) (p : U -> bool)
  (xs : list T) s :
  AsyncIter.collect
    (AsyncIter.filter (AsyncIter.map (AsyncIter.of_list xs) (AsyncIter.pure f))
                      (AsyncIter.pure p)) s
  = (s, Normal (List.filter p (List.map f xs))).
Proof. apply (collect_loop_filter_map_pure f p xs [] s). Qed.

Lemma collect_loop_map_app {T U : Type} (f : AsyncIter.Callback Store T U) :
  forall (xs ys : list T) result s s1 out,
    AsyncIter.collect_loop (AsyncIter.map (AsyncIter.of_list xs) f) result s
    = (s1, Normal out) ->
    AsyncIter.collect_loop (AsyncIter.map (AsyncIter.of_list (xs ++ ys)) f) result s
    = AsyncIter.collect_loop (AsyncIter.map (AsyncIter.of_list ys) f) out s1.
Proof.
  induction xs as [| x xs IH]; intros ys result s s1 out H.
  - simpl in H. injection H as <- <-. reflexivity.
  - cbn [AsyncIter.of_list AsyncIter.map AsyncIter.collect_loop app] in H |- *.
    destruct (f x s) as [s2 [u | e]]; [| discriminate H].
    apply IH, H.
Qed.

(** X22: a failing mapper ends the collection.  If collecting the mapped
    elements of [xs] succeeds and leaves the store [s1], and the mapper
    throws [e] on [x] in [s1], then collecting the mapped elements of
    [xs ++ x :: ys] is rejected with [e]: the values mapped so far are lost,
    the store is the one the failing call left, and the mapper is not run on
    [ys]. *)
Theorem collect_map_stops_at_the_first_failure {T U : Type}
  (f : AsyncIter.Callback Store T U) (xs ys : list T) (x : T) s s1 s2 out e :
  AsyncIter.collect (AsyncIter.map (AsyncIter.of_list xs) f) s = (s1, Normal out) ->
  f x s1 = (s2, Throw e) ->
  AsyncIter.collect (AsyncIter.map (AsyncIter.of_list (xs ++ x :: ys)) f) s
  = (s2, Throw e).
Proof.
  intros H Hf. unfold AsyncIter.collect in *.
  rewrite (collect_loop_map_app f xs (x :: ys) [] s s1 out H).
  cbn [AsyncIter.of_list AsyncIter.map AsyncIter.collect_loop]. rewrite Hf. reflexivity.
Qed.

End AsyncIterFacts.

Lemma collect_map_stops_at_the_first_failure_witness :
  AsyncIter.collect
    (AsyncIter.map (AsyncIter.of_list ([1; 2] ++ 0 :: [4]))
                   (fun n calls => (calls ++ [n],
                                    if Nat.eqb n 0 then Throw "zero" else Normal (2 * n))))
    [] = ([1; 2; 0], Throw "zero").
Proof.
  apply (collect_map_stops_at_the_first_failure
           (fun n calls => (calls ++ [n],
                            if Nat.eqb n 0 then Throw "zero" else Normal (2 * n)))
           [1; 2] [4] 0 [] [1; 2] [1; 2; 0] [2; 4] "zero"); reflexivity.
Defined.

(** ** Exactly the actions that fire are executed *)

Lemma every_result id ctx cs :
  match fst (every id cs ctx) with Normal true => true | _ => false end
  = forallb (passes ctx) cs.
Proof.
  induction cs as [| c cs IH]; simpl; [reflexivity |].
  unfold passes at 1. destruct (c ctx) as [[|] | e]; simpl; try reflexivity.
  destruct (every id cs ctx) as [r tr]. exact IH.
Qed.

Lemma try_block_executions_own cfg a id old new ts w :
  executions id (snd (try_block cfg a id old new ts w))
  = executions id w
    ++ (if match act_trigger a old new ts with Normal true => true | _ => false end
           && conditions_pass a (mkContext cfg id old new ts)
           && negb (is_true (act_preventDefault a) && is_executing id w)
        then [mkContext cfg id old new ts] else []).
Proof.
  unfold try_block.
  destruct (act_trigger a old new ts) as [[|] | e]; cbn [snd andb];
    try (rewrite executions_observe; simpl; rewrite !app_nil_r; reflexivity).
  set (ctx := mkContext cfg id old new ts).
  assert (Hc : exists r trc,
             match act_conditions a with
             | Some conds => every id conds ctx
             | None => (Normal true, [])
             end = (r, trc)
             /\ omap (fun o => match o with
                               | ObsExecute i c _ => if String.eqb i id then Some c else None
                               | _ => None
                               end) trc = []
             /\ match r with Normal true => true | _ => false end
                = conditions_pass a ctx).
  { unfold conditions_pass. destruct (act_conditions a) as [conds |].
    - pose proof (every_executions id id ctx conds) as H.
      pose proof (every_result id ctx conds) as H'.
      destruct (every id conds ctx) as [r trc]. exists r, trc. auto.
    - exists (Normal true), []. auto. }
  destruct Hc as (r & trc & -> & Hn & Hr). rewrite <- Hr.
  assert (Hpre : executions id (observe trc (observe
                   [ObsTrigger id old new ts (Normal true)] w)) = executions id w).
  { rewrite !executions_observe, Hn. simpl. rewrite !app_nil_r. reflexivity. }
  destruct r as [[|] | e]; cbn match; cbn [snd andb];
    try (rewrite Hpre, app_nil_r; reflexivity).
  match goal with |- context [is_executing id ?w2] =>
    change (is_executing id w2) with (is_executing id w) end.
  destruct (is_true (act_preventDefault a) && is_executing id w) eqn:Hg;
    cbn [snd negb]; [rewrite Hpre, app_nil_r; reflexivity |].
  match goal with |- context [call ?f ?c ?h] => destruct (call f c h) as [res h'] end.
  destruct res; cbn [snd]; rewrite executions_observe; simpl;
    rewrite String.eqb_refl; f_equal; exact Hpre.
Qed.

Lemma processAction_executions_own uid a old new ts w cfg :
  config (engine w) = Some cfg ->
  executions (id_of a) (processAction uid a old new ts w)
  = executions (id_of a) w
    ++ (if fires cfg (id_of a) a old new ts (is_executing (id_of a) w)
        then [mkContext cfg (id_of a) old new ts] else []).
Proof.
  intros Hc. unfold processAction, fires. rewrite Hc.
  destruct (truthy old); cbn [negb andb]; [| rewrite app_nil_r; reflexivity].
  pose proof (try_block_executions_own cfg a (id_of a) old new ts w) as Ht.
  destruct (try_block cfg a (id_of a) old new ts w) as [[| e | fate] w1];
    cbn [snd] in Ht; try exact Ht.
  pose proof (catch_block_executions (id_of a) (id_of a) e old new ts w1) as Hk.
  destruct (catch_block (id_of a) e old new ts w1) as [r w2]. cbn [snd] in Hk.
  unfold executions in *. simpl. rewrite Hk. exact Ht.
Qed.

Lemma processAction_config uid a old new ts w :
  config (engine (processAction uid a old new ts w)) = config (engine w).
Proof. apply static_config, processAction_static. Qed.

Lemma fold_processAction_fires uid old new ts cfg id a
    (l : list (string * ReactiveAction)) : forall w,
  wf_actions l -> In (id, a) l -> config (engine w) = Some cfg ->
  executions id (fold_left (fun w ka => processAction uid (snd ka) old new ts w) l w)
  = executions id w
    ++ (if fires cfg id a old new ts (is_executing id w)
        then [mkContext cfg id old new ts] else []).
Proof.
  induction l as [| [k b] l IH]; intros w [Hnd Hid] Hin Hc; [destruct Hin |].
  simpl in Hnd. apply List.NoDup_cons_iff in Hnd as [Hnin Hnd].
  apply Forall_cons_1 in Hid as [Hk Hid]. simpl in Hk.
  assert (Hidb : id_of b = k) by (unfold id_of; rewrite Hk; reflexivity).
  simpl fold_left.
  destruct Hin as [[= <- <-] | Hin].
  - rewrite fold_processAction_executions_other.
    + rewrite <- Hidb at 1 2. rewrite (processAction_executions_own _ _ _ _ _ _ cfg Hc).
      rewrite Hidb. reflexivity.
    + rewrite List.Forall_forall. intros [k' b'] Hin'. simpl.
      rewrite List.Forall_forall in Hid. specialize (Hid _ Hin'). simpl in Hid.
      unfold id_of. rewrite Hid. intros <-. apply Hnin.
      apply in_map_iff. exists (k, b'). auto.
  - assert (Hne : id <> id_of b).
    { rewrite Hidb. intros ->. apply Hnin. apply in_map_iff. exists (k, a). auto. }
    rewrite (IH _ (conj Hnd Hid) Hin); [| rewrite processAction_config; exact Hc].
    rewrite processAction_tracker_other by exact Hne.
    rewrite processAction_executions by auto. reflexivity.
Qed.

(** X23: an update executes exactly the actions that fire.  On every
    reachable engine that is configured and not destroyed, [updateState]
    invokes the stored [execute] of a registered action once, with the new
    state and the former state in the context, when the former state is
    truthy, the trigger returns true, every condition returns true and the
    re-entry guard does not apply; otherwise it does not invoke it.  What
    the other actions do makes no difference. *)
Theorem updateState_executes_exactly_the_actions_that_fire
    (ent : nat -> string) (t0 : Z) (evs : list Event) (s : JSValue)
    (cfg : ReactiveConfig) (id : string) (a : ReactiveAction) :
  let w := run evs (world0 ent t0) in
  let old := currentState (engine w) in
  isDestroyed (engine w) = false -> config (engine w) = Some cfg ->
  In (id, a) (actions (engine w)) ->
  executions id (snd (updateState s w))
  = executions id w
    ++ (if fires cfg id a old s (now (host w)) (is_executing id w)
        then [mkContext cfg id old s (now (host w))] else []).
Proof.
  intros w old Hd Hc Hin.
  assert (Hwf : wf_actions (actions (engine w))).
  { apply run_wf. split; constructor. }
  unfold updateState. rewrite Hd, Hc. cbn [snd].
  match goal with |- context [fold_left _ _ ?x] => set (w1 := x) end.
  change (executions id w) with (executions id w1).
  change (is_executing id w) with (is_executing id w1).
  apply (fold_processAction_fires _ _ _ _ cfg id a); auto.
Qed.

Lemma updateState_executes_exactly_the_actions_that_fire_witness :
  let w := run [EConfigure mixed_config] (world0 sample_entropy 0) in
  executions "good" (snd (updateState (JNum 2) w))
  = [mkContext mixed_config "good" (JNum 1) (JNum 2) 0].
Proof.
  exact (updateState_executes_exactly_the_actions_that_fire sample_entropy 0
           [EConfigure mixed_config] (JNum 2) mixed_config "good"
           (with_id "good" (plain_action "good" always appends))
           eq_refl eq_refl ltac:(right; left; reflexivity)).
Defined.

(** ** A debounced action on the engine *)

Lemma quiet_calls_head_runs {A : Type} (D t lo T : Z) (x : A) (l : list (Z * A)) :
  (t + D <= lo)%Z -> chrono lo l -> (lo <= T)%Z ->
  quiet_calls D ((t, x) :: l) T = x :: quiet_calls D l T.
Proof.
  intros H Hc HT. cbn [quiet_calls fst snd].
  destruct l as [| [t' x'] l].
  - destruct (Z.leb_spec (t + D) T); [reflexivity | lia].
  - destruct Hc as [Hc _]. simpl in Hc. cbn [fst].
    destruct (Z.leb_spec (t + D) t'); [reflexivity | lia].
Qed.

Lemma chrono_weaken {A : Type} (lo lo' : Z) (l : list (Z * A)) :
  (lo' <= lo)%Z -> chrono lo l -> chrono lo' l.
Proof. destruct l as [| ta l]; simpl; [auto |]. intros H [H1 H2]. split; [lia | exact H2]. Qed.

Lemma fired_chrono cfg id a : forall sched old lo,
  chrono lo sched -> chrono lo (fired cfg id a old sched).
Proof.
  induction sched as [| [t s] rest IH]; intros old lo Hc; [exact I |].
  destruct Hc as [H1 H2]. simpl in H1. cbn [fired].
  destruct (fires cfg id a old s t false); cbn [app].
  - split; [exact H1 |]. apply IH. exact H2.
  - apply (chrono_weaken t lo); [exact H1 |]. apply IH, H2.
Qed.

Section SingleAction.
Variables (cfg : ReactiveConfig) (id : string) (st : ReactiveAction).
Hypothesis st_unguarded : is_true (act_preventDefault st) = false.
Hypothesis st_id : act_id st = Some id.

Lemma try_block_host_single old s ts w :
  host (snd (try_block cfg st id old s ts w))
  = if match act_trigger st old s ts with Normal true => true | _ => false end
       && conditions_pass st (mkContext cfg id old s ts)
    then snd (call (act_execute st) (mkContext cfg id old s ts) (host w))
    else host w.
Proof.
  unfold try_block.
  destruct (act_trigger st old s ts) as [[|] | e]; cbn [snd andb]; try reflexivity.
  set (ctx := mkContext cfg id old s ts).
  assert (Hc : exists r trc,
             match act_conditions st with
             | Some conds => every id conds ctx
             | None => (Normal true, [])
             end = (r, trc)
             /\ match r with Normal true => true | _ => false end
                = conditions_pass st ctx).
  { unfold conditions_pass. destruct (act_conditions st) as [conds |].
    - pose proof (every_result id ctx conds) as H'.
      destruct (every id conds ctx) as [r trc]. exists r, trc. auto.
    - exists (Normal true), []. auto. }
  destruct Hc as (r & trc & -> & Hr). rewrite <- Hr.
  destruct r as [[|] | e]; cbn match; cbn [snd]; try reflexivity.
  rewrite st_unguarded. cbn [andb].
  change (host (track id (observe trc
            (observe [ObsTrigger id old s ts (Normal true)] w)))) with (host w).
  destruct (call (act_execute st) ctx (host w)) as [res h'].
  destruct res; reflexivity.
Qed.

Lemma catch_block_host i e old s ts w :
  host (snd (catch_block i e old s ts w)) = host w.
Proof. unfold catch_block. repeat break_match; reflexivity. Qed.

Lemma processAction_host_single uid old s ts w :
  config (engine w) = Some cfg ->
  host (processAction uid st old s ts w)
  = if fires cfg id st old s ts false
    then snd (call (act_execute st) (mkContext cfg id old s ts) (host w))
    else host w.
Proof.
  intros Hc. unfold processAction, fires, id_of. rewrite Hc, st_id, st_unguarded.
  cbn [andb negb]. rewrite andb_true_r.
  destruct (truthy old); cbn [negb andb]; [| reflexivity].
  pose proof (try_block_host_single old s ts w) as Ht.
  destruct (try_block cfg st id old s ts w) as [[| e | fate] w1];
    cbn [snd] in Ht; try exact Ht.
  pose proof (catch_block_host id e old s ts w1) as Hk.
  destruct (catch_block id e old s ts w1) as [r w2]. cbn [snd] in Hk.
  simpl. rewrite Hk. exact Ht.
Qed.

(** One update on an engine that holds a single action: the state moves on
    and the stored [execute] is called if the action fires. *)
Lemma updateState_single w old s :
  holds_only cfg id st w old ->
  holds_only cfg id st (snd (updateState s w)) s
  /\ host (snd (updateState s w))
     = if fires cfg id st old s (now (host w)) false
       then snd (call (act_execute st)
                      (mkContext cfg id old s (now (host w))) (host w))
       else host w.
Proof.
  intros (Hd & Hc & Ha & Hs).
  unfold updateState. rewrite Hd, Hc, Ha, Hs. cbn [snd fold_left].
  match goal with |- context [processAction ?u st old s ?ts ?x] =>
    set (w1 := x);
    pose proof (processAction_static u st old s ts w1) as Hst;
    pose proof (processAction_host_single u old s ts w1 eq_refl) as Hh
  end.
  split.
  - unfold holds_only.
    rewrite (static_isDestroyed _ _ Hst), (static_config _ _ Hst),
      (static_actions _ _ Hst), (static_currentState _ _ Hst).
    simpl. auto.
  - exact Hh.
Qed.

End SingleAction.

Section DebouncedAction.
Variables (fn : ActionContext -> CallResult) (d : Z) (c : nat).
Variables (cfg : ReactiveConfig) (id : string) (st : ReactiveAction).
Hypothesis st_execute : act_execute st = FDebounce c (FUser fn) d.
Hypothesis st_unguarded : is_true (act_preventDefault st) = false.
Hypothesis st_id : act_id st = Some id.

Lemma run_debounced : forall sched w old pend T,
  holds_only cfg id st w old ->
  closure_state fn d c pend (host w) ->
  chrono (now (host w)) sched -> ends_by T sched -> (now (host w) <= T)%Z ->
  args_run (host (run (timed_updates sched ++ [EAdvance T]) w))
  = args_run (host w)
    ++ quiet_calls (timer_delay d)
         (match pend with Some p => [p] | None => [] end ++ fired cfg id st old sched) T.
Proof.
  induction sched as [| [t s] rest IH]; intros w old pend T Hw Hp Hc He HT.
  - cbn [timed_updates flat_map app run fold_left step fired host set_host].
    rewrite app_nil_r.
    destruct pend as [[tp x] |]; cbn [closure_state] in Hp.
    + destruct Hp as [[k Hp] Htp].
      destruct (debounce_advance fn c (host w) k _ x T Hp HT) as [_ H].
      unfold args_run. cbn [quiet_calls fst snd].
      destruct (tp + timer_delay d <=? T)%Z.
      * destruct H as [_ ->]. rewrite map_app. reflexivity.
      * destruct H as [_ ->]. rewrite app_nil_r. reflexivity.
    + rewrite (advance_no_timers T (host w) Hp). unfold args_run. simpl.
      rewrite app_nil_r. reflexivity.
  - destruct Hc as [Ht Hc]. cbn [fst] in Ht.
    apply Forall_cons_1 in He as [HtT He]. cbn [fst] in HtT.
    change (run (timed_updates ((t, s) :: rest) ++ [EAdvance T]) w)
      with (run (timed_updates rest ++ [EAdvance T])
                (snd (updateState s (set_host (advance t (host w)) w)))).
    set (wa := set_host (advance t (host w)) w).
    assert (Hwa : holds_only cfg id st wa old) by exact Hw.
    destruct (updateState_single cfg id st st_unguarded st_id wa old s Hwa) as [Hw' Hh'].
    rewrite st_execute in Hh'.
    set (w' := snd (updateState s wa)) in *.
    (* the closure after the clock has reached [t] *)
    assert (Ha : now (host wa) = t
                 /\ exists pend',
                      quiet_or_pending fn c (host wa)
                      /\ closure_state fn d c pend' (host wa)
                      /\ match pend' with
                         | Some p => (t < fst p + timer_delay d)%Z
                         | None => True
                         end
                      /\ args_run (host wa) ++ quiet_calls (timer_delay d)
                           (match pend' with Some p => [p] | None => [] end
                            ++ fired cfg id st old ((t, s) :: rest)) T
                         = args_run (host w) ++ quiet_calls (timer_delay d)
                             (match pend with Some p => [p] | None => [] end
                              ++ fired cfg id st old ((t, s) :: rest)) T).
    { destruct pend as [[tp x] |]; cbn [closure_state] in Hp.
      - destruct Hp as [[k Hp] Htp].
        destruct (debounce_advance fn c (host w) k _ x t Hp Ht) as [Hn H].
        split; [exact Hn |].
        destruct (Z.leb_spec (tp + timer_delay d) t) as [Hdue | Hdue].
        + exists None. destruct H as [Hq Hcalls]. split; [left; exact Hq |].
          split; [exact Hq |]. split; [exact I |].
          unfold args_run. change (host wa) with (advance t (host w)).
          rewrite Hcalls, map_app, <- app_assoc. f_equal. cbn [map fst app].
          symmetry. apply (quiet_calls_head_runs _ tp t T x); [exact Hdue | | exact HtT].
          apply fired_chrono. split; [cbn [fst]; lia | exact Hc].
        + exists (Some (tp, x)). destruct H as [Hq Hcalls].
          split; [right; exists k, (tp + timer_delay d)%Z, x; exact Hq |].
          split; [split; [exists k; exact Hq | change (host wa) with (advance t (host w)); lia] |].
          split; [exact Hdue |].
          unfold args_run. change (host wa) with (advance t (host w)).
          rewrite Hcalls. reflexivity.
      - split; [change (host wa) with (advance t (host w));
                rewrite (advance_no_timers t (host w) Hp); simpl; lia |].
        exists None.
        assert (Hq : timers (host wa) = []).
        { change (host wa) with (advance t (host w)).
          rewrite (advance_no_timers t (host w) Hp). exact Hp. }
        split; [left; exact Hq |]. split; [exact Hq |]. split; [exact I |].
        unfold args_run. change (host wa) with (advance t (host w)).
        rewrite (advance_no_timers t (host w) Hp). reflexivity. }
    destruct Ha as (Hnow & pend' & Hq & Hp' & Hlate & <-).
    rewrite Hnow in Hh'.
    cbn [fired].
    destruct (fires cfg id st old s t false) eqn:Hf.
    + destruct (debounce_call_resets fn d c (host wa) (mkContext cfg id old s t) Hq)
        as (Hp2 & Hcalls & Hnow2).
      rewrite <- Hh' in Hp2, Hcalls, Hnow2. rewrite Hnow in Hp2, Hnow2.
      rewrite (IH w' s (Some (t, mkContext cfg id old s t)) T Hw').
      * unfold args_run. rewrite Hcalls. f_equal.
        destruct pend' as [[tp x] |]; cbn [app]; [| reflexivity].
        destruct Hp' as [[k' Hpk] Htp].
        change (quiet_calls (timer_delay d)
                  ((tp, x) :: (t, mkContext cfg id old s t) :: fired cfg id st s rest) T)
          with (if (tp + timer_delay d <=? t)%Z
                then x :: quiet_calls (timer_delay d)
                            ((t, mkContext cfg id old s t) :: fired cfg id st s rest) T
                else quiet_calls (timer_delay d)
                       ((t, mkContext cfg id old s t) :: fired cfg id st s rest) T).
        cbn [fst] in Hlate.
        destruct (Z.leb_spec (tp + timer_delay d) t) as [Hdue | Hdue]; [lia | reflexivity].
      * split; [exists (nextTimer (host wa)); exact Hp2 | lia].
      * rewrite Hnow2. exact Hc.
      * exact He.
      * rewrite Hnow2. exact HtT.
    + rewrite <- Hh'. cbn [app].
      apply (IH w' s pend' T Hw').
      * rewrite Hh'. exact Hp'.
      * rewrite Hh', Hnow. exact Hc.
      * exact He.
      * rewrite Hh', Hnow. exact HtT.
Qed.

End DebouncedAction.

Lemma fired_same_tests cfg id a b : forall sched old,
  act_trigger a = act_trigger b -> act_conditions a = act_conditions b ->
  act_preventDefault a = act_preventDefault b ->
  fired cfg id a old sched = fired cfg id b old sched.
Proof.
  induction sched as [| [t s] rest IH]; intros old Ht Hc Hp; [reflexivity |].
  cbn [fired]. rewrite (IH s Ht Hc Hp).
  unfold fires, conditions_pass. rewrite Ht, Hc, Hp. reflexivity.
Qed.

Lemma debounced_engine_log
    (ent : nat -> string) (t0 : Z) (cfg : ReactiveConfig) (a : ReactiveAction)
    (fn : ActionContext -> CallResult) (d : Z) (id : string)
    (sched : list (Z * JSValue)) (T : Z) :
  cfg_actions cfg = [a] -> debounced_only a fn d id ->
  chrono t0 sched -> ends_by T sched -> (t0 <= T)%Z ->
  let w0 := snd (configure cfg (world0 ent t0)) in
  args_run (host (run (timed_updates sched ++ [EAdvance T]) w0))
  = quiet_calls d (fired cfg id a (cfg_state cfg) sched) T.
Proof.
  intros Hacts (Hex & Hdb & Hd & Hth & Hpd & Hid) Hc He HT w0.
  set (st := with_id id (with_execute (FDebounce 0 (FUser fn) d) a)).
  assert (Hw0 : w0 = set_engine
                       {| config := Some cfg; currentState := cfg_state cfg;
                          previousState := JNull; actions := [(id, st)];
                          executingActions := ∅; isDestroyed := false |}
                       (set_host (snd (alloc_cell (host0 t0))) (world0 ent t0))).
  { unfold w0, configure. cbn [isDestroyed engine world0 engine0].
    rewrite Hacts. cbn [forEach]. unfold addAction. rewrite Hid.
    unfold wrapActionWithControls. rewrite Hdb, Hth, Hex.
    unfold positive_ms. destruct (Z.ltb_spec 0 d) as [_ | ?]; [| lia].
    reflexivity. }
  rewrite (run_debounced fn d 0 cfg id st eq_refl Hpd eq_refl sched w0
             (cfg_state cfg) None T).
  - rewrite Hw0. cbn [app].
    rewrite (timer_delay_in_range d) by lia.
    rewrite (fired_same_tests cfg id st a sched (cfg_state cfg)) by reflexivity.
    reflexivity.
  - rewrite Hw0. repeat split.
  - rewrite Hw0. reflexivity.
  - rewrite Hw0. exact Hc.
  - exact He.
  - rewrite Hw0. exact HT.
Qed.


(** X24: a debounced action on the engine.  On an engine configured with
    one action that has a [debounce] of [d] milliseconds, from 1 to
    [2^31 - 1] (and no throttle or re-entry guard), over every schedule of updates the body of
    the action's [execute] runs exactly for the updates on which the action
    fires (truthy former state, trigger and conditions true) and that are
    followed by [d] milliseconds without another firing update, each time
    with the context of that update.  Updates on which the action does not
    fire do not postpone a pending execution. *)
Theorem debounced_action_runs_after_quiet_firing_updates
    (ent : nat -> string) (t0 : Z) (cfg : ReactiveConfig) (a : ReactiveAction)
    (fn : ActionContext -> CallResult) (d : Z) (id : string)
    (sched : list (Z * JSValue)) (T : Z) :
  cfg_actions cfg = [a] -> debounced_only a fn d id ->
  chrono t0 sched -> ends_by T sched -> (t0 <= T)%Z ->
  let w0 := snd (configure cfg (world0 ent t0)) in
  args_run (host (run (timed_updates sched ++ [EAdvance T]) w0))
  = quiet_calls d (fired cfg id a (cfg_state cfg) sched) T.
Proof. apply debounced_engine_log. Qed.

Lemma debounced_action_runs_after_quiet_firing_updates_witness :
  map ctx_state
    (args_run (host (run (timed_updates [(0, JNum 2); (50, JNum 3); (60, JNum 3);
                                         (400, JNum 4)]%Z ++ [EAdvance 450])
                         (snd (configure (sample_config (JNum 1) [debounced_sample] None)
                                         (world0 sample_entropy 0))))))
  = [JNum 3].
Proof.
  exact (f_equal (map ctx_state)
           (debounced_action_runs_after_quiet_firing_updates sample_entropy 0
              (sample_config (JNum 1) [debounced_sample] None) debounced_sample appends
              100 "save" [(0, JNum 2); (50, JNum 3); (60, JNum 3); (400, JNum 4)]%Z 450
              eq_refl
              ltac:(cbv [debounced_only throttled_only TIMEOUT_MAX]; repeat split; lia)
              ltac:(simpl; lia)
              ltac:(repeat constructor; simpl; lia)
              ltac:(lia))).
Defined.

(** X26: [destroy()] cancels no timer.  On the engine of X24, when
    [destroy()] is called after the updates, an execution that a debounce
    timer still holds runs all the same once its [d] milliseconds are over:
    the bodies run are those run without the call to [destroy()], which
    are the firing updates followed by [d] quiet milliseconds. *)
Theorem destroy_does_not_cancel_a_debounced_execution
    (ent : nat -> string) (t0 : Z) (cfg : ReactiveConfig) (a : ReactiveAction)
    (fn : ActionContext -> CallResult) (d : Z) (id : string)
    (sched : list (Z * JSValue)) (T : Z) :
  cfg_actions cfg = [a] -> debounced_only a fn d id ->
  chrono t0 sched -> ends_by T sched -> (t0 <= T)%Z ->
  let w0 := snd (configure cfg (world0 ent t0)) in
  args_run (host (run (timed_updates sched ++ [EDestroy; EAdvance T]) w0))
  = args_run (host (run (timed_updates sched ++ [EAdvance T]) w0))
  /\ args_run (host (run (timed_updates sched ++ [EDestroy; EAdvance T]) w0))
     = quiet_calls d (fired cfg id a (cfg_state cfg) sched) T.
Proof.
  intros Hacts Hdb Hc He HT w0.
  assert (Same : args_run (host (run (timed_updates sched ++ [EDestroy; EAdvance T]) w0))
                 = args_run (host (run (timed_updates sched ++ [EAdvance T]) w0))).
  { unfold run. rewrite !fold_left_app. reflexivity. }
  split; [exact Same |]. rewrite Same.
  exact (debounced_engine_log ent t0 cfg a fn d id sched T Hacts Hdb Hc He HT).
Qed.

Lemma destroy_does_not_cancel_a_debounced_execution_witness :
  map ctx_state
    (args_run (host (run (timed_updates [(0, JNum 2); (50, JNum 3)]%Z
                          ++ [EDestroy; EAdvance 200])
                         (snd (configure (sample_config (JNum 1) [debounced_sample] None)
                                         (world0 sample_entropy 0))))))
  = [JNum 3].
Proof.
  exact (f_equal (map ctx_state)
           (proj2 (destroy_does_not_cancel_a_debounced_execution sample_entropy 0
              (sample_config (JNum 1) [debounced_sample] None) debounced_sample appends
              100 "save" [(0, JNum 2); (50, JNum 3)]%Z 200
              eq_refl
              ltac:(cbv [debounced_only throttled_only TIMEOUT_MAX]; repeat split; lia)
              ltac:(simpl; lia)
              ltac:(repeat constructor; simpl; lia)
              ltac:(lia)))).
Defined.

(** ** A throttled action on the engine *)

Lemma throttle_accepts_expired {A : Type} (L ce lo : Z) (sched : list (Z * A)) :
  (ce <= lo)%Z -> chrono lo sched ->
  throttle_accepts L (Some ce) sched = throttle_accepts L None sched.
Proof.
  intros H Hc. destruct sched as [| [t x] rest]; [reflexivity |].
  destruct Hc as [Ht _]. cbn [fst] in Ht. cbn [throttle_accepts fst snd].
  destruct (Z.ltb_spec t ce); [lia | reflexivity].
Qed.

Section ThrottledAction.
Variables (fn : ActionContext -> CallResult) (l : Z) (c : nat).
Variables (cfg : ReactiveConfig) (id : string) (st : ReactiveAction).
Hypothesis fn_returns : forall x e, fn x <> Threw e.
Hypothesis st_execute : act_execute st = FThrottle c (FUser fn) l.
Hypothesis st_unguarded : is_true (act_preventDefault st) = false.
Hypothesis st_id : act_id st = Some id.

Lemma run_throttled : forall sched w old cool,
  holds_only cfg id st w old ->
  throttle_state c cool (host w) ->
  chrono (now (host w)) sched ->
  args_run (host (run (timed_updates sched) w))
  = args_run (host w)
    ++ throttle_accepts (timer_delay l) cool (fired cfg id st old sched).
Proof.
  induction sched as [| [t s] rest IH]; intros w old cool Hw Hs Hc.
  - simpl. rewrite app_nil_r. reflexivity.
  - destruct Hc as [Ht Hc]. cbn [fst] in Ht.
    change (run (timed_updates ((t, s) :: rest)) w)
      with (run (timed_updates rest)
                (snd (updateState s (set_host (advance t (host w)) w)))).
    set (wa := set_host (advance t (host w)) w).
    assert (Hwa : holds_only cfg id st wa old) by exact Hw.
    destruct (updateState_single cfg id st st_unguarded st_id wa old s Hwa) as [Hw' Hh'].
    rewrite st_execute in Hh'.
    set (w' := snd (updateState s wa)) in *.
    (* the closure after the clock has reached [t] *)
    assert (Ha : exists cool',
               now (host wa) = t /\ calls (host wa) = calls (host w)
               /\ throttle_state c cool' (host wa)
               /\ match cool' with Some ce => (t < ce)%Z | None => True end
               /\ forall sch : list (Z * ActionContext), chrono t sch ->
                    throttle_accepts (timer_delay l) cool sch
                    = throttle_accepts (timer_delay l) cool' sch).
    { destruct cool as [ce |].
      - destruct (throttle_advance_cooling c (host w) ce t Hs Ht) as (Hn & Hcalls & Hs1).
        destruct (ce <=? t)%Z eqn:Hce.
        + exists None. split; [exact Hn |]. split; [exact Hcalls |].
          split; [exact Hs1 |]. split; [exact I |].
          intros sch Hsch. apply (throttle_accepts_expired _ ce t); [lia | assumption].
        + exists (Some ce). split; [exact Hn |]. split; [exact Hcalls |].
          split; [exact Hs1 |]. split; [lia | reflexivity].
      - destruct (throttle_advance_idle c (host w) t Hs Ht) as (Hn & Hcalls & Hs1).
        exists None. split; [exact Hn |]. split; [exact Hcalls |].
        split; [exact Hs1 |]. split; [exact I | reflexivity]. }
    destruct Ha as (cool' & Hnow & Hcalls & Hs1 & Hlate & Hacc).
    rewrite Hnow in Hh'.
    rewrite (Hacc (fired cfg id st old ((t, s) :: rest)))
      by (apply fired_chrono; split; [cbn [fst]; lia | exact Hc]).
    cbn [fired].
    destruct (fires cfg id st old s t false) eqn:Hf; cbn [app].
    + cbn [throttle_accepts fst snd].
      destruct cool' as [ce |].
      * destruct (Z.ltb_spec t ce) as [_ | ?]; [| lia].
        rewrite (throttle_call_cooling fn l c (host wa) _ ce Hs1) in Hh'. cbn [snd] in Hh'.
        rewrite (IH w' s (Some ce) Hw').
        -- rewrite Hh'. unfold args_run. rewrite Hcalls. reflexivity.
        -- rewrite Hh'. exact Hs1.
        -- rewrite Hh', Hnow. exact Hc.
      * destruct (throttle_call_idle fn l c fn_returns (host wa)
                    (mkContext cfg id old s t) Hs1) as (Hs2 & Hcalls2 & Hn2).
        rewrite <- Hh' in Hs2, Hcalls2, Hn2. rewrite Hnow in Hs2, Hn2.
        rewrite (IH w' s (Some (t + timer_delay l)%Z) Hw' Hs2)
          by (rewrite Hn2; exact Hc).
        unfold args_run. rewrite Hcalls2, Hcalls, map_app. simpl.
        rewrite <- app_assoc. reflexivity.
    + rewrite (IH w' s cool' Hw').
      * rewrite Hh'. unfold args_run. rewrite Hcalls. reflexivity.
      * rewrite Hh'. exact Hs1.
      * rewrite Hh', Hnow. exact Hc.
Qed.

End ThrottledAction.

(** X25: a throttled action on the engine.  On an engine configured with
    one action that has a [throttle] of [l] milliseconds, from 1 to
    [2^31 - 1] (no debounce, no re-entry guard) and whose [execute] does not throw, over
    every schedule of updates the body of [execute] runs at once, with the
    update's context, for exactly the updates on which the action fires and
    that do not arrive within [l] milliseconds of the last run; firing
    updates during a cooldown are dropped, not deferred. *)
Theorem throttled_action_runs_outside_cooldown
    (ent : nat -> string) (t0 : Z) (cfg : ReactiveConfig) (a : ReactiveAction)
    (fn : ActionContext -> CallResult) (l : Z) (id : string)
    (sched : list (Z * JSValue)) :
  cfg_actions cfg = [a] -> throttled_only a fn l id ->
  (forall x e, fn x <> Threw e) -> chrono t0 sched ->
  let w0 := snd (configure cfg (world0 ent t0)) in
  args_run (host (run (timed_updates sched) w0))
  = throttle_accepts l None (fired cfg id a (cfg_state cfg) sched).
Proof.
  intros Hacts (Hex & Hdb & Hth & Hl & Hpd & Hid) Hfn Hc w0.
  set (st := with_id id (with_execute (FThrottle 0 (FUser fn) l) a)).
  assert (Hw0 : w0 = set_engine
                       {| config := Some cfg; currentState := cfg_state cfg;
                          previousState := JNull; actions := [(id, st)];
                          executingActions := ∅; isDestroyed := false |}
                       (set_host (snd (alloc_cell (host0 t0))) (world0 ent t0))).
  { unfold w0, configure. cbn [isDestroyed engine world0 engine0].
    rewrite Hacts. cbn [forEach]. unfold addAction. rewrite Hid.
    unfold wrapActionWithControls. rewrite Hdb, Hth, Hex.
    unfold positive_ms. destruct (Z.ltb_spec 0 l) as [_ | ?]; [| lia].
    reflexivity. }
  rewrite (run_throttled fn l 0 cfg id st Hfn eq_refl Hpd eq_refl sched w0
             (cfg_state cfg) None).
  - rewrite Hw0. cbn [app]. rewrite (timer_delay_in_range l) by lia.
    rewrite (fired_same_tests cfg id st a sched (cfg_state cfg)) by reflexivity.
    reflexivity.
  - rewrite Hw0. repeat split.
  - rewrite Hw0. split; reflexivity.
  - rewrite Hw0. exact Hc.
Qed.

Lemma throttled_action_runs_outside_cooldown_witness :
  map ctx_state
    (args_run (host (run (timed_updates [(0, JNum 2); (50, JNum 3); (60, JNum 3);
                                         (400, JNum 4)]%Z)
                         (snd (configure (sample_config (JNum 1) [throttled_sample] None)
                                         (world0 sample_entropy 0))))))
  = [JNum 2; JNum 4].
Proof.
  exact (f_equal (map ctx_state)
           (throttled_action_runs_outside_cooldown sample_entropy 0
              (sample_config (JNum 1) [throttled_sample] None) throttled_sample appends
              100 "sync" [(0, JNum 2); (50, JNum 3); (60, JNum 3); (400, JNum 4)]%Z
              eq_refl
              ltac:(cbv [debounced_only throttled_only TIMEOUT_MAX]; repeat split; lia)
              ltac:(intros x e; discriminate)
              ltac:(simpl; lia))).
Defined.

(** ** Failures stay inside [processAction] *)












